(** * Self-service portal setup: the provisioning script of [src/index.js]

    A shallow embedding of the script and the proofs of its specification.

    The script is asynchronous JavaScript.  An [async] function is modelled
    as a resumption: a tree whose nodes are the effects the function
    performs (a line on the console, an operation handed to the run time,
    [process.exit]) and whose leaves are its outcome.  [Promise.all] is a
    node of its own; the interpreter at the end of the definitions runs such
    trees against a schedule, the order in which the run time completes the
    pending operations, and records what happens in a trace. *)

From Stdlib Require Import List String Ascii ZArith Bool Arith Lia DecimalString.
Import ListNotations.

Local Open Scope string_scope.
Local Open Scope list_scope.

Infix "+++" := String.append (right associativity, at level 60).

Set Warnings "-register-all".

(** ** JavaScript values *)

(** The values the script handles: what [JSON.parse] can return, and
    [undefined].  An object is the list of its own properties, in property
    order; a number is an integer, the script computes with none.  [VNum n]
    stands for the number [n] where a double holds it exactly, which is
    the case of the safe integers ([printable] below). *)
Inductive value : Type :=
| VUndef
| VNull
| VBool (b : bool)
| VNum (n : Z)
| VStr (s : string)
| VArr (l : list value)
| VObj (fields : list (string * value)).

(** A thrown value.  [statusCode] is present on the failures of
    [request-promise-native] that carry an HTTP status. *)
Record error : Type := mkError {
  statusCode : option Z;
  err_name : string;
  err_message : string
}.

Inductive result (A : Type) : Type :=
| Ok (a : A)
| Err (e : error).
Arguments Ok {A} a.
Arguments Err {A} e.

Definition rbind {A B} (r : result A) (f : A -> result B) : result B :=
  match r with
  | Ok a => f a
  | Err e => Err e
  end.

Notation "x <- r ;; k" := (rbind r (fun x => k))
  (at level 61, r at next level, right associativity).

(** [err.toString()], that is [Error.prototype.toString]: the name alone
    when the message is empty, the message alone when the name is empty,
    else both with a colon between them. *)
Definition err_toString (e : error) : string :=
  if String.eqb (err_name e) "" then err_message e
  else if String.eqb (err_message e) "" then err_name e
  else err_name e +++ ": " +++ err_message e.

Definition string_of_Z (n : Z) : string := NilZero.string_of_int (Z.to_int n).

Fixpoint join (sep : string) (l : list string) : string :=
  match l with
  | [] => ""
  | [s] => s
  | s :: l' => s +++ sep +++ join sep l'
  end.

(** The string a value contributes to a template literal. *)
Fixpoint toString (v : value) : string :=
  match v with
  | VUndef => "undefined"
  | VNull => "null"
  | VBool true => "true"
  | VBool false => "false"
  | VNum n => string_of_Z n
  | VStr s => s
  | VArr l =>
      join "," (map (fun x => match x with
                              | VUndef | VNull => ""
                              | _ => toString x
                              end) l)
  | VObj _ => "[object Object]"
  end.

(** The integers a double holds exactly and JavaScript prints with all
    their digits: those up to [Number.MAX_SAFE_INTEGER] in magnitude.
    Larger numbers are rounded, and printed with an exponent from [1e21]
    on. *)
Definition safe_integer (n : Z) : bool :=
  Z.leb (Z.abs n) 9007199254740991.

(** The values of which [toString] is the string JavaScript puts in a
    template literal: the numbers in them are safe integers, and the
    objects have no property [toString] of their own (a property that
    [JSON.parse] can create, and that is no function: the conversion of
    such an object throws). *)
Fixpoint printable (v : value) : bool :=
  match v with
  | VNum n => safe_integer n
  | VArr l => forallb printable l
  | VObj fields =>
      negb (existsb (fun kv => String.eqb (fst kv) "toString") fields)
  | VUndef | VNull | VBool _ | VStr _ => true
  end.

Fixpoint lookup (name : string) (fields : list (string * value)) : value :=
  match fields with
  | [] => VUndef
  | (k, v) :: fields' => if String.eqb k name then v else lookup name fields'
  end.

(** The [TypeError] of a property read on [undefined] or [null]. *)
Definition typeError_read (name : string) (v : value) : error :=
  mkError None "TypeError"
    ("Cannot read property '" +++ name +++ "' of " +++ toString v).

(** [v.name], for the names this script reads ([id], [name], [strategy],
    [enabled_clients], [client_id], [client_secret], [portal], [backend],
    [portal_url]); none of them is a built-in property of a string, a
    number or an array. *)
Definition get (v : value) (name : string) : result value :=
  match v with
  | VUndef | VNull => Err (typeError_read name v)
  | VObj fields => Ok (lookup name fields)
  | _ => Ok VUndef
  end.

Fixpoint set_field (name : string) (x : value) (fields : list (string * value))
  : list (string * value) :=
  match fields with
  | [] => [(name, x)]
  | (k, v) :: fields' =>
      if String.eqb k name then (k, x) :: fields'
      else (k, v) :: set_field name x fields'
  end.

Fixpoint mapM {A B} (f : A -> result B) (l : list A) : result (list B) :=
  match l with
  | [] => Ok []
  | a :: l' => b <- f a ;; bs <- mapM f l' ;; Ok (b :: bs)
  end.

(** [array.map(f)] *)
Definition js_map (f : value -> result value) (array : value) : result value :=
  match array with
  | VArr l => vs <- mapM f l ;; Ok (VArr vs)
  | VUndef | VNull => Err (typeError_read "map" array)
  | _ => Err (mkError None "TypeError" "connections.map is not a function")
  end.

(** [x === s] for a string literal [s] *)
Definition strict_eq_str (x : value) (s : string) : bool :=
  match x with
  | VStr s' => String.eqb s' s
  | _ => false
  end.

(** lodash's [_.concat(array, values)]: a copy of [array] (or [[array]]
    when it is not an array) followed by [values] flattened one level. *)
Definition flatten1 (values : list value) : list value :=
  flat_map (fun x => match x with VArr l => l | _ => [x] end) values.

Definition lodash_concat (array : value) (values : list value) : value :=
  VArr ((match array with VArr l => l | _ => [array] end) ++ flatten1 values).

(** ** Effects *)

Inductive http_method : Type := GET | POST | PATCH.

(** The options object handed to [rp]. *)
Record request : Type := mkRequest {
  uri : string;
  method : http_method;
  authorization : string;
  json : option value
}.

Record question : Type := mkQuestion {
  q_name : string;
  q_type : string;
  q_message : string;
  q_choices : option value
}.

(** The operations the script hands to the run time and awaits. *)
Inductive io : Type :=
| Rp (q : request)
| Delay (ms : Z)
| ReadFile (file : string)
| WriteFile (file : string) (content : string)
| Prompt (questions : list question).

(** How a pending operation ends. *)
Inductive settle : Type :=
| Resolved (v : value)
| Rejected (e : error).

Inductive style : Type :=
| plain | green_bold | red_bold | yellow_bold | white_bgGreen_bold | bgGreen_bold.

(** An [async] function that awaits one operation at a time. *)
Inductive task : Type :=
| Ret (v : value)
| Throw (e : error)
| Log (st : style) (msg : string) (k : task)
| Await (op : io) (k : settle -> task)
| OutOfFuel.

(** An [async] function that also awaits [Promise.all] of started tasks, or
    leaves through [process.exit]. *)
Inductive prog : Type :=
| PRet (v : value)
| PThrow (e : error)
| PLog (st : style) (msg : string) (k : prog)
| PExit (code : Z)
| PAwait (op : io) (k : settle -> prog)
| PAll (ps : list task) (k : list value -> prog)
| PFuel.

(** [await] of an [async] call that awaits one operation at a time. *)
Fixpoint lift (t : task) : prog :=
  match t with
  | Ret v => PRet v
  | Throw e => PThrow e
  | Log st msg k => PLog st msg (lift k)
  | Await op k => PAwait op (fun r => lift (k r))
  | OutOfFuel => PFuel
  end.

Fixpoint bind (p : prog) (f : value -> prog) : prog :=
  match p with
  | PRet v => f v
  | PThrow e => PThrow e
  | PLog st msg k => PLog st msg (bind k f)
  | PExit code => PExit code
  | PAwait op k => PAwait op (fun r => bind (k r) f)
  | PAll ps k => PAll ps (fun vs => bind (k vs) f)
  | PFuel => PFuel
  end.

(** [const x = await op; k x] *)
Definition await (op : io) (k : value -> task) : task :=
  Await op (fun r => match r with
                     | Resolved v => k v
                     | Rejected e => Throw e
                     end).

Definition pawait (op : io) (k : value -> prog) : prog :=
  PAwait op (fun r => match r with
                      | Resolved v => k v
                      | Rejected e => PThrow e
                      end).

(** ** The script *)

(** [config]: the answers of the operator, assigned once by [runSetup]
    before anything below reads it. *)
Record Config : Type := mkConfig {
  domain : string;
  token : string;
  portal_url : string
}.

Definition newline : string := String (ascii_of_nat 10) "".

Section Script.

(** What the script takes from Node and from its packages. *)
Variable JSON_parse : value -> result value.
Variable path_join : string -> string -> string.
Variable normalizeUrl : string -> string.
Variable dirname : string.

Section WithConfig.

Variable config : Config.

Definition connections_request (strategy : string) : request :=
  let baseUrl := "https://" +++ path_join (domain config) "api/v2" in
  {| uri := baseUrl +++ "/connections?strategy=" +++ strategy +++ "&fields=name";
     method := GET;
     authorization := "Bearer " +++ token config;
     json := None |}.

Definition findConnections (strategy : string) : task :=
  await (Rp (connections_request strategy)) (fun resp =>
    match JSON_parse resp with
    | Err e => Throw e
    | Ok connections =>
        match js_map (fun c =>
                        name <- get c "name" ;;
                        id <- get c "id" ;;
                        Ok (VObj [("name", name); ("value", id)]))
                     connections with
        | Err e => Throw e
        | Ok choices => Ret choices
        end
    end).

(** [delay(timeout)]: a promise that a timer resolves after [timeout]
    milliseconds. *)
Definition delay (timeout : Z) : io := Delay timeout.

Definition DELAY_SECONDS : Z := 5.

Definition is_429 (err : error) : bool :=
  match statusCode err with
  | Some code => Z.eqb code 429
  | None => false
  end.

Definition handleError (err : error) (failedOperation : unit -> task) : task :=
  if is_429 err then
    Log yellow_bold
      ("rate limited, waiting for " +++ string_of_Z DELAY_SECONDS
       +++ "s before retyring..")
      (await (delay (DELAY_SECONDS * 1000)) (fun _ => failedOperation tt))
  else
    Log red_bold (err_toString err) (Ret VUndef).

Definition entity_url (entity : string) : string :=
  "https://" +++ domain config +++ "/api/v2/" +++ entity.

Definition create_request (entity : string) (payload : value) : request :=
  {| uri := entity_url entity;
     method := POST;
     authorization := "Bearer " +++ token config;
     json := Some payload |}.

Definition get_request (entity : string) (id : value) : request :=
  {| uri := entity_url entity +++ "/" +++ toString id;
     method := GET;
     authorization := "Bearer " +++ token config;
     json := None |}.

Definition patch_request (entity : string) (id payload : value) : request :=
  {| uri := entity_url entity +++ "/" +++ toString id;
     method := PATCH;
     authorization := "Bearer " +++ token config;
     json := Some payload |}.

(** The three wrappers call themselves again through [handleError];
    [fuel] bounds the number of invocations the model follows. *)
Fixpoint createEntity (fuel : nat) (entity : string) (payload : value) : task :=
  match fuel with
  | O => OutOfFuel
  | S fuel' =>
      Log green_bold ("creating " +++ entity +++ "...")
        (Await (Rp (create_request entity payload)) (fun r =>
           match r with
           | Resolved v => Ret v
           | Rejected err =>
               handleError err (fun _ => createEntity fuel' entity payload)
           end))
  end.

Fixpoint getEntity (fuel : nat) (entity : string) (id : value) : task :=
  match fuel with
  | O => OutOfFuel
  | S fuel' =>
      Await (Rp (get_request entity id)) (fun r =>
        match r with
        | Resolved resp =>
            match JSON_parse resp with
            | Ok v => Ret v
            | Err err => handleError err (fun _ => getEntity fuel' entity id)
            end
        | Rejected err => handleError err (fun _ => getEntity fuel' entity id)
        end)
  end.

Fixpoint patchEntity (fuel : nat) (entity : string) (id payload : value) : task :=
  match fuel with
  | O => OutOfFuel
  | S fuel' =>
      Await (Rp (patch_request entity id payload)) (fun r =>
        match r with
        | Resolved v => Ret v
        | Rejected err =>
            handleError err (fun _ => patchEntity fuel' entity id payload)
        end)
  end.

Definition portal_payload (pageHtml : value) : value :=
  VObj [("name", VStr "Self Service Portal");
        ("callbacks", VArr [VStr (portal_url config +++ "/callback")]);
        ("jwt_configuration", VObj [("alg", VStr "RS256")]);
        ("custom_login_page", pageHtml);
        ("custom_login_page_on", VBool true);
        ("app_type", VStr "spa");
        ("grant_types", VArr [VStr "authorization_code"; VStr "implicit"])].

Definition createPortalClient (fuel : nat) : task :=
  await (ReadFile (path_join dirname "portal_login.html")) (fun pageHtml =>
    createEntity fuel "clients" (portal_payload pageHtml)).

Definition backend_payload : value :=
  VObj [("name", VStr "Self Service Backend");
        ("app_type", VStr "non_interactive");
        ("grant_types",
         VArr [VStr "client_credentials";
               VStr "http://auth0.com/oauth/grant-type/password-realm";
               VStr "http://auth0.com/oauth/legacy/grant-type/ro";
               VStr "password"])].

Definition createBackendClient (fuel : nat) : task :=
  createEntity fuel "clients" backend_payload.

Definition scope_entry (v d : string) : value :=
  VObj [("value", VStr v); ("description", VStr d)].

Definition api_payload : value :=
  VObj [("name", VStr "Self Service API");
        ("identifier", VStr "urn:self-service-portal-api");
        ("scopes",
         VArr [scope_entry "change:password" "Change Password";
               scope_entry "reset:password" "Reset Password";
               scope_entry "update:enrolment" "Update Enrolment";
               scope_entry "create:enrolment" "Create Enrolment";
               scope_entry "read:enrolment" "Read Enrolment";
               scope_entry "delete:enrolment" "delete:enrolment"])].

Definition createBackendAPI (fuel : nat) : task :=
  createEntity fuel "resource-servers" api_payload.

Definition rule_payload (ruleCode : value) : value :=
  VObj [("name", VStr "Self Service Issue Scopes");
        ("script", ruleCode);
        ("enabled", VBool true)].

Definition createRule (fuel : nat) : task :=
  await (ReadFile (path_join dirname "issue_scopes_rule.js")) (fun ruleCode =>
    createEntity fuel "rules" (rule_payload ruleCode)).

Definition grant_payload (client_id : value) : value :=
  VObj [("client_id", client_id);
        ("audience", VStr ("https://" +++ domain config +++ "/api/v2/"));
        ("scope", VArr [VStr "read:users"; VStr "update:users";
                        VStr "delete:users"])].

Definition createMgmtApiGrant (fuel : nat) (backendClient : value) : task :=
  match get backendClient "client_id" with
  | Err e => Throw e
  | Ok client_id => createEntity fuel "client-grants" (grant_payload client_id)
  end.

(** One element of [patches] in [enableConnections]. *)
Record Patch : Type := mkPatch { p_id : value; p_patch : value }.

Definition derivePatch (artefacts c : value) : result Patch :=
  id <- get c "id" ;;
  enabled_clients <- get c "enabled_clients" ;;
  portal <- get artefacts "portal" ;;
  portal_id <- get portal "client_id" ;;
  backend <- get artefacts "backend" ;;
  backend_id <- get backend "client_id" ;;
  strategy <- get c "strategy" ;;
  Ok {| p_id := id;
        p_patch :=
          VObj [("enabled_clients",
                 lodash_concat enabled_clients [VArr [portal_id; backend_id]]);
                ("metadata",
                 if strict_eq_str strategy "ad"
                 then VObj [("username_field_name", VStr "sAMAccountName")]
                 else VObj [])] |}.

(** [selectedConnections] is the answers object of [inquirer.prompt],
    given by its properties. *)
Definition enableConnections (fuel : nat) (artefacts : value)
    (selectedConnections : list (string * value)) : prog :=
  PAll (map (fun kv => getEntity fuel "connections" (snd kv)) selectedConnections)
    (fun cons =>
       match mapM (derivePatch artefacts) cons with
       | Err e => PThrow e
       | Ok patches =>
           PAll (map (fun p => patchEntity fuel "connections" (p_id p) (p_patch p))
                     patches)
                (fun responses => PRet (VArr responses))
       end).

Definition stage1 (fuel : nat) : list task :=
  map (fun f => f fuel)
      [createPortalClient; createBackendClient; createBackendAPI; createRule].

Definition createArtefacts (fuel : nat) : prog :=
  PAll (stage1 fuel) (fun settled =>
    let portal := nth 0 settled VUndef in
    let backend := nth 1 settled VUndef in
    let api := nth 2 settled VUndef in
    let rule := nth 3 settled VUndef in
    bind (lift (createMgmtApiGrant fuel backend)) (fun mgmt_grant =>
      PRet (VObj [("portal", portal); ("backend", backend); ("api", api);
                  ("rule", rule); ("mgmt_grant", mgmt_grant)]))).

Definition client_env (artefacts : value) : result string :=
  portal <- get artefacts "portal" ;;
  portal_id <- get portal "client_id" ;;
  Ok ("REACT_APP_domain=" +++ domain config +++ newline
      +++ "REACT_APP_clientID=" +++ toString portal_id +++ newline
      +++ "REACT_APP_audience=urn:self-service-portal-api" +++ newline).

Definition server_env (artefacts : value) : result string :=
  backend <- get artefacts "backend" ;;
  backend_id <- get backend "client_id" ;;
  backend' <- get artefacts "backend" ;;
  backend_secret <- get backend' "client_secret" ;;
  Ok ("NON_INTERACTIVE_CLIENT_ID=" +++ toString backend_id +++ newline
      +++ "NON_INTERACTIVE_CLIENT_SECRET=" +++ toString backend_secret +++ newline
      +++ "DOMAIN=" +++ domain config +++ newline
      +++ "AUDIENCE=urn:self-service-portal-api" +++ newline).

Definition generateEnv (artefacts : value) : prog :=
  match client_env artefacts with
  | Err e => PThrow e
  | Ok front =>
      match server_env artefacts with
      | Err e => PThrow e
      | Ok back =>
          pawait (WriteFile (path_join dirname "client.env") front) (fun _ =>
            pawait (WriteFile (path_join dirname "server.env") back) (fun _ =>
              PRet VUndef))
      end
  end.

End WithConfig.

Definition connection_questions (ad sms email : list value) : list question :=
  [ {| q_name := "selected_ad_connection"; q_type := "list";
       q_message := "Please select an AD connection.";
       q_choices := Some (VArr ad) |};
    {| q_name := "selected_sms_connection"; q_type := "list";
       q_message := "Please select an SMS passwordless connection.";
       q_choices := Some (VArr sms) |};
    {| q_name := "selected_email_connection"; q_type := "list";
       q_message := "Please select an email passwordless connection.";
       q_choices := Some (VArr email) |} ].

Definition ad_required : string :=
  "AD connection is required. Please setup an AD connection and rerun the script.".
Definition sms_required : string :=
  "SMS passwordless connection is required. Please setup passwordless SMS and rerun the script.".
Definition email_required : string :=
  "Email passwordless connection is required. Please setup passwordless Email and rerun the script.".

(** The three arguments are arrays, the results of [findConnections]. *)
Definition validateConnections (ad_connections sms_connections email_connections
    : list value) : prog :=
  if Nat.ltb (List.length ad_connections) 1 then PLog red_bold ad_required (PExit 0)
  else if Nat.ltb (List.length sms_connections) 1 then PLog red_bold sms_required (PExit 0)
  else if Nat.ltb (List.length email_connections) 1 then PLog red_bold email_required (PExit 0)
  else
    pawait (Prompt (connection_questions ad_connections sms_connections
                      email_connections))
           (fun answers => PRet answers).

Definition config_questions : list question :=
  [ {| q_name := "domain"; q_type := "input";
       q_message := "Please enter Auth0 tenant domain.";
       q_choices := None |};
    {| q_name := "token"; q_type := "input";
       q_message := "Please enter management api token with "
         +++ "create:clients, create:rules, create:resource_servers, create:client_grants, read:connections update:connection scopes.";
       q_choices := None |};
    {| q_name := "portal_url"; q_type := "input";
       q_message := "Please enter public url of the portal deployment.";
       q_choices := None |} ].

(** The validation callbacks of the three questions run inside the
    prompt; the answers it resolves with have passed them. *)
Definition getAndValidateConfig : prog :=
  pawait (Prompt config_questions) (fun answers =>
    match get answers "portal_url" with
    | Err e => PThrow e
    | Ok u =>
        match answers with
        | VObj fields =>
            PRet (VObj (set_field "portal_url" (VStr (normalizeUrl (toString u)))
                          fields))
        | _ => PRet answers
        end
    end).

Definition field_string (name : string) (o : value) : string :=
  match get o name with
  | Ok v => toString v
  | Err _ => "undefined"
  end.

Definition as_config (answers : value) : Config :=
  {| domain := field_string "domain" answers;
     token := field_string "token" answers;
     portal_url := field_string "portal_url" answers |}.

Definition elements (v : value) : list value :=
  match v with
  | VArr l => l
  | _ => []
  end.

Definition properties (v : value) : list (string * value) :=
  match v with
  | VObj fields => fields
  | _ => []
  end.

Definition strategies : list string := ["ad"; "sms"; "email"].

Definition EOL : string := newline.

(** [runSetup] once [config] is assigned. *)
Definition setup (config : Config) (fuel : nat) : prog :=
  PLog green_bold "analysing tenant..."
    (PAll (map (findConnections config) strategies) (fun found =>
       let ad_connections := elements (nth 0 found VUndef) in
       let sms_connections := elements (nth 1 found VUndef) in
       let email_connections := elements (nth 2 found VUndef) in
       bind (validateConnections ad_connections sms_connections email_connections)
         (fun selectedConnections =>
            bind (createArtefacts config fuel) (fun artefacts =>
              bind (enableConnections config fuel artefacts
                      (properties selectedConnections)) (fun _ =>
                bind (generateEnv config artefacts) (fun _ =>
                  PLog bgGreen_bold
                    "Done. Copy the generated .env files in respective folders."
                    (PRet VUndef))))))).

Definition runSetup (fuel : nat) : prog :=
  PLog white_bgGreen_bold "Self Service Portal Setup"
    (PLog plain EOL
       (bind getAndValidateConfig (fun answers =>
          setup (as_config answers) fuel))).

End Script.

(** ** Running the script *)

(** What a run leaves behind, in order: the lines on the console, the
    operations started, the operations completed, the settlement of each
    [Promise.all], and the exit of the process. *)
Inductive event : Type :=
| EvLog (st : style) (msg : string)
| EvCall (op : io)
| EvSettle (op : io) (r : settle)
| EvAll (vs : list value)
| EvAllRejected (e : error)
| EvExit (code : Z).

(** A started task: settled, or suspended at an operation. *)
Inductive tstate : Type :=
| TRet (v : value)
| TThrow (e : error)
| TWait (op : io) (k : settle -> task)
| TFuel.

(** Runs a task up to its first suspension. *)
Fixpoint tstart (t : task) : list event * tstate :=
  match t with
  | Ret v => ([], TRet v)
  | Throw e => ([], TThrow e)
  | Log st msg k => let (ev, c) := tstart k in (EvLog st msg :: ev, c)
  | Await op k => ([EvCall op], TWait op k)
  | OutOfFuel => ([], TFuel)
  end.

(** [[f1, f2, ...].map(f => f())]: the tasks are started one after the
    other, each up to its first suspension. *)
Fixpoint pool_start (ps : list task) : list event * list tstate :=
  match ps with
  | [] => ([], [])
  | t :: ps' =>
      let (ev, c) := tstart t in
      let (evs, cs) := pool_start ps' in
      (ev ++ evs, c :: cs)
  end.

Fixpoint update {A} (j : nat) (x : A) (l : list A) : list A :=
  match l, j with
  | [], _ => []
  | _ :: l', O => x :: l'
  | a :: l', S j' => a :: update j' x l'
  end.

(** The run time completes the operation member [j] is suspended at. *)
Definition pool_deliver (cs : list tstate) (j : nat) (r : settle)
  : option (list event * list tstate) :=
  match nth_error cs j with
  | Some (TWait op k) =>
      let (ev, c) := tstart (k r) in
      Some (EvSettle op r :: ev, update j c cs)
  | _ => None
  end.

Inductive all_status : Type :=
| AllPending
| AllFulfilled (vs : list value)
| AllRejected (e : error).

(** [Promise.all]: rejected with the first rejection, fulfilled with the
    array of values once every member is fulfilled. *)
Fixpoint resolve (cs : list tstate) : all_status :=
  match cs with
  | [] => AllFulfilled []
  | TThrow e :: _ => AllRejected e
  | TRet v :: cs' =>
      match resolve cs' with
      | AllFulfilled vs => AllFulfilled (v :: vs)
      | s => s
      end
  | _ :: cs' =>
      match resolve cs' with
      | AllRejected e => AllRejected e
      | _ => AllPending
      end
  end.

(** The script between two completions.  After a [Promise.all] has
    rejected, nothing in this script catches the rejection: the function
    that awaited it is over ([SLost]), while the other members go on. *)
Inductive state : Type :=
| SRet (v : value)
| SThrow (e : error)
| SExit (code : Z)
| SWait (op : io) (k : settle -> prog)
| SAll (cs : list tstate) (k : list value -> prog)
| SLost (e : error) (cs : list tstate)
| SFuel.

Fixpoint pstart (p : prog) : list event * state :=
  match p with
  | PRet v => ([], SRet v)
  | PThrow e => ([], SThrow e)
  | PLog st msg k => let (ev, s) := pstart k in (EvLog st msg :: ev, s)
  | PExit code => ([EvExit code], SExit code)
  | PAwait op k => ([EvCall op], SWait op k)
  | PAll ps k =>
      let (ev, cs) := pool_start ps in
      match resolve cs with
      | AllPending => (ev, SAll cs k)
      | AllRejected e => (ev ++ [EvAllRejected e], SLost e cs)
      | AllFulfilled vs =>
          let (ev', s) := pstart (k vs) in (ev ++ EvAll vs :: ev', s)
      end
  | PFuel => ([], SFuel)
  end.

(** One completion: the operation of member [j] of the pending
    [Promise.all], or the one operation awaited ([j = 0]). *)
Definition deliver (s : state) (j : nat) (r : settle) : option (list event * state) :=
  match s with
  | SWait op k =>
      match j with
      | O => let (ev, s') := pstart (k r) in Some (EvSettle op r :: ev, s')
      | S _ => None
      end
  | SAll cs k =>
      match pool_deliver cs j r with
      | None => None
      | Some (ev, cs') =>
          match resolve cs' with
          | AllPending => Some (ev, SAll cs' k)
          | AllRejected e => Some (ev ++ [EvAllRejected e], SLost e cs')
          | AllFulfilled vs =>
              let (ev', s') := pstart (k vs) in Some (ev ++ EvAll vs :: ev', s')
          end
      end
  | SLost e cs =>
      match pool_deliver cs j r with
      | None => None
      | Some (ev, cs') => Some (ev, SLost e cs')
      end
  | _ => None
  end.

(** A schedule: which pending operation completes next, and how.  An entry
    that names no pending operation is skipped. *)
Definition schedule : Type := list (nat * settle).

Fixpoint run_from (s : state) (sched : schedule) : list event * state :=
  match sched with
  | [] => ([], s)
  | (j, r) :: sched' =>
      match deliver s j r with
      | None => run_from s sched'
      | Some (ev, s') =>
          let (tr, s'') := run_from s' sched' in (ev ++ tr, s'')
      end
  end.

Definition run (p : prog) (sched : schedule) : list event * state :=
  let (ev, s) := pstart p in
  let (tr, s') := run_from s sched in
  (ev ++ tr, s').

(** A task on its own: its operations complete in the order it starts
    them. *)
Fixpoint trun_from (c : tstate) (script : list settle) : list event * tstate :=
  match script with
  | [] => ([], c)
  | r :: script' =>
      match c with
      | TWait op k =>
          let (ev, c') := tstart (k r) in
          let (tr, c'') := trun_from c' script' in
          (EvSettle op r :: ev ++ tr, c'')
      | _ => ([], c)
      end
  end.

Definition trun (t : task) (script : list settle) : list event * tstate :=
  let (ev, c) := tstart t in
  let (tr, c') := trun_from c script in
  (ev ++ tr, c').

(** The operations a trace starts, in order. *)
Fixpoint calls (tr : list event) : list io :=
  match tr with
  | [] => []
  | EvCall op :: tr' => op :: calls tr'
  | _ :: tr' => calls tr'
  end.

Definition is_delay (op : io) : bool :=
  match op with Delay _ => true | _ => false end.

(** The requests a trace sends, in order. *)
Fixpoint requests (tr : list event) : list request :=
  match tr with
  | [] => []
  | EvCall (Rp q) :: tr' => q :: requests tr'
  | _ :: tr' => requests tr'
  end.

Definition is_all (e : event) : bool :=
  match e with EvAll _ => true | _ => false end.

(** ** Predicates on tasks, programs and traces *)

(** What a task has seen: its operations and how each ended, latest
    first. *)
Definition history : Type := list (io * settle).

(** Every operation [t] starts satisfies [C], and when [t] returns [v]
    after the completions [h], [Q h v]. *)
Fixpoint twp (C : io -> Prop) (Q : history -> value -> Prop) (h : history)
    (t : task) : Prop :=
  match t with
  | Ret v => Q h v
  | Log _ _ k => twp C Q h k
  | Await op k => C op /\ forall r, twp C Q ((op, r) :: h) (k r)
  | Throw _ | OutOfFuel => True
  end.

Definition swp (C : io -> Prop) (Q : history -> value -> Prop) (h : history)
    (c : tstate) : Prop :=
  match c with
  | TRet v => Q h v
  | TWait op k => forall r, twp C Q ((op, r) :: h) (k r)
  | TThrow _ | TFuel => True
  end.

Fixpoint tsafe (C : io -> Prop) (t : task) : Prop :=
  match t with
  | Log _ _ k => tsafe C k
  | Await op k => C op /\ forall r, tsafe C (k r)
  | Ret _ | Throw _ | OutOfFuel => True
  end.

Definition any_result : history -> value -> Prop := fun _ _ => True.

(** The events of the members of a [Promise.all] that has not been
    fulfilled. *)
Definition pool_event (C : io -> Prop) (e : event) : Prop :=
  match e with
  | EvCall op => C op
  | EvAll _ | EvExit _ => False
  | EvLog _ _ | EvSettle _ _ | EvAllRejected _ => True
  end.

(** The completions of [h] are in the trace [tr]. *)
Definition sourced (tr : list event) (h : history) : Prop :=
  forall op r, In (op, r) h -> In (EvSettle op r) tr.

Definition member_ok (C : io -> Prop) (H : list event)
    (Q : history -> value -> Prop) (c : tstate) : Prop :=
  exists h, sourced H h /\ swp C Q h c.

Definition pool_inv (C : io -> Prop) (H : list event)
    (Qs : list (history -> value -> Prop)) (cs : list tstate) : Prop :=
  Forall2 (member_ok C H) Qs cs.

Definition result_ok (H : list event) (Q : history -> value -> Prop) (v : value)
  : Prop :=
  exists h, sourced H h /\ Q h v.

Fixpoint psafe (C : io -> Prop) (p : prog) : Prop :=
  match p with
  | PLog _ _ k => psafe C k
  | PAwait op k => C op /\ forall r, psafe C (k r)
  | PAll ps k => Forall (tsafe C) ps /\ forall vs, psafe C (k vs)
  | PRet _ | PThrow _ | PExit _ | PFuel => True
  end.

Definition ssafe (C : io -> Prop) (s : state) : Prop :=
  match s with
  | SWait op k => forall r, psafe C (k r)
  | SAll cs k => Forall (swp C any_result []) cs /\ forall vs, psafe C (k vs)
  | SLost _ cs => Forall (swp C any_result []) cs
  | SRet _ | SThrow _ | SExit _ | SFuel => True
  end.

Definition calls_ok (C : io -> Prop) (tr : list event) : Prop :=
  forall op, In (EvCall op) tr -> C op.

(** The function awaiting the [Promise.all] has not gone past it. *)
Definition in_all (s : state) (k : list value -> prog) : Prop :=
  (exists cs, s = SAll cs k) \/ (exists e cs, s = SLost e cs).

(** No [Promise.all] has been fulfilled in [tr]. *)
Definition no_all (tr : list event) : Prop :=
  existsb is_all tr = false.

(** ** Test doubles and notions of the specification *)

Definition rate_limited (e : error) : Prop := statusCode e = Some 429%Z.

(** What the run time answers to a wrapper whose request fails with each
    of [errs] in turn and then ends as [last]: each failure is followed by
    the timer of [delay] firing. *)
Definition retry_script (errs : list error) (last : settle) : list settle :=
  flat_map (fun e => [Rejected e; Resolved VUndef]) errs ++ [last].

(** The waits of a trace: the timers it starts. *)
Definition waits (tr : list event) : list io := filter is_delay (calls tr).

Definition is_grant (config : Config) (q : request) : Prop :=
  uri q = entity_url config "client-grants".

(** [v.name] where the read cannot throw. *)
Definition field (name : string) (v : value) : value :=
  match get v name with
  | Ok x => x
  | Err _ => VUndef
  end.

Definition nullish (v : value) : bool :=
  match v with
  | VUndef | VNull => true
  | _ => false
  end.

(** The element [findConnections] builds for a connection. *)
Definition choice (c : value) : value :=
  VObj [("name", field "name" c); ("value", field "id" c)].

(** The [ConnectionChoice] of the specification, [{label, id}]. *)
Definition spec_choice (c : value) : value :=
  VObj [("label", field "name" c); ("id", field "id" c)].

(** The lines of a text, each ended by a line feed. *)
Fixpoint lines_from (cur : string) (s : string) : list string :=
  match s with
  | EmptyString => match cur with EmptyString => [] | _ => [cur] end
  | String c s' =>
      if Ascii.eqb c (ascii_of_nat 10) then cur :: lines_from "" s'
      else lines_from (cur +++ String c "") s'
  end.

Definition lines (s : string) : list string := lines_from "" s.

(** Doubles for what the script takes from Node, for the closed examples. *)
Definition demo_join (a b : string) : string := a +++ "/" +++ b.

Definition demo_connection : value :=
  VObj [("id", VStr "con_1"); ("name", VStr "corp-ad");
        ("strategy", VStr "ad"); ("enabled_clients", VArr [VStr "x"])].

Definition quoted (s : string) : string :=
  String (ascii_of_nat 34) s +++ String (ascii_of_nat 34) "".

(** The text [[{"id":"con_1","name":"corp-ad"}]]. *)
Definition demo_list_text : string :=
  "[{" +++ quoted "id" +++ ":" +++ quoted "con_1" +++ ","
  +++ quoted "name" +++ ":" +++ quoted "corp-ad" +++ "}]".

(** The text
    [{"id":"con_1","name":"corp-ad","strategy":"ad","enabled_clients":["x"]}]. *)
Definition demo_connection_text : string :=
  "{" +++ quoted "id" +++ ":" +++ quoted "con_1" +++ ","
  +++ quoted "name" +++ ":" +++ quoted "corp-ad" +++ ","
  +++ quoted "strategy" +++ ":" +++ quoted "ad" +++ ","
  +++ quoted "enabled_clients" +++ ":[" +++ quoted "x" +++ "]}".

(** [JSON.parse] on the three texts the examples use. *)
Definition demo_parse (v : value) : result value :=
  match v with
  | VStr s =>
      if String.eqb s "[]" then Ok (VArr [])
      else if String.eqb s demo_list_text then
        Ok (VArr [VObj [("id", VStr "con_1"); ("name", VStr "corp-ad")]])
      else if String.eqb s demo_connection_text then Ok demo_connection
      else Err (mkError None "SyntaxError" "Unexpected token")
  | _ => Err (mkError None "SyntaxError" "Unexpected token")
  end.

Definition demo_config : Config :=
  {| domain := "t.example.com"; token := "tok"; portal_url := "https://portal.example.com" |}.

Definition demo_429 : error :=
  mkError (Some 429%Z) "StatusCodeError" "429 - Too Many Requests".

Definition demo_500 : error :=
  mkError (Some 500%Z) "StatusCodeError" "500 - Internal Server Error".

(** ** Notions used in the proofs *)

(** What one rate-limited attempt at [q] leaves in the trace, after the
    lines [before] that the wrapper prints first. *)
Definition attempt (q : request) (before : list event) (err : error) : list event :=
  before ++
  [EvCall (Rp q); EvSettle (Rp q) (Rejected err);
   EvLog yellow_bold "rate limited, waiting for 5s before retyring..";
   EvCall (Delay 5000); EvSettle (Delay 5000) (Resolved VUndef)].

(** The run of a wrapper that got through after [n] rate-limited attempts:
    it returned [v], waited [n] times five seconds and sent [q] [n + 1]
    times, and nothing else. *)
Definition retried (r : list event * tstate) (q : request) (n : nat) (v : value)
  : Prop :=
  snd r = TRet v /\
  waits (fst r) = repeat (Delay (DELAY_SECONDS * 1000)) n /\
  requests (fst r) = repeat q (S n).

(** The operations of a wrapper around the request [q]. *)
Definition wrapper_op (q : request) (op : io) : Prop :=
  op = Rp q \/ op = Delay (DELAY_SECONDS * 1000).

(** What a wrapper around [q] returns: [undefined], or a response to [q]. *)
Definition from_request (q : request) : history -> value -> Prop :=
  fun h v => v = VUndef \/ In (Rp q, Resolved v) h.

Definition not_grant (config : Config) (op : io) : Prop :=
  forall q, op = Rp q -> ~ is_grant config q.

(** The operations of the grant creation for the backend client
    [backend]. *)
Definition grant_op (config : Config) (backend : value) (op : io) : Prop :=
  exists client_id,
    get backend "client_id" = Ok client_id /\
    wrapper_op (create_request config "client-grants"
                  (grant_payload config client_id)) op.

Definition no_method (m : http_method) (op : io) : Prop :=
  forall q, op = Rp q -> method q <> m.

Definition backend_request (config : Config) : request :=
  create_request config "clients" backend_payload.

(** ** The runs of the examples *)

Definition demo_backend : value :=
  VObj [("client_id", VStr "B1"); ("client_secret", VStr "S1")].

Definition demo_portal : value := VObj [("client_id", VStr "P1")].

Definition demo_artefacts : value :=
  VObj [("portal", demo_portal); ("backend", demo_backend)].

(** The backend client is created first, then the two files are read, the
    API is created, and last the portal client and the rule. *)
Definition demo_provision_schedule : schedule :=
  [(1, Resolved demo_backend);
   (0, Resolved (VStr "<html></html>"));
   (3, Resolved (VStr "function (user, context, callback) {}"));
   (2, Resolved (VObj [("id", VStr "api_1")]));
   (0, Resolved demo_portal);
   (3, Resolved (VObj [("id", VStr "rul_1")]))].

Definition demo_provision_run : list event * state :=
  run (createArtefacts demo_join "." demo_config 2) demo_provision_schedule.

(** Two selected connections; the fetch of the second fails with status
    500, then the first one arrives. *)
Definition demo_enable_run : list event * state :=
  run (enableConnections demo_parse demo_config 2 demo_artefacts
         [("selected_ad_connection", VStr "con_1");
          ("selected_sms_connection", VStr "con_2")])
      [(1, Rejected demo_500); (0, Resolved (VStr demo_connection_text))].

Definition demo_answers : value :=
  VObj [("domain", VStr "t.example.com"); ("token", VStr "tok");
        ("portal_url", VStr "https://portal.example.com")].

(** The tenant has an AD and an e-mail connection and no SMS connection. *)
Definition demo_setup_run : list event * state :=
  run (runSetup demo_parse demo_join (fun u => u) "." 2)
      [(0, Resolved demo_answers);
       (0, Resolved (VStr demo_list_text));
       (2, Resolved (VStr demo_list_text));
       (1, Resolved (VStr "[]"))].

(** ** Further notions *)

Definition no_newline (s : string) : bool :=
  negb (existsb (fun c => Ascii.eqb c (ascii_of_nat 10)) (list_ascii_of_string s)).

(** The only errors [t] throws are rejections of operations in [P], thrown
    as they were received. *)
Fixpoint rethrows (P : io -> Prop) (t : task) : Prop :=
  match t with
  | Throw _ => False
  | Ret _ | OutOfFuel => True
  | Log _ _ k => rethrows P k
  | Await op k =>
      forall r, rethrows P (k r) \/
                (exists e, r = Rejected e /\ P op /\ k r = Throw e)
  end.

Definition srethrows (P : io -> Prop) (H : list event) (c : tstate) : Prop :=
  match c with
  | TThrow e => exists op, P op /\ In (EvSettle op (Rejected e)) H
  | TWait op k =>
      forall r, rethrows P (k r) \/
                (exists e, r = Rejected e /\ P op /\ k r = Throw e)
  | TRet _ | TFuel => True
  end.

(** The events of a started task: lines, calls and completions. *)
Definition member_event (e : event) : Prop :=
  match e with
  | EvLog _ _ | EvCall _ | EvSettle _ _ => True
  | EvAll _ | EvAllRejected _ | EvExit _ => False
  end.

(** In the run, no timer fails: the promise of [delay] is only ever
    resolved. *)
Definition timers_fire (tr : list event) : Prop :=
  forall ms e, ~ In (EvSettle (Delay ms) (Rejected e)) tr.

Definition is_timer (op : io) : Prop := exists ms, op = Delay ms.

Definition is_read (op : io) : Prop := exists file, op = ReadFile file.

(** A program without [Promise.all]. *)
Fixpoint pseq (p : prog) : Prop :=
  match p with
  | PLog _ _ k => pseq k
  | PAwait _ k => forall r, pseq (k r)
  | PAll _ _ => False
  | PRet _ | PThrow _ | PExit _ | PFuel => True
  end.

Definition sseq (s : state) : Prop :=
  match s with
  | SWait _ k => forall r, pseq (k r)
  | SAll _ _ | SLost _ _ => False
  | SRet _ | SThrow _ | SExit _ | SFuel => True
  end.

Definition seq_event (e : event) : Prop :=
  match e with
  | EvAll _ | EvAllRejected _ => False
  | _ => True
  end.

(** What a program returns satisfies [R]. *)
Fixpoint pret (R : value -> Prop) (p : prog) : Prop :=
  match p with
  | PRet v => R v
  | PLog _ _ k => pret R k
  | PAwait _ k => forall r, pret R (k r)
  | PAll _ k => forall vs, pret R (k vs)
  | PThrow _ | PExit _ | PFuel => True
  end.

Definition sret (R : value -> Prop) (s : state) : Prop :=
  match s with
  | SRet v => R v
  | SWait _ k => forall r, pret R (k r)
  | SAll _ k => forall vs, pret R (k vs)
  | SThrow _ | SExit _ | SLost _ _ | SFuel => True
  end.

(** The three ways a run that starts at a [Promise.all] can stand: still
    waiting for members; rejected, with the rejection of an operation in
    [P] that a member threw, the function that awaited it being over; or
    fulfilled, and going on with the continuation. *)
Definition all_pending (k : list value -> prog) (tr : list event) (s : state)
  : Prop :=
  Forall member_event tr /\ exists cs, s = SAll cs k.

Definition all_rejected (P : io -> Prop) (H tr : list event) (s : state) : Prop :=
  exists tr1 e tr2 cs,
    tr = tr1 ++ EvAllRejected e :: tr2 /\
    Forall member_event tr1 /\ Forall member_event tr2 /\
    s = SLost e cs /\
    exists op, P op /\ In (EvSettle op (Rejected e)) (H ++ tr1).

Definition all_fulfilled (k : list value -> prog) (tr : list event) (s : state)
  : Prop :=
  exists tr1 vs sched2 tr2,
    tr = tr1 ++ EvAll vs :: tr2 /\
    Forall member_event tr1 /\
    run (k vs) sched2 = (tr2, s).

(** The two files the script reads. *)
Definition is_template (path_join : string -> string -> string) (dirname : string)
    (op : io) : Prop :=
  op = ReadFile (path_join dirname "portal_login.html") \/
  op = ReadFile (path_join dirname "issue_scopes_rule.js").

(** What [findConnections] returns is an array. *)
Definition is_array : history -> value -> Prop :=
  fun _ v => exists l, v = VArr l.

(** The operations of [runSetup] once the operator has given [token]. *)
Definition authorized (token : string) (op : io) : Prop :=
  forall q, op = Rp q -> authorization q = "Bearer " +++ token.

Definition fixed_wait (op : io) : Prop :=
  forall ms, op = Delay ms -> ms = (DELAY_SECONDS * 1000)%Z.

Definition own_files (path_join : string -> string -> string) (dirname : string)
    (op : io) : Prop :=
  (forall file, op = ReadFile file -> is_template path_join dirname op) /\
  (forall file content, op = WriteFile file content ->
     file = path_join dirname "client.env" \/ file = path_join dirname "server.env").

Definition setup_op (path_join : string -> string -> string) (dirname : string)
    (token : string) (op : io) : Prop :=
  authorized token op /\ fixed_wait op /\ own_files path_join dirname op.

(** What [runSetup] does once the operator has selected the connections. *)
Definition after_selection (JSON_parse : value -> result value)
    (path_join : string -> string -> string) (dirname : string)
    (config : Config) (fuel : nat) (selectedConnections : value) : prog :=
  bind (createArtefacts path_join dirname config fuel) (fun artefacts =>
    bind (enableConnections JSON_parse config fuel artefacts
            (properties selectedConnections)) (fun _ =>
      bind (generateEnv path_join dirname config artefacts) (fun _ =>
        PLog bgGreen_bold
          "Done. Copy the generated .env files in respective folders."
          (PRet VUndef)))).

(** ** The validation of the token *)

(** [if (v)] *)
Definition truthy (v : value) : bool :=
  match v with
  | VUndef | VNull => false
  | VBool b => b
  | VNum n => negb (Z.eqb n 0)
  | VStr s => negb (String.eqb s "")
  | VArr _ | VObj _ => true
  end.

(** [a === b]; an array or an object is equal to itself only, and no two
    values compared here are the same array or object. *)
Definition strict_eq (a b : value) : bool :=
  match a, b with
  | VUndef, VUndef | VNull, VNull => true
  | VBool x, VBool y => Bool.eqb x y
  | VNum x, VNum y => Z.eqb x y
  | VStr x, VStr y => String.eqb x y
  | _, _ => false
  end.

(** [s.split(" ")] *)
Fixpoint split_from (cur : string) (s : string) : list string :=
  match s with
  | EmptyString => [cur]
  | String c s' =>
      if Ascii.eqb c " " then cur :: split_from "" s'
      else split_from (cur +++ String c "") s'
  end.

Definition split_space (s : string) : list string := split_from "" s.

(** lodash's [_.difference(array, values)] on strings: the elements of
    [array] that are not in [values], in the order of [array]. *)
Definition difference (array values : list string) : list string :=
  filter (fun x => negb (existsb (String.eqb x) values)) array.

Definition requiredScopes : list string :=
  ["create:clients"; "create:rules"; "create:resource_servers";
   "create:client_grants"; "update:connections"; "read:connections"].

Section TokenValidation.

(** [jwt_decode] of the package [jwt-decode] and [url.parse] of Node. *)
Variable jwt_decode : value -> result value.
Variable url_parse : value -> result value.

Definition check_scopes (claims : value) : task :=
  match get claims "scope" with
  | Err e => Throw e
  | Ok scope =>
      if truthy scope then
        match scope with
        | VStr s =>
            let missingScopes := difference requiredScopes (split_space s) in
            if Nat.ltb 0 (List.length missingScopes) then
              Log plain s
                (Ret (VStr ("Required scopes missing " +++ join "," missingScopes)))
            else Ret (VBool true)
        | _ =>
            Throw (mkError None "TypeError" "claims.scope.split is not a function")
        end
      else Ret (VBool true)
  end.

(** The [validate] of the question [token] in [getAndValidateConfig]: it
    returns [true], or the message that the prompt shows. *)
Definition validate_token (token answers : value) : task :=
  match jwt_decode token with
  | Err e => Throw e
  | Ok claims =>
      if truthy claims then
        match get claims "iss" with
        | Err e => Throw e
        | Ok iss =>
            if truthy iss then
              match url_parse iss with
              | Err e => Throw e
              | Ok parts =>
                  match get parts "host" with
                  | Err e => Throw e
                  | Ok host =>
                      match get answers "domain" with
                      | Err e => Throw e
                      | Ok domain =>
                          if negb (strict_eq host domain) then
                            Ret (VStr ("Issuer (" +++ toString host
                                       +++ ") of the token does not match the domain ("
                                       +++ toString domain +++ ")"))
                          else check_scopes claims
                      end
                  end
              end
            else check_scopes claims
        end
      else check_scopes claims
  end.

End TokenValidation.

(** The issuer check lets [claims] through: there is no issuer, or its
    host is the domain that was entered. *)
Definition issuer_accepted (url_parse : value -> result value)
    (claims answers : value) : Prop :=
  truthy claims = true /\
  (truthy (field "iss" claims) = false \/
   exists parts host domain,
     url_parse (field "iss" claims) = Ok parts /\
     get parts "host" = Ok host /\
     get answers "domain" = Ok domain /\
     strict_eq host domain = true).

(** Doubles for the examples: a token is its claims, and the host of a
    URL is what follows [https://]. *)
Definition demo_decode (token : value) : result value :=
  match token with
  | VObj _ => Ok token
  | _ => Err (mkError None "InvalidTokenError" "Invalid token specified")
  end.

Definition demo_url_parse (u : value) : result value :=
  match u with
  | VStr (String "h" (String "t" (String "t" (String "p" (String "s"
      (String ":" (String "/" (String "/" host)))))))) =>
      Ok (VObj [("host", VStr host)])
  | VStr _ => Ok (VObj [("host", VNull)])
  | _ => Err (mkError None "TypeError" "The url argument must be of type string")
  end.

(** ** Further runs of the examples *)

Definition demo_grant : value := VObj [("id", VStr "cgr_1")].

(** The provisioning of [demo_provision_run], and the answer to the grant
    request. *)
Definition demo_bundle_run : list event * state :=
  run (createArtefacts demo_join "." demo_config 2)
      (demo_provision_schedule ++ [(0, Resolved demo_grant)]).

(** The creation of the backend client fails with status 500. *)
Definition demo_no_backend_run : list event * state :=
  run (createArtefacts demo_join "." demo_config 2)
      [(1, Rejected demo_500);
       (0, Resolved (VStr "<html></html>"));
       (3, Resolved (VStr "function (user, context, callback) {}"));
       (2, Resolved (VObj [("id", VStr "api_1")]));
       (0, Resolved demo_portal);
       (3, Resolved (VObj [("id", VStr "rul_1")]))].

Definition demo_enoent : error :=
  mkError None "Error" "ENOENT: no such file or directory".

(** The login page cannot be read; the backend client is created
    afterwards all the same. *)
Definition demo_unreadable_run : list event * state :=
  run (createArtefacts demo_join "." demo_config 2)
      [(0, Rejected demo_enoent); (1, Resolved demo_backend)].

(** One selected connection, fetched and patched. *)
Definition demo_patch_run : list event * state :=
  run (enableConnections demo_parse demo_config 2 demo_artefacts
         [("selected_ad_connection", VStr "con_1")])
      [(0, Resolved (VStr demo_connection_text)); (0, Resolved demo_connection)].

Definition demo_selection : value :=
  VObj [("selected_ad_connection", VStr "con_1")].

(** A whole run: configuration, discovery, selection, the five
    creations, one connection enabled, the two files written. *)
Definition demo_whole_schedule : schedule :=
  [(0, Resolved demo_answers);
   (0, Resolved (VStr demo_list_text));
   (1, Resolved (VStr demo_list_text));
   (2, Resolved (VStr demo_list_text));
   (0, Resolved demo_selection)]
  ++ demo_provision_schedule
  ++ [(0, Resolved demo_grant);
      (0, Resolved (VStr demo_connection_text));
      (0, Resolved demo_connection);
      (0, Resolved VUndef);
      (0, Resolved VUndef)].

Definition demo_whole_run : list event * state :=
  run (runSetup demo_parse demo_join (fun u => u) "." 2) demo_whole_schedule.


(** The text of [client.env] in the whole run. *)
Definition demo_front : string :=
  "REACT_APP_domain=t.example.com" +++ newline
  +++ "REACT_APP_clientID=P1" +++ newline
  +++ "REACT_APP_audience=urn:self-service-portal-api" +++ newline.

(** ** Sequencing *)

(** The state of [bind p f] while [p] has not returned: the state of [p],
    going on with [f] afterwards. *)
Definition sbind (s : state) (f : value -> prog) : state :=
  match s with
  | SWait op k => SWait op (fun r => bind (k r) f)
  | SAll cs k => SAll cs (fun vs => bind (k vs) f)
  | _ => s
  end.

Definition returned (s : state) : bool :=
  match s with SRet _ => true | _ => false end.

Definition is_write (op : io) : Prop := exists file content, op = WriteFile file content.

Definition no_write (op : io) : Prop := forall file content, op <> WriteFile file content.

Definition done_message : string :=
  "Done. Copy the generated .env files in respective folders.".

(** The end of [runSetup]: the files, then the last line. *)
Definition conclusion (path_join : string -> string -> string) (dirname : string)
    (config : Config) (artefacts : value) : prog :=
  bind (generateEnv path_join dirname config artefacts) (fun _ =>
    PLog bgGreen_bold done_message (PRet VUndef)).

(** The events of a run of [runSetup] that has returned, from the first
    write on. *)
Definition files_then_done (path_join : string -> string -> string)
    (dirname : string) (front back : string) (r1 r2 : value) : list event :=
  [EvCall (WriteFile (path_join dirname "client.env") front);
   EvSettle (WriteFile (path_join dirname "client.env") front) (Resolved r1);
   EvCall (WriteFile (path_join dirname "server.env") back);
   EvSettle (WriteFile (path_join dirname "server.env") back) (Resolved r2);
   EvLog bgGreen_bold done_message].
(** ** Discovery, strategy by strategy *)

(** What [findConnections] returns when it has sent [q]: the choices built
    from the connections of a response to [q]. *)
Definition found_by (JSON_parse : value -> result value) (q : request)
  : history -> value -> Prop :=
  fun h v =>
    exists resp conns,
      In (Rp q, Resolved resp) h /\
      JSON_parse resp = Ok (VArr conns) /\
      v = VArr (map choice conns).

(** [found] are the choices built from a response, in [tr], to the
    request for the connections of [strategy] of the tenant [domain]. *)
Definition discovered (JSON_parse : value -> result value)
    (path_join : string -> string -> string) (domain : string)
    (tr : list event) (strategy : string) (found : list value) : Prop :=
  exists q resp conns,
    In (EvSettle (Rp q) (Resolved resp)) tr /\
    uri q = ("https://" +++ path_join domain "api/v2")
            +++ "/connections?strategy=" +++ strategy +++ "&fields=name" /\
    method q = GET /\
    JSON_parse resp = Ok (VArr conns) /\
    found = map choice conns.

(** * Proofs *)

(** ** Tasks and pools *)

Lemma twp_weaken (C C' : io -> Prop) (Q Q' : history -> value -> Prop) :
  (forall op, C op -> C' op) ->
  (forall h v, Q h v -> Q' h v) ->
  forall t h, twp C Q h t -> twp C' Q' h t.
Proof.
  intros HC HQ t.
  induction t as [v | e | st msg k IH | op k IH | ]; simpl; intros h Hwp; auto.
  destruct Hwp as [Hop Hk]. split; auto.
Qed.

Lemma twp_tsafe (C : io -> Prop) (Q : history -> value -> Prop) :
  forall t h, twp C Q h t -> tsafe C t.
Proof.
  induction t as [v | e | st msg k IH | op k IH | ]; simpl; intros h Hwp; auto.
  - eauto.
  - destruct Hwp as [Hop Hk]. split; eauto.
Qed.

Lemma tsafe_twp (C : io -> Prop) :
  forall t h, tsafe C t -> twp C any_result h t.
Proof.
  induction t as [v | e | st msg k IH | op k IH | ]; simpl; intros h Hs;
    try exact I; auto.
  destruct Hs as [Hop Hk]. split; auto.
Qed.

Lemma swp_any_history (C : io -> Prop) (c : tstate) (h h' : history) :
  swp C any_result h c -> swp C any_result h' c.
Proof.
  destruct c; simpl; auto.
  intros Hk r. eapply tsafe_twp, twp_tsafe, Hk.
Qed.

Lemma tstart_wp (C : io -> Prop) (Q : history -> value -> Prop) :
  forall t h, twp C Q h t ->
    swp C Q h (snd (tstart t)) /\ Forall (pool_event C) (fst (tstart t)).
Proof.
  induction t as [v | e | st msg k IH | op k IH | ]; simpl; intros h Hwp.
  - split; [assumption | constructor].
  - split; [exact I | constructor].
  - destruct (IH h Hwp) as [Hs Hev].
    destruct (tstart k) as [ev c]; simpl in *.
    split; [assumption | constructor; [exact I | assumption]].
  - destruct Hwp as [Hop Hk].
    split; [assumption | constructor; [assumption | constructor]].
  - split; [exact I | constructor].
Qed.

Lemma sourced_app (H ev : list event) (h : history) :
  sourced H h -> sourced (H ++ ev) h.
Proof.
  intros Hs op r Hin. apply in_or_app. left. apply Hs, Hin.
Qed.

Lemma member_ok_app (C : io -> Prop) (H ev : list event) Q c :
  member_ok C H Q c -> member_ok C (H ++ ev) Q c.
Proof.
  intros [h [Hs Hc]]. exists h. split; [apply sourced_app, Hs | exact Hc].
Qed.

Lemma pool_inv_app (C : io -> Prop) (H ev : list event) Qs cs :
  pool_inv C H Qs cs -> pool_inv C (H ++ ev) Qs cs.
Proof.
  unfold pool_inv. induction 1; constructor; auto using member_ok_app.
Qed.

Lemma pool_start_inv (C : io -> Prop) (H : list event) :
  forall Qs ps,
    Forall2 (fun Q t => twp C Q [] t) Qs ps ->
    pool_inv C H Qs (snd (pool_start ps)) /\
    Forall (pool_event C) (fst (pool_start ps)).
Proof.
  induction 1 as [| Q t Qs ps Ht _ IH]; simpl.
  - split; constructor.
  - destruct (tstart_wp C Q t [] Ht) as [Hs Hev].
    destruct (tstart t) as [ev c]. destruct IH as [Hinv Hevs].
    destruct (pool_start ps) as [evs cs]. simpl in *.
    split.
    + constructor; [| assumption].
      exists []. split; [intros op r [] | assumption].
    + apply Forall_app. split; assumption.
Qed.

Lemma pool_deliver_inv (C : io -> Prop) (H : list event) :
  forall Qs cs, pool_inv C H Qs cs ->
  forall j r ev cs', pool_deliver cs j r = Some (ev, cs') ->
    pool_inv C (H ++ ev) Qs cs' /\ Forall (pool_event C) ev.
Proof.
  unfold pool_inv, pool_deliver.
  induction 1 as [| Q c Qs cs Hc Hcs IH]; intros j r ev cs' Hd.
  - destruct j; discriminate.
  - destruct j as [| j]; simpl in Hd.
    + destruct c as [v | e | op k |]; try discriminate.
      destruct Hc as [h [Hsrc Hk]]. simpl in Hk.
      destruct (tstart_wp C Q (k r) _ (Hk r)) as [Hs Hev].
      destruct (tstart (k r)) as [ev0 c0]. simpl in *.
      injection Hd as <- <-.
      split.
      * constructor.
        -- exists ((op, r) :: h). split; [| assumption].
           intros op' r' [Heq | Hin].
           ++ injection Heq as <- <-. apply in_or_app. right. left. reflexivity.
           ++ apply in_or_app. left. apply Hsrc, Hin.
        -- apply (pool_inv_app C H _ Qs cs Hcs).
      * constructor; [exact I | assumption].
    + destruct (nth_error cs j) as [[v | e | op k |] |] eqn:En; try discriminate.
      specialize (IH j r). rewrite En in IH.
      destruct (tstart (k r)) as [ev0 c0].
      injection Hd as <- <-.
      destruct (IH _ _ eq_refl) as [Hinv Hev].
      split; [| assumption].
      constructor; [apply member_ok_app, Hc | assumption].
Qed.

Lemma resolve_fulfilled (C : io -> Prop) (H : list event) :
  forall Qs cs, pool_inv C H Qs cs ->
  forall vs, resolve cs = AllFulfilled vs -> Forall2 (result_ok H) Qs vs.
Proof.
  unfold pool_inv.
  induction 1 as [| Q c Qs cs Hc Hcs IH]; simpl; intros vs Hr.
  - injection Hr as <-. constructor.
  - destruct c as [v | e | op k |]; try discriminate;
      destruct (resolve cs) as [| vs' | e']; try discriminate.
    injection Hr as <-.
    constructor; [| apply IH; reflexivity].
    destruct Hc as [h [Hsrc Hq]]. exists h. split; assumption.
Qed.

Lemma pool_events_calls_ok (C : io -> Prop) (tr : list event) :
  Forall (pool_event C) tr -> calls_ok C tr.
Proof.
  intros Hf op Hin. rewrite Forall_forall in Hf. exact (Hf _ Hin).
Qed.

Lemma pool_events_no_all (C : io -> Prop) (tr : list event) :
  Forall (pool_event C) tr -> no_all tr.
Proof.
  unfold no_all. induction 1 as [| e tr He _ IH]; simpl; [reflexivity |].
  destruct e; simpl in *; auto; contradiction.
Qed.

(** ** Runs of a [Promise.all] *)

Lemma run_from_SLost (C : io -> Prop) Qs e :
  forall sched H cs tr s,
    pool_inv C H Qs cs ->
    run_from (SLost e cs) sched = (tr, s) ->
    Forall (pool_event C) tr /\ exists cs', s = SLost e cs'.
Proof.
  induction sched as [| [j r] sched IH]; simpl; intros H cs tr s Hinv Hrun.
  - injection Hrun as <- <-. split; [constructor | eauto].
  - destruct (pool_deliver cs j r) as [[ev cs'] |] eqn:Hd.
    + destruct (pool_deliver_inv C H Qs cs Hinv _ _ _ _ Hd) as [Hinv' Hev].
      destruct (run_from (SLost e cs') sched) as [tr' s'] eqn:Hr.
      injection Hrun as <- <-.
      destruct (IH _ _ _ _ Hinv' Hr) as [Htr Hs].
      split; [apply Forall_app; split; assumption | assumption].
    + eapply IH; eassumption.
Qed.

(** A run that starts inside a [Promise.all] either stays there, starting
    only what its members start, or passes the point where every member
    has returned and goes on with the continuation. *)
Lemma run_from_SAll (C : io -> Prop) Qs k :
  forall sched H cs tr s,
    pool_inv C H Qs cs ->
    run_from (SAll cs k) sched = (tr, s) ->
    (Forall (pool_event C) tr /\ in_all s k) \/
    (exists tr1 vs sched2 tr2,
        tr = tr1 ++ EvAll vs :: tr2 /\
        Forall (pool_event C) tr1 /\
        Forall2 (result_ok (H ++ tr1)) Qs vs /\
        run (k vs) sched2 = (tr2, s)).
Proof.
  induction sched as [| [j r] sched IH]; simpl; intros H cs tr s Hinv Hrun.
  - injection Hrun as <- <-. left. split; [constructor | left; eauto].
  - destruct (pool_deliver cs j r) as [[ev cs'] |] eqn:Hd; [| eauto].
    destruct (pool_deliver_inv C H Qs cs Hinv _ _ _ _ Hd) as [Hinv' Hev].
    destruct (resolve cs') as [| vs | e] eqn:Hres.
    + destruct (run_from (SAll cs' k) sched) as [tr' s'] eqn:Hr.
      injection Hrun as <- <-.
      destruct (IH _ _ _ _ Hinv' Hr)
        as [[Htr Hs] | (tr1 & vs & sched2 & tr2 & -> & Htr1 & Hvs & Hk)].
      * left. split; [apply Forall_app; split; assumption | assumption].
      * right. exists (ev ++ tr1), vs, sched2, tr2.
        split; [apply app_assoc |].
        split; [apply Forall_app; split; assumption |].
        split; [rewrite app_assoc; assumption | assumption].
    + destruct (pstart (k vs)) as [ev' s'] eqn:Hp.
      destruct (run_from s' sched) as [tr' s''] eqn:Hr.
      injection Hrun as <- <-.
      right. exists ev, vs, sched, (ev' ++ tr').
      split; [rewrite <- app_assoc; reflexivity |].
      split; [assumption |].
      split; [eapply resolve_fulfilled; eassumption |].
      unfold run. rewrite Hp, Hr. reflexivity.
    + destruct (run_from (SLost e cs') sched) as [tr' s'] eqn:Hr.
      injection Hrun as <- <-.
      destruct (run_from_SLost C Qs e _ _ _ _ _ Hinv' Hr) as [Htr [cs'' ->]].
      left. split; [| right; eauto].
      apply Forall_app. split; [| assumption].
      apply Forall_app. split; [assumption | constructor; [exact I | constructor]].
Qed.

Lemma run_PAll_cases (C : io -> Prop) Qs ps k sched tr s :
  Forall2 (fun Q t => twp C Q [] t) Qs ps ->
  run (PAll ps k) sched = (tr, s) ->
  (Forall (pool_event C) tr /\ in_all s k) \/
  (exists tr1 vs sched2 tr2,
      tr = tr1 ++ EvAll vs :: tr2 /\
      Forall (pool_event C) tr1 /\
      Forall2 (result_ok tr1) Qs vs /\
      run (k vs) sched2 = (tr2, s)).
Proof.
  intros Hps Hrun. unfold run in Hrun. simpl in Hrun.
  destruct (pool_start_inv C (fst (pool_start ps)) Qs ps Hps) as [Hinv _].
  destruct (pool_start_inv C [] Qs ps Hps) as [_ Hev].
  destruct (pool_start ps) as [ev cs]. simpl in *.
  assert (Hinv0 : pool_inv C ([] ++ ev) Qs cs) by exact Hinv.
  destruct (resolve cs) as [| vs | e] eqn:Hres.
  - destruct (run_from (SAll cs k) sched) as [tr' s'] eqn:Hr.
    injection Hrun as <- <-.
    destruct (run_from_SAll C Qs k _ _ _ _ _ Hinv Hr)
      as [[Htr Hs] | (tr1 & vs & sched2 & tr2 & -> & Htr1 & Hvs & Hk)].
    + left. split; [apply Forall_app; split; assumption | assumption].
    + right. exists (ev ++ tr1), vs, sched2, tr2.
      split; [apply app_assoc |].
      split; [apply Forall_app; split; assumption |].
      split; assumption.
  - destruct (pstart (k vs)) as [ev' s'] eqn:Hp.
    destruct (run_from s' sched) as [tr' s''] eqn:Hr.
    injection Hrun as <- <-.
    right. exists ev, vs, sched, (ev' ++ tr').
    split; [rewrite <- app_assoc; reflexivity |].
    split; [assumption |].
    split; [eapply resolve_fulfilled; eassumption |].
    unfold run. rewrite Hp, Hr. reflexivity.
  - destruct (run_from (SLost e cs) sched) as [tr' s'] eqn:Hr.
    injection Hrun as <- <-.
    destruct (run_from_SLost C Qs e _ _ _ _ _ Hinv Hr) as [Htr [cs'' ->]].
    left. split; [| right; eauto].
    apply Forall_app. split; [| assumption].
    apply Forall_app. split; [assumption | constructor; [exact I | constructor]].
Qed.

(** ** Runs of sequential code *)

Lemma run_PLog st msg k sched tr s :
  run (PLog st msg k) sched = (tr, s) ->
  exists tr', tr = EvLog st msg :: tr' /\ run k sched = (tr', s).
Proof.
  unfold run. simpl. destruct (pstart k) as [ev s0].
  destruct (run_from s0 sched) as [tr' s'].
  intros H. injection H as <- <-. eexists. split; reflexivity.
Qed.

Lemma run_from_SWait op k :
  forall sched tr s,
    run_from (SWait op k) sched = (tr, s) ->
    (tr = [] /\ s = SWait op k) \/
    (exists r sched2 tr2, tr = EvSettle op r :: tr2 /\ run (k r) sched2 = (tr2, s)).
Proof.
  induction sched as [| [j r] sched IH]; simpl; intros tr s Hrun.
  - injection Hrun as <- <-. left. split; reflexivity.
  - destruct j as [| j]; [| eauto].
    destruct (pstart (k r)) as [ev s0] eqn:Hp.
    destruct (run_from s0 sched) as [tr' s'] eqn:Hr.
    injection Hrun as <- <-.
    right. exists r, sched, (ev ++ tr'). split; [reflexivity |].
    unfold run. rewrite Hp, Hr. reflexivity.
Qed.

Lemma run_PAwait op k sched tr s :
  run (PAwait op k) sched = (tr, s) ->
  (tr = [EvCall op] /\ s = SWait op k) \/
  (exists r sched2 tr2,
      tr = EvCall op :: EvSettle op r :: tr2 /\ run (k r) sched2 = (tr2, s)).
Proof.
  unfold run at 1. simpl.
  destruct (run_from (SWait op k) sched) as [tr' s'] eqn:Hr.
  intros H. injection H as <- <-.
  destruct (run_from_SWait _ _ _ _ _ Hr) as [[-> ->] | (r & sched2 & tr2 & -> & Hk)].
  - left. split; reflexivity.
  - right. eauto.
Qed.

Lemma run_terminal p sched :
  match p with PRet _ | PThrow _ | PExit _ | PFuel => True | _ => False end ->
  run p sched = pstart p.
Proof.
  unfold run. destruct p; simpl; intros []; induction sched as [| [j r] sched IH];
    simpl; auto.
Qed.

(** ** Operations a program can start *)

Lemma calls_ok_app (C : io -> Prop) (a b : list event) :
  calls_ok C a -> calls_ok C b -> calls_ok C (a ++ b).
Proof.
  intros Ha Hb op Hin. apply in_app_or in Hin. destruct Hin; auto.
Qed.

Lemma calls_ok_skip (C : io -> Prop) (e : event) (tr : list event) :
  match e with EvCall _ => False | _ => True end ->
  calls_ok C tr -> calls_ok C (e :: tr).
Proof.
  intros He Htr op [Heq | Hin]; [subst e; destruct He | auto].
Qed.

Lemma calls_ok_call (C : io -> Prop) (op : io) (tr : list event) :
  C op -> calls_ok C tr -> calls_ok C (EvCall op :: tr).
Proof.
  intros Hop Htr op' [Heq | Hin]; [injection Heq as <-; assumption | auto].
Qed.

Lemma calls_ok_nil (C : io -> Prop) : calls_ok C [].
Proof. intros op []. Qed.

Create HintDb trace.
#[local] Hint Resolve calls_ok_nil calls_ok_app calls_ok_call
  pool_events_calls_ok : trace.
#[local] Hint Extern 2 (calls_ok _ (_ :: _)) =>
  apply calls_ok_skip; [exact I |] : trace.

Lemma pool_start_safe (C : io -> Prop) :
  forall ps, Forall (tsafe C) ps ->
    Forall (swp C any_result []) (snd (pool_start ps)) /\
    Forall (pool_event C) (fst (pool_start ps)).
Proof.
  induction 1 as [| t ps Ht _ IH]; simpl.
  - split; constructor.
  - destruct (tstart_wp C any_result t [] (tsafe_twp C t [] Ht)) as [Hs Hev].
    destruct (tstart t) as [ev c]. destruct IH as [Hcs Hevs].
    destruct (pool_start ps) as [evs cs]. simpl in *.
    split; [constructor; assumption | apply Forall_app; split; assumption].
Qed.

Lemma pool_deliver_safe (C : io -> Prop) :
  forall cs, Forall (swp C any_result []) cs ->
  forall j r ev cs', pool_deliver cs j r = Some (ev, cs') ->
    Forall (swp C any_result []) cs' /\ Forall (pool_event C) ev.
Proof.
  unfold pool_deliver.
  induction 1 as [| c cs Hc Hcs IH]; intros j r ev cs' Hd.
  - destruct j; discriminate.
  - destruct j as [| j]; simpl in Hd.
    + destruct c as [v | e | op k |]; try discriminate.
      simpl in Hc.
      destruct (tstart_wp C any_result (k r) _ (Hc r)) as [Hs Hev].
      destruct (tstart (k r)) as [ev0 c0]. simpl in *.
      injection Hd as <- <-.
      split.
      * constructor; [eapply swp_any_history; eassumption | assumption].
      * constructor; [exact I | assumption].
    + destruct (nth_error cs j) as [[v | e | op k |] |] eqn:En; try discriminate.
      specialize (IH j r). rewrite En in IH.
      destruct (tstart (k r)) as [ev0 c0].
      injection Hd as <- <-.
      destruct (IH _ _ eq_refl) as [Hcs' Hev].
      split; [constructor; assumption | assumption].
Qed.

Lemma pstart_safe (C : io -> Prop) :
  forall p, psafe C p ->
    calls_ok C (fst (pstart p)) /\ ssafe C (snd (pstart p)).
Proof.
  induction p as [v | e | st msg k IH | code | op k IH | ps k IH | ];
    simpl; intros Hp; try (split; [auto with trace | exact I]).
  - destruct (IH Hp) as [Hc Hs]. destruct (pstart k) as [ev s]. simpl in *.
    split; auto with trace.
  - destruct Hp as [Hop Hk]. split; auto with trace.
  - destruct Hp as [Hps Hk].
    destruct (pool_start_safe C ps Hps) as [Hcs Hev].
    destruct (pool_start ps) as [ev cs]. simpl in *.
    destruct (resolve cs) as [| vs | e].
    + split; [auto with trace | split; assumption].
    + destruct (IH vs (Hk vs)) as [Hc Hs].
      destruct (pstart (k vs)) as [ev' s']. simpl in *.
      split; auto with trace.
    + split; simpl; auto with trace.
Qed.

Lemma deliver_safe (C : io -> Prop) s j r ev s' :
  ssafe C s -> deliver s j r = Some (ev, s') ->
  calls_ok C ev /\ ssafe C s'.
Proof.
  destruct s as [v | e | code | op k | cs k | e cs | ]; simpl; intros Hs Hd;
    try discriminate.
  - destruct j; [| discriminate].
    destruct (pstart_safe C (k r) (Hs r)) as [Hc Hs'].
    destruct (pstart (k r)) as [ev0 s0]. simpl in *.
    injection Hd as <- <-. split; auto with trace.
  - destruct Hs as [Hcs Hk].
    destruct (pool_deliver cs j r) as [[ev0 cs'] |] eqn:Hp; [| discriminate].
    destruct (pool_deliver_safe C cs Hcs _ _ _ _ Hp) as [Hcs' Hev].
    destruct (resolve cs') as [| vs | e].
    + injection Hd as <- <-. split; [auto with trace | split; assumption].
    + destruct (pstart_safe C (k vs) (Hk vs)) as [Hc Hs'].
      destruct (pstart (k vs)) as [ev1 s1]. simpl in *.
      injection Hd as <- <-. split; auto with trace.
    + injection Hd as <- <-. split; auto with trace.
  - destruct (pool_deliver cs j r) as [[ev0 cs'] |] eqn:Hp; [| discriminate].
    destruct (pool_deliver_safe C cs Hs _ _ _ _ Hp) as [Hcs' Hev].
    injection Hd as <- <-. split; auto with trace.
Qed.

Lemma run_from_safe (C : io -> Prop) :
  forall sched s tr s', ssafe C s -> run_from s sched = (tr, s') -> calls_ok C tr.
Proof.
  induction sched as [| [j r] sched IH]; simpl; intros s tr s' Hs Hrun.
  - injection Hrun as <- <-. apply calls_ok_nil.
  - destruct (deliver s j r) as [[ev s0] |] eqn:Hd; [| eauto].
    destruct (deliver_safe C _ _ _ _ _ Hs Hd) as [Hev Hs0].
    destruct (run_from s0 sched) as [tr' s1] eqn:Hr.
    injection Hrun as <- <-.
    apply calls_ok_app; eauto.
Qed.

(** A program starts only the operations its text contains. *)
Lemma run_safe (C : io -> Prop) p sched tr s :
  psafe C p -> run p sched = (tr, s) -> calls_ok C tr.
Proof.
  intros Hp. unfold run.
  destruct (pstart_safe C p Hp) as [Hc Hs].
  destruct (pstart p) as [ev s0]. simpl in *.
  destruct (run_from s0 sched) as [tr' s'] eqn:Hr.
  intros H. injection H as <- <-.
  apply calls_ok_app; [assumption | eapply run_from_safe; eassumption].
Qed.

Lemma psafe_lift (C : io -> Prop) :
  forall t, tsafe C t -> psafe C (lift t).
Proof.
  induction t as [v | e | st msg k IH | op k IH | ]; simpl; auto.
  intros [Hop Hk]. split; auto.
Qed.

Lemma psafe_bind (C : io -> Prop) (f : value -> prog) :
  (forall v, psafe C (f v)) ->
  forall p, psafe C p -> psafe C (bind p f).
Proof.
  intros Hf.
  induction p as [v | e | st msg k IH | code | op k IH | ps k IH | ];
    simpl; auto.
  - intros [Hop Hk]. split; auto.
  - intros [Hps Hk]. split; auto.
Qed.

(** ** The retry wrapper *)

Lemma is_429_true (e : error) : rate_limited e -> is_429 e = true.
Proof.
  unfold rate_limited, is_429. intros ->. reflexivity.
Qed.

Lemma is_429_false (e : error) : statusCode e <> Some 429%Z -> is_429 e = false.
Proof.
  unfold is_429. destruct (statusCode e) as [code |]; [| reflexivity].
  intros Hne. apply Z.eqb_neq. congruence.
Qed.

Lemma calls_app (a b : list event) : calls (a ++ b) = calls a ++ calls b.
Proof.
  induction a as [| e a IH]; simpl; [reflexivity |].
  destruct e; simpl; rewrite IH; reflexivity.
Qed.

Lemma requests_app (a b : list event) : requests (a ++ b) = requests a ++ requests b.
Proof.
  induction a as [| e a IH]; simpl; [reflexivity |].
  destruct e as [| [] | | | |]; simpl; rewrite IH; reflexivity.
Qed.

Lemma waits_app (a b : list event) : waits (a ++ b) = waits a ++ waits b.
Proof.
  unfold waits. rewrite calls_app. apply filter_app.
Qed.

Lemma in_requests (q : request) (tr : list event) :
  In q (requests tr) <-> In (EvCall (Rp q)) tr.
Proof.
  induction tr as [| e tr IH]; simpl; [tauto |].
  destruct e as [| [] | | | |]; simpl; rewrite IH;
    intuition (try discriminate; try congruence).
Qed.

Section Retry.

(** A wrapper [t], seen through the two equations its three instances
    satisfy: what one rate-limited attempt adds in front of the run of the
    next invocation, and what the last attempt does. *)
Variable t : nat -> task.
Variable q : request.
Variable before : list event.
Variable last : settle.
Variable v : value.

Hypothesis before_silent : calls before = [].

Hypothesis t_again : forall fuel err rest,
  rate_limited err ->
  trun (t (S fuel)) (Rejected err :: Resolved VUndef :: rest) =
  (attempt q before err ++ fst (trun (t fuel) rest), snd (trun (t fuel) rest)).

Hypothesis t_last : forall fuel,
  trun (t (S fuel)) [last] =
  (before ++ [EvCall (Rp q); EvSettle (Rp q) last], TRet v).

Lemma retry_generic :
  forall errs fuel,
    Forall rate_limited errs ->
    List.length errs < fuel ->
    snd (trun (t fuel) (retry_script errs last)) = TRet v /\
    waits (fst (trun (t fuel) (retry_script errs last)))
      = repeat (Delay 5000) (List.length errs) /\
    requests (fst (trun (t fuel) (retry_script errs last)))
      = repeat q (S (List.length errs)).
Proof.
  induction errs as [| err errs IH]; intros fuel Herrs Hfuel.
  - destruct fuel as [| fuel]; [inversion Hfuel |].
    unfold retry_script. simpl flat_map. simpl app.
    rewrite t_last. simpl fst. simpl snd.
    rewrite waits_app, requests_app. unfold waits at 1.
    rewrite before_silent. simpl.
    assert (Hb : requests before = []).
    { clear - before_silent. induction before as [| e b IHb]; [reflexivity |].
      destruct e as [| op | | | |]; simpl in *; try discriminate; auto. }
    rewrite Hb. auto.
  - destruct fuel as [| fuel]; [inversion Hfuel |].
    inversion Herrs as [| e l Herr Herrs']; subst.
    unfold retry_script. simpl flat_map. simpl app.
    fold (retry_script errs last).
    rewrite (t_again fuel err _ Herr). simpl fst. simpl snd.
    simpl in Hfuel.
    destruct (IH fuel Herrs' ltac:(lia)) as [Hret [Hw Hq]].
    split; [assumption |].
    rewrite waits_app, requests_app, Hw, Hq.
    unfold attempt. rewrite waits_app, requests_app. unfold waits at 1.
    rewrite before_silent.
    assert (Hb : requests before = []).
    { clear - before_silent. induction before as [| e b IHb]; [reflexivity |].
      destruct e as [| op | | | |]; simpl in *; try discriminate; auto. }
    rewrite Hb. simpl. auto.
Qed.

End Retry.

Lemma handleError_again (err : error) (op : unit -> task) :
  rate_limited err ->
  tstart (handleError err op) =
  ([EvLog yellow_bold "rate limited, waiting for 5s before retyring..";
    EvCall (Delay 5000)],
   TWait (Delay 5000)
     (fun r => match r with Resolved _ => op tt | Rejected e => Throw e end)).
Proof.
  intros Herr. unfold handleError. rewrite (is_429_true err Herr). reflexivity.
Qed.

Lemma handleError_other (err : error) (op : unit -> task) :
  statusCode err <> Some 429%Z ->
  handleError err op = Log red_bold (err_toString err) (Ret VUndef).
Proof.
  intros Herr. unfold handleError. rewrite (is_429_false err Herr). reflexivity.
Qed.

Lemma trun_split (t : task) (script : list settle) :
  trun t script =
  (fst (tstart t) ++ fst (trun_from (snd (tstart t)) script),
   snd (trun_from (snd (tstart t)) script)).
Proof.
  unfold trun. destruct (tstart t) as [ev c]. simpl.
  destruct (trun_from c script) as [tr c']. reflexivity.
Qed.

Lemma trun_from_wait op k r script :
  trun_from (TWait op k) (r :: script) =
  (EvSettle op r :: fst (trun (k r) script), snd (trun (k r) script)).
Proof.
  simpl. unfold trun. destruct (tstart (k r)) as [ev c].
  destruct (trun_from c script) as [tr c']. reflexivity.
Qed.

Lemma trun_from_settled (c : tstate) (script : list settle) :
  match c with TWait _ _ => False | _ => True end ->
  trun_from c script = ([], c).
Proof.
  destruct script; [reflexivity |]. destruct c; simpl; tauto.
Qed.

(** One rate-limited attempt of a wrapper, then the run of its next
    invocation. *)
Ltac one_attempt Herr :=
  rewrite trun_split; cbn [createEntity getEntity patchEntity tstart fst snd];
  rewrite trun_from_wait; cbn [fst snd];
  rewrite trun_split, (handleError_again _ _ Herr); cbn [fst snd];
  rewrite trun_from_wait; cbn [fst snd];
  unfold attempt; rewrite <- !app_assoc; reflexivity.

Section Wrappers.

Variable JSON_parse : value -> result value.
Variable config : Config.

Lemma createEntity_again fuel entity payload err rest :
  rate_limited err ->
  trun (createEntity config (S fuel) entity payload)
       (Rejected err :: Resolved VUndef :: rest) =
  (attempt (create_request config entity payload)
           [EvLog green_bold ("creating " +++ entity +++ "...")] err
     ++ fst (trun (createEntity config fuel entity payload) rest),
   snd (trun (createEntity config fuel entity payload) rest)).
Proof.
  intros Herr. one_attempt Herr.
Qed.

Lemma createEntity_last fuel entity payload v :
  trun (createEntity config (S fuel) entity payload) [Resolved v] =
  ([EvLog green_bold ("creating " +++ entity +++ "...")]
     ++ [EvCall (Rp (create_request config entity payload));
         EvSettle (Rp (create_request config entity payload)) (Resolved v)],
   TRet v).
Proof. reflexivity. Qed.

Lemma getEntity_again fuel entity id err rest :
  rate_limited err ->
  trun (getEntity JSON_parse config (S fuel) entity id)
       (Rejected err :: Resolved VUndef :: rest) =
  (attempt (get_request config entity id) [] err
     ++ fst (trun (getEntity JSON_parse config fuel entity id) rest),
   snd (trun (getEntity JSON_parse config fuel entity id) rest)).
Proof.
  intros Herr. one_attempt Herr.
Qed.

Lemma getEntity_last fuel entity id resp v :
  JSON_parse resp = Ok v ->
  trun (getEntity JSON_parse config (S fuel) entity id) [Resolved resp] =
  ([] ++ [EvCall (Rp (get_request config entity id));
          EvSettle (Rp (get_request config entity id)) (Resolved resp)],
   TRet v).
Proof.
  intros Hparse. unfold trun. cbn [getEntity tstart trun_from].
  rewrite Hparse. reflexivity.
Qed.

Lemma patchEntity_again fuel entity id payload err rest :
  rate_limited err ->
  trun (patchEntity config (S fuel) entity id payload)
       (Rejected err :: Resolved VUndef :: rest) =
  (attempt (patch_request config entity id payload) [] err
     ++ fst (trun (patchEntity config fuel entity id payload) rest),
   snd (trun (patchEntity config fuel entity id payload) rest)).
Proof.
  intros Herr. one_attempt Herr.
Qed.

Lemma patchEntity_last fuel entity id payload v :
  trun (patchEntity config (S fuel) entity id payload) [Resolved v] =
  ([] ++ [EvCall (Rp (patch_request config entity id payload));
          EvSettle (Rp (patch_request config entity id payload)) (Resolved v)],
   TRet v).
Proof. reflexivity. Qed.




End Wrappers.

(** ** Connection discovery *)

Section Discovery.

Variable JSON_parse : value -> result value.
Variable path_join : string -> string -> string.
Variable config : Config.

Lemma get_field (c : value) (name : string) :
  nullish c = false -> get c name = Ok (field name c).
Proof.
  unfold field. destruct c; simpl; intros H; try discriminate; reflexivity.
Qed.

Lemma mapM_choice (conns : list value) :
  Forall (fun c => nullish c = false) conns ->
  mapM (fun c => name <- get c "name" ;; id <- get c "id" ;;
                 Ok (VObj [("name", name); ("value", id)])) conns
  = Ok (map choice conns).
Proof.
  induction 1 as [| c conns Hc _ IH]; simpl; [reflexivity |].
  rewrite IH, !(get_field c _ Hc). reflexivity.
Qed.

(** C7, as amended: for every strategy and every response that lists
    connections (a JSON array without [null] elements), [findConnections]
    returns one element per connection, in the order of the response, each
    of the form [{name: c.name, value: c.id}]. *)
Theorem findConnections_choices :
  forall (strategy : string) (resp : value) (conns : list value)
         (rest : list settle),
    JSON_parse resp = Ok (VArr conns) ->
    Forall (fun c => nullish c = false) conns ->
    trun (findConnections JSON_parse path_join config strategy)
         (Resolved resp :: rest) =
      ([EvCall (Rp (connections_request path_join config strategy));
        EvSettle (Rp (connections_request path_join config strategy))
                 (Resolved resp)],
       TRet (VArr (map choice conns))) /\
    List.length (map choice conns) = List.length conns /\
    (forall i c, nth_error conns i = Some c ->
                 nth_error (map choice conns) i
                 = Some (VObj [("name", field "name" c); ("value", field "id" c)])).
Proof.
  intros strategy resp conns rest Hparse Hconns.
  split; [| split].
  - unfold trun, findConnections, await. cbn [tstart trun_from].
    rewrite Hparse. unfold js_map. rewrite (mapM_choice conns Hconns).
    cbn [rbind tstart]. rewrite trun_from_settled by exact I. reflexivity.
  - apply length_map.
  - intros i c Hi. rewrite nth_error_map, Hi. reflexivity.
Qed.

(** C8: a failure in [findConnections] is thrown to its caller as it is,
    be it the request that fails, whatever its status (429 included), or
    the parsing of the response: one request, no wait, no second request,
    nothing printed, no value returned. *)
Theorem findConnections_failure_propagates :
  forall (strategy : string) (err : error) (resp : value) (rest : list settle),
    trun (findConnections JSON_parse path_join config strategy)
         (Rejected err :: rest) =
      ([EvCall (Rp (connections_request path_join config strategy));
        EvSettle (Rp (connections_request path_join config strategy))
                 (Rejected err)],
       TThrow err) /\
    (JSON_parse resp = Err err ->
     trun (findConnections JSON_parse path_join config strategy)
          (Resolved resp :: rest) =
       ([EvCall (Rp (connections_request path_join config strategy));
         EvSettle (Rp (connections_request path_join config strategy))
                  (Resolved resp)],
        TThrow err)).
Proof.
  intros strategy err resp rest. split; [| intros Hparse];
    unfold trun, findConnections, await; cbn [tstart trun_from];
    try rewrite Hparse; cbn [tstart];
    rewrite trun_from_settled by exact I; reflexivity.
Qed.

End Discovery.

(** C7, as stated, fails: for the response
    [[{"id":"con_1","name":"corp-ad"}]] the element returned has the keys
    [name] and [value], not [label] and [id]. *)
Lemma findConnections_not_label_id :
  snd (trun (findConnections demo_parse demo_join demo_config "ad")
            [Resolved (VStr demo_list_text)])
  <> TRet (VArr (map spec_choice
                     [VObj [("id", VStr "con_1"); ("name", VStr "corp-ad")]])).
Proof.
  vm_compute. intros H. discriminate H.
Qed.

Lemma findConnections_choices_witness :
  trun (findConnections demo_parse demo_join demo_config "ad")
       [Resolved (VStr demo_list_text)] =
    ([EvCall (Rp (connections_request demo_join demo_config "ad"));
      EvSettle (Rp (connections_request demo_join demo_config "ad"))
               (Resolved (VStr demo_list_text))],
     TRet (VArr [VObj [("name", VStr "corp-ad"); ("value", VStr "con_1")]])).
Proof.
  apply (findConnections_choices demo_parse demo_join demo_config "ad"
           (VStr demo_list_text)
           [VObj [("id", VStr "con_1"); ("name", VStr "corp-ad")]] []).
  - reflexivity.
  - repeat constructor.
Defined.

Lemma findConnections_failure_propagates_witness :
  trun (findConnections demo_parse demo_join demo_config "sms")
       [Rejected demo_429; Resolved VUndef] =
    ([EvCall (Rp (connections_request demo_join demo_config "sms"));
      EvSettle (Rp (connections_request demo_join demo_config "sms"))
               (Rejected demo_429)],
     TThrow demo_429) /\
  trun (findConnections demo_parse demo_join demo_config "sms")
       [Resolved (VStr "<html>"); Resolved VUndef] =
    ([EvCall (Rp (connections_request demo_join demo_config "sms"));
      EvSettle (Rp (connections_request demo_join demo_config "sms"))
               (Resolved (VStr "<html>"))],
     TThrow (mkError None "SyntaxError" "Unexpected token")).
Proof.
  split.
  - apply (findConnections_failure_propagates demo_parse demo_join demo_config
             "sms" demo_429 VUndef [Resolved VUndef]).
  - apply (findConnections_failure_propagates demo_parse demo_join demo_config
             "sms" (mkError None "SyntaxError" "Unexpected token")
             (VStr "<html>") [Resolved VUndef]).
    reflexivity.
Defined.

(** ** Patch derivation and environment files *)

Lemma strict_eq_str_true (x : value) (s : string) :
  strict_eq_str x s = true <-> x = VStr s.
Proof.
  destruct x; simpl; try (split; [discriminate | intros H; discriminate H]).
  rewrite String.eqb_eq. split; [intros -> | intros H; injection H]; auto.
Qed.



(** The second example of the specification: with [strategy = "email"]
    the metadata is empty. *)
Example derivePatch_email :
  derivePatch
    (VObj [("portal", VObj [("client_id", VStr "p")]);
           ("backend", VObj [("client_id", VStr "b")])])
    (VObj [("id", VStr "con_2"); ("strategy", VStr "email");
           ("enabled_clients", VArr [VStr "x"])])
  = Ok {| p_id := VStr "con_2";
          p_patch := VObj [("enabled_clients", VArr [VStr "x"; VStr "p"; VStr "b"]);
                           ("metadata", VObj [])] |}.
Proof. reflexivity. Qed.

(** C6: with [portal.client_id = "P1"], [backend.client_id = "B1"],
    [backend.client_secret = "S1"] and the domain [t.example.com],
    [generateEnv] writes to [client.env] exactly the three lines of the
    front-end block and then to [server.env] the four lines of the back-end
    block. *)
Theorem generateEnv_blocks :
  forall (path_join : string -> string -> string) (dirname : string)
         (config : Config) (artefacts portal backend : value),
    domain config = "t.example.com" ->
    get artefacts "portal" = Ok portal ->
    get portal "client_id" = Ok (VStr "P1") ->
    get artefacts "backend" = Ok backend ->
    get backend "client_id" = Ok (VStr "B1") ->
    get backend "client_secret" = Ok (VStr "S1") ->
    exists front back,
      client_env config artefacts = Ok front /\
      server_env config artefacts = Ok back /\
      lines front = ["REACT_APP_domain=t.example.com";
                     "REACT_APP_clientID=P1";
                     "REACT_APP_audience=urn:self-service-portal-api"] /\
      lines back = ["NON_INTERACTIVE_CLIENT_ID=B1";
                    "NON_INTERACTIVE_CLIENT_SECRET=S1";
                    "DOMAIN=t.example.com";
                    "AUDIENCE=urn:self-service-portal-api"] /\
      run (generateEnv path_join dirname config artefacts)
          [(0, Resolved VUndef); (0, Resolved VUndef)] =
        ([EvCall (WriteFile (path_join dirname "client.env") front);
          EvSettle (WriteFile (path_join dirname "client.env") front)
                   (Resolved VUndef);
          EvCall (WriteFile (path_join dirname "server.env") back);
          EvSettle (WriteFile (path_join dirname "server.env") back)
                   (Resolved VUndef)],
         SRet VUndef).
Proof.
  intros path_join dirname config artefacts portal backend
         Hdom Hportal Hpid Hbackend Hbid Hsecret.
  unfold generateEnv, client_env, server_env.
  rewrite Hdom, Hportal; cbn [rbind]. rewrite Hpid; cbn [rbind].
  rewrite Hbackend; cbn [rbind]. rewrite Hbid; cbn [rbind].
  rewrite Hsecret; cbn [rbind toString].
  eexists. eexists.
  split; [reflexivity |]. split; [reflexivity |].
  split; [vm_compute; reflexivity |]. split; [vm_compute; reflexivity |].
  reflexivity.
Qed.

Lemma generateEnv_blocks_witness :
  exists front back,
    client_env demo_config
      (VObj [("portal", VObj [("client_id", VStr "P1")]);
             ("backend", VObj [("client_id", VStr "B1");
                               ("client_secret", VStr "S1")])]) = Ok front /\
    server_env demo_config
      (VObj [("portal", VObj [("client_id", VStr "P1")]);
             ("backend", VObj [("client_id", VStr "B1");
                               ("client_secret", VStr "S1")])]) = Ok back /\
    lines front = ["REACT_APP_domain=t.example.com";
                   "REACT_APP_clientID=P1";
                   "REACT_APP_audience=urn:self-service-portal-api"] /\
    lines back = ["NON_INTERACTIVE_CLIENT_ID=B1";
                  "NON_INTERACTIVE_CLIENT_SECRET=S1";
                  "DOMAIN=t.example.com";
                  "AUDIENCE=urn:self-service-portal-api"].
Proof.
  destruct (generateEnv_blocks demo_join "." demo_config
              (VObj [("portal", VObj [("client_id", VStr "P1")]);
                     ("backend", VObj [("client_id", VStr "B1");
                                       ("client_secret", VStr "S1")])])
              (VObj [("client_id", VStr "P1")])
              (VObj [("client_id", VStr "B1"); ("client_secret", VStr "S1")])
              eq_refl eq_refl eq_refl eq_refl eq_refl eq_refl)
    as (front & back & Hf & Hb & Hlf & Hlb & _).
  exists front, back. repeat split; assumption.
Defined.

(** ** The artefact provisioner *)

Lemma append_inv_head (a x y : string) : a +++ x = a +++ y -> x = y.
Proof.
  induction a as [| c a IH]; simpl; intros H; [assumption |].
  injection H as H. auto.
Qed.

Lemma entity_url_inj (config : Config) (e1 e2 : string) :
  entity_url config e1 = entity_url config e2 -> e1 = e2.
Proof.
  unfold entity_url. intros H.
  do 3 apply append_inv_head in H. assumption.
Qed.

Lemma wrapper_not_grant (config : Config) (entity : string) (payload : value)
    (op : io) :
  entity <> "client-grants" ->
  wrapper_op (create_request config entity payload) op -> not_grant config op.
Proof.
  intros Hne [-> | ->] q Hq; [| discriminate].
  injection Hq as <-. unfold is_grant. simpl. intros H.
  apply entity_url_inj in H. contradiction.
Qed.

Lemma app_cons_split {A} (a b : A) :
  forall l1 l2 m1 m2,
    l1 ++ a :: l2 = m1 ++ b :: m2 ->
    (l1 = m1 /\ a = b /\ l2 = m2) \/
    (exists mid, m1 = l1 ++ a :: mid /\ l2 = mid ++ b :: m2) \/
    (exists mid, l1 = m1 ++ b :: mid /\ m2 = mid ++ a :: l2).
Proof.
  induction l1 as [| x l1 IH]; intros l2 m1 m2 H.
  - destruct m1 as [| y m1]; simpl in H; injection H as -> ->.
    + left. auto.
    + right. left. exists m1. auto.
  - destruct m1 as [| y m1]; simpl in H; injection H as -> H.
    + right. right. exists l1. subst. auto.
    + destruct (IH _ _ _ H) as [(-> & -> & ->) | [[mid [-> ->]] | [mid [-> ->]]]].
      * left. auto.
      * right. left. exists mid. auto.
      * right. right. exists mid. auto.
Qed.

Section Provisioner.

Variable path_join : string -> string -> string.
Variable dirname : string.
Variable config : Config.

Lemma createEntity_wp (entity : string) (payload : value) :
  forall fuel h,
    twp (wrapper_op (create_request config entity payload))
        (from_request (create_request config entity payload))
        h (createEntity config fuel entity payload).
Proof.
  induction fuel as [| fuel IH]; intros h; simpl; [exact I |].
  split; [left; reflexivity |].
  intros [v | err]; simpl.
  - right. left. reflexivity.
  - unfold handleError. destruct (is_429 err); simpl.
    + split; [right; reflexivity |].
      intros [u | e]; [apply IH | exact I].
    + left. reflexivity.
Qed.

Lemma createEntity_not_grant (entity : string) (payload : value) (fuel : nat)
    (h : history) :
  entity <> "client-grants" ->
  twp (not_grant config) (from_request (create_request config entity payload))
      h (createEntity config fuel entity payload).
Proof.
  intros Hne. eapply twp_weaken; [| | apply createEntity_wp].
  - intros op. apply wrapper_not_grant. assumption.
  - auto.
Qed.

Lemma read_not_grant (file : string) : not_grant config (ReadFile file).
Proof. intros q Hq. discriminate. Qed.

Lemma stage1_wp (fuel : nat) :
  Forall2 (fun Q t => twp (not_grant config) Q [] t)
          [any_result; from_request (backend_request config); any_result; any_result]
          (stage1 path_join dirname config fuel).
Proof.
  unfold stage1. simpl map.
  repeat constructor.
  - apply read_not_grant.
  - intros [v | e]; [| exact I].
    eapply twp_weaken; [| | apply createEntity_not_grant]; eauto.
    + unfold any_result. auto.
    + discriminate.
  - apply createEntity_not_grant. discriminate.
  - eapply twp_weaken; [| | apply createEntity_not_grant]; eauto.
    + unfold any_result. auto.
    + discriminate.
  - apply read_not_grant.
  - intros [v | e]; [| exact I].
    eapply twp_weaken; [| | apply createEntity_not_grant]; eauto.
    + unfold any_result. auto.
    + discriminate.
Qed.

Lemma grant_safe (fuel : nat) (backend : value) (f : value -> prog) :
  (forall v, psafe (grant_op config backend) (f v)) ->
  psafe (grant_op config backend)
        (bind (lift (createMgmtApiGrant config fuel backend)) f).
Proof.
  intros Hf. apply psafe_bind; [assumption |]. apply psafe_lift.
  unfold createMgmtApiGrant.
  destruct (get backend "client_id") as [client_id |] eqn:Hget; [| exact I].
  eapply twp_tsafe. eapply twp_weaken; [| | apply createEntity_wp with (h := [])].
  - intros op Hop. exists client_id. split; [exact Hget | exact Hop].
  - intros h v H. exact H.
Qed.

(** The runs of [createArtefacts]: either the four creations are still
    going on, and no grant request has been sent, or they have all returned
    and what follows is the creation of the grant for the backend client
    that was returned. *)
Lemma createArtefacts_cases (fuel : nat) (sched : schedule) tr s :
  run (createArtefacts path_join dirname config fuel) sched = (tr, s) ->
  (Forall (pool_event (not_grant config)) tr /\ exists k, in_all s k) \/
  (exists tr1 portal backend api rule tr2,
      tr = tr1 ++ EvAll [portal; backend; api; rule] :: tr2 /\
      Forall (pool_event (not_grant config)) tr1 /\
      result_ok tr1 (from_request (backend_request config)) backend /\
      calls_ok (grant_op config backend) tr2).
Proof.
  intros Hrun. unfold createArtefacts in Hrun.
  destruct (run_PAll_cases _ _ _ _ _ _ _ (stage1_wp fuel) Hrun)
    as [[Htr Hs] | (tr1 & vs & sched2 & tr2 & -> & Htr1 & Hvs & Hk)].
  - left. split; [assumption | eauto].
  - right.
    inversion Hvs as [| Q0 portal Qs0 vs0 _ Hvs0]; subst.
    inversion Hvs0 as [| Q1 backend Qs1 vs1 Hbackend Hvs1]; subst.
    inversion Hvs1 as [| Q2 api Qs2 vs2 _ Hvs2]; subst.
    inversion Hvs2 as [| Q3 rule Qs3 vs3 _ Hvs3]; subst.
    inversion Hvs3; subst.
    exists tr1, portal, backend, api, rule, tr2.
    split; [reflexivity |]. split; [assumption |]. split; [assumption |].
    cbn [nth] in Hk.
    eapply run_safe; [| exact Hk].
    apply grant_safe. intros v. exact I.
Qed.

(** C3: whenever [createArtefacts] sends the request that creates the
    management-API grant, the backend-client creation request has been
    answered before, and the [client_id] of the grant's payload is the
    [client_id] of that answer: the request is a POST whose JSON body has
    that [client_id] and the management API of the tenant as [audience]. *)
Theorem grant_uses_backend_client_id :
  forall (fuel : nat) (sched : schedule) (tr tr1 tr2 : list event) (s : state)
         (q : request),
    run (createArtefacts path_join dirname config fuel) sched = (tr, s) ->
    tr = tr1 ++ EvCall (Rp q) :: tr2 ->
    is_grant config q ->
    exists backend client_id,
      In (EvSettle (Rp (create_request config "clients" backend_payload))
                   (Resolved backend)) tr1 /\
      get backend "client_id" = Ok client_id /\
      q = create_request config "client-grants" (grant_payload config client_id) /\
      method q = POST /\
      exists payload,
        json q = Some payload /\
        get payload "client_id" = Ok client_id /\
        get payload "audience"
          = Ok (VStr ("https://" +++ domain config +++ "/api/v2/")).
Proof.
  intros fuel sched tr tr1 tr2 s q Hrun Htr Hgrant.
  destruct (createArtefacts_cases fuel sched tr s Hrun)
    as [[Hpool _] | (trA & portal & backend & api & rule & trB & Heq & HA & Hb & HB)].
  - exfalso. rewrite Forall_forall in Hpool.
    assert (Hin : In (EvCall (Rp q)) tr) by (subst tr; apply in_elt).
    exact (Hpool _ Hin q eq_refl Hgrant).
  - rewrite Htr in Heq.
    destruct (app_cons_split _ _ _ _ _ _ Heq)
      as [(_ & Habs & _) | [[mid [-> ->]] | [mid [-> ->]]]].
    + discriminate Habs.
    + exfalso. rewrite Forall_forall in HA.
      exact (HA _ (in_elt _ _ _) q eq_refl Hgrant).
    + destruct (HB (Rp q) (in_elt _ _ _)) as [client_id [Hget [Hq | Hq]]];
        [| discriminate Hq].
      injection Hq as ->.
      exists backend, client_id.
      split; [| split; [assumption |]].
      * destruct Hb as [h [Hsrc [Hundef | Hin]]].
        -- subst backend. discriminate Hget.
        -- apply in_or_app. left. apply Hsrc. exact Hin.
      * split; [reflexivity |]. split; [reflexivity |].
        exists (grant_payload config client_id).
        split; [reflexivity |]. split; reflexivity.
Qed.


End Provisioner.

(** ** The first [Promise.all] of a run *)

Lemma no_all_app (a b : list event) :
  no_all (a ++ b) <-> no_all a /\ no_all b.
Proof.
  unfold no_all. rewrite existsb_app, orb_false_iff. tauto.
Qed.

Lemma no_all_not_in (tr : list event) (vs : list value) :
  no_all tr -> ~ In (EvAll vs) tr.
Proof.
  unfold no_all. intros Hno Hin.
  assert (H : existsb is_all tr = true)
    by (apply existsb_exists; exists (EvAll vs); auto).
  congruence.
Qed.

Lemma first_all_unique (tr1 tr2 trA trB : list event) (a b : list value) :
  tr1 ++ EvAll a :: tr2 = trA ++ EvAll b :: trB ->
  no_all tr1 -> no_all trA ->
  tr1 = trA /\ a = b /\ tr2 = trB.
Proof.
  intros Heq H1 HA.
  destruct (app_cons_split _ _ _ _ _ _ Heq)
    as [(-> & Hab & ->) | [[mid [-> ->]] | [mid [-> ->]]]].
  - injection Hab as ->. auto.
  - exfalso. exact (no_all_not_in _ a HA (in_elt _ _ _)).
  - exfalso. exact (no_all_not_in _ b H1 (in_elt _ _ _)).
Qed.

Lemma first_all_skip (e : event) (tr tr1 tr2 : list event) (vs : list value) :
  e :: tr = tr1 ++ EvAll vs :: tr2 ->
  is_all e = false ->
  no_all tr1 ->
  exists tr1', tr1 = e :: tr1' /\ tr = tr1' ++ EvAll vs :: tr2 /\ no_all tr1'.
Proof.
  intros Heq He Hno. destruct tr1 as [| x tr1]; simpl in Heq.
  - injection Heq as -> _. discriminate He.
  - injection Heq as <- ->. exists tr1. split; [reflexivity |].
    split; [reflexivity |].
    change (e :: tr1) with ([e] ++ tr1) in Hno.
    apply no_all_app in Hno. tauto.
Qed.

Lemma run_throw (e : error) (sched : schedule) :
  run (PThrow e) sched = ([], SThrow e).
Proof. rewrite run_terminal; [reflexivity | exact I]. Qed.

(** ** The connection enabler *)

Lemma get_error (v : value) (name : string) (e : error) :
  get v name = Err e -> err_name e = "TypeError".
Proof.
  destruct v; simpl; intros H; try discriminate; injection H as <-; reflexivity.
Qed.

Lemma derivePatch_error (artefacts c : value) (e : error) :
  derivePatch artefacts c = Err e -> err_name e = "TypeError".
Proof.
  unfold derivePatch.
  repeat match goal with
         | |- context [rbind (get ?v ?n) _] =>
             let H := fresh "Hget" in
             destruct (get v n) eqn:H; cbn [rbind];
             [| intros Herr; injection Herr as <-; eapply get_error; eassumption]
         end.
  discriminate.
Qed.

Lemma derivePatch_undefined (artefacts : value) :
  exists e, derivePatch artefacts VUndef = Err e.
Proof. eexists. reflexivity. Qed.

Lemma mapM_derivePatch_undefined (artefacts : value) (cons : list value) :
  In VUndef cons ->
  exists e, mapM (derivePatch artefacts) cons = Err e /\ err_name e = "TypeError".
Proof.
  induction cons as [| c cons IH]; intros Hin; [destruct Hin |].
  simpl. destruct (derivePatch artefacts c) as [p | e] eqn:Hc.
  - destruct Hin as [-> | Hin].
    + destruct (derivePatch_undefined artefacts) as [e He]. congruence.
    + destruct (IH Hin) as [e [-> He]]. exists e. auto.
  - exists e. split; [reflexivity | eapply derivePatch_error; eassumption].
Qed.

Section Enabler.

Variable JSON_parse : value -> result value.
Variable config : Config.

Lemma getEntity_wp (entity : string) (id : value) :
  forall fuel h,
    twp (wrapper_op (get_request config entity id)) any_result h
        (getEntity JSON_parse config fuel entity id).
Proof.
  induction fuel as [| fuel IH]; intros h; simpl; [exact I |].
  split; [left; reflexivity |].
  assert (Herr : forall err h',
             twp (wrapper_op (get_request config entity id)) any_result h'
                 (handleError err
                    (fun _ => getEntity JSON_parse config fuel entity id))).
  { intros err h'. unfold handleError. destruct (is_429 err); simpl.
    - split; [right; reflexivity |]. intros [u | e]; [apply IH | exact I].
    - exact I. }
  intros [resp | err]; [| apply Herr].
  destruct (JSON_parse resp); [exact I | apply Herr].
Qed.

Lemma fetches_wp (fuel : nat) (selected : list (string * value)) :
  Forall2 (fun Q t => twp (no_method PATCH) Q [] t)
          (map (fun _ => any_result) selected)
          (map (fun kv => getEntity JSON_parse config fuel "connections" (snd kv))
               selected).
Proof.
  induction selected as [| kv selected IH]; simpl; constructor; [| assumption].
  eapply twp_weaken; [| | apply getEntity_wp]; [| auto].
  intros op [-> | ->] q Hq; [| discriminate].
  injection Hq as <-. discriminate.
Qed.

(** C10: when the fetch of some selected connection returns [undefined],
    [enableConnections] throws a [TypeError] at the derivation of the
    patches, as soon as all fetches have returned; it has sent no PATCH
    request then, and sends none. *)
Theorem undefined_connection_stops_patching :
  forall (fuel : nat) (artefacts : value) (selected : list (string * value))
         (sched : schedule) (tr tr1 tr2 : list event) (s : state)
         (cons : list value),
    run (enableConnections JSON_parse config fuel artefacts selected) sched
      = (tr, s) ->
    tr = tr1 ++ EvAll cons :: tr2 ->
    no_all tr1 ->
    In VUndef cons ->
    (exists e, s = SThrow e /\ err_name e = "TypeError") /\
    tr2 = [] /\
    (forall q, In q (requests tr) -> method q <> PATCH).
Proof.
  intros fuel artefacts selected sched tr tr1 tr2 s cons Hrun Htr Hno Hundef.
  unfold enableConnections in Hrun.
  destruct (run_PAll_cases _ _ _ _ _ _ _ (fetches_wp fuel selected) Hrun)
    as [[Hpool _] | (trA & vs & sched2 & trB & Heq & HA & _ & Hk)].
  - exfalso. apply pool_events_no_all in Hpool.
    apply (no_all_not_in tr cons Hpool). subst tr. apply in_elt.
  - rewrite Htr in Heq.
    destruct (first_all_unique _ _ _ _ _ _ Heq Hno (pool_events_no_all _ _ HA))
      as (-> & -> & ->).
    destruct (mapM_derivePatch_undefined artefacts vs Hundef) as [e [He Hname]].
    rewrite He, run_throw in Hk. injection Hk as <- <-.
    split; [eauto |]. split; [reflexivity |].
    intros q Hq. subst tr. rewrite requests_app in Hq. simpl in Hq.
    rewrite app_nil_r in Hq. apply in_requests in Hq.
    rewrite Forall_forall in HA. exact (HA _ Hq q eq_refl).
Qed.

End Enabler.

(** ** The precondition on the discovered connections *)

Lemma run_exit (st : style) (msg : string) (code : Z) (sched : schedule) :
  run (PLog st msg (PExit code)) sched = ([EvLog st msg; EvExit code], SExit code).
Proof.
  destruct (run (PLog st msg (PExit code)) sched) as [tr s] eqn:Hrun.
  destruct (run_PLog _ _ _ _ _ _ Hrun) as [tr' [-> Hk]].
  rewrite run_terminal in Hk by exact I. injection Hk as <- <-. reflexivity.
Qed.

(** With an empty list for one of the strategies, [validateConnections] is
    one line on the console followed by [process.exit(0)], whatever comes
    after it in the caller. *)
Lemma validateConnections_exits (ad sms email : list value) (f : value -> prog) :
  ad = [] \/ sms = [] \/ email = [] ->
  exists msg,
    In msg [ad_required; sms_required; email_required] /\
    bind (validateConnections ad sms email) f = PLog red_bold msg (PExit 0).
Proof.
  intros H. unfold validateConnections.
  destruct ad as [| a ad].
  { exists ad_required. simpl. auto. }
  destruct sms as [| b sms].
  { exists sms_required. simpl. auto. }
  destruct email as [| c email].
  { exists email_required. simpl. auto. }
  destruct H as [H | [H | H]]; discriminate H.
Qed.

Section Setup.

Variable JSON_parse : value -> result value.
Variable path_join : string -> string -> string.
Variable normalizeUrl : string -> string.
Variable dirname : string.

Lemma discovery_wp (config : Config) :
  Forall2 (fun Q t => twp (no_method POST) Q [] t)
          [any_result; any_result; any_result]
          (map (findConnections JSON_parse path_join config) strategies).
Proof.
  assert (H : forall strategy,
             twp (no_method POST) any_result []
                 (findConnections JSON_parse path_join config strategy)).
  { intros strategy. unfold findConnections, await. simpl. split.
    - intros q Hq. injection Hq as <-. discriminate.
    - intros [resp | e]; [| exact I].
      destruct (JSON_parse resp) as [connections |]; [| exact I].
      destruct (js_map _ connections); exact I. }
  unfold strategies. simpl map. repeat constructor; apply H.
Qed.

Lemma setup_no_connections (config : Config) (fuel : nat) (sched : schedule)
    (tr tr1 tr2 : list event) (s : state) (found : list value) :
  run (setup JSON_parse path_join dirname config fuel) sched = (tr, s) ->
  tr = tr1 ++ EvAll found :: tr2 ->
  no_all tr1 ->
  In (VArr []) found ->
  s = SExit 0 /\
  (exists msg,
      In msg [ad_required; sms_required; email_required] /\
      tr2 = [EvLog red_bold msg; EvExit 0]) /\
  (forall q, In q (requests tr) -> method q <> POST).
Proof.
  intros Hrun Htr Hno Hempty. unfold setup in Hrun.
  destruct (run_PLog _ _ _ _ _ _ Hrun) as [tr' [Heq Hall]].
  rewrite Heq in Htr.
  destruct (first_all_skip _ _ _ _ _ Htr eq_refl Hno) as [tr1' [-> [Htr' Hno']]].
  destruct (run_PAll_cases _ _ _ _ _ _ _ (discovery_wp config) Hall)
    as [[Hpool _] | (trA & vs & sched2 & trB & HeqA & HA & Hvs & Hk)].
  - exfalso. apply pool_events_no_all in Hpool.
    apply (no_all_not_in tr' found Hpool). rewrite Htr'. apply in_elt.
  - rewrite Htr' in HeqA.
    destruct (first_all_unique _ _ _ _ _ _ HeqA Hno' (pool_events_no_all _ _ HA))
      as (-> & -> & ->).
    inversion Hvs as [| Q0 ad Qs0 vs0 _ Hvs0]; subst.
    inversion Hvs0 as [| Q1 sms Qs1 vs1 _ Hvs1]; subst.
    inversion Hvs1 as [| Q2 email Qs2 vs2 _ Hvs2]; subst.
    inversion Hvs2; subst.
    cbn [nth] in Hk.
    destruct (validateConnections_exits (elements ad) (elements sms)
                (elements email)
                (fun selectedConnections =>
                   bind (createArtefacts path_join dirname config fuel)
                     (fun artefacts =>
                        bind (enableConnections JSON_parse config fuel artefacts
                                (properties selectedConnections))
                          (fun _ =>
                             bind (generateEnv path_join dirname config artefacts)
                               (fun _ =>
                                  PLog bgGreen_bold
                                    "Done. Copy the generated .env files in respective folders."
                                    (PRet VUndef))))))
      as [msg [Hmsg Hbind]].
    { destruct Hempty as [-> | [-> | [-> | []]]]; simpl; auto. }
    rewrite Hbind, run_exit in Hk. injection Hk as <- <-.
    split; [reflexivity |]. split; [eauto |].
    intros q Hq. simpl in Hq.
    rewrite requests_app in Hq. simpl in Hq. rewrite app_nil_r in Hq.
    apply in_requests in Hq.
    rewrite Forall_forall in HA. exact (HA _ Hq q eq_refl).
Qed.

(** C5: when the discovery ends with no connection for one of the three
    strategies, [runSetup] prints one of the three messages and leaves with
    [process.exit(0)] at once; no creation request (POST) has been sent
    before, and the run is over. *)
Theorem missing_connection_exits_before_creation :
  forall (fuel : nat) (sched : schedule) (tr tr1 tr2 : list event) (s : state)
         (found : list value),
    run (runSetup JSON_parse path_join normalizeUrl dirname fuel) sched = (tr, s) ->
    tr = tr1 ++ EvAll found :: tr2 ->
    no_all tr1 ->
    In (VArr []) found ->
    s = SExit 0 /\
    (exists msg,
        In msg [ad_required; sms_required; email_required] /\
        tr2 = [EvLog red_bold msg; EvExit 0]) /\
    (forall q, In q (requests tr) -> method q <> POST).
Proof.
  intros fuel sched tr tr1 tr2 s found Hrun Htr Hno Hempty.
  unfold runSetup in Hrun.
  destruct (run_PLog _ _ _ _ _ _ Hrun) as [tra [Ha Hrun1]].
  destruct (run_PLog _ _ _ _ _ _ Hrun1) as [trb [Hb Hrun2]].
  subst tra. rewrite Ha in Htr.
  destruct (first_all_skip _ _ _ _ _ Htr eq_refl Hno) as [t1 [-> [Htr1 Hno1]]].
  destruct (first_all_skip _ _ _ _ _ Htr1 eq_refl Hno1) as [t2 [-> [Htr2 Hno2]]].
  unfold getAndValidateConfig, pawait in Hrun2. cbn [bind] in Hrun2.
  destruct (run_PAwait _ _ _ _ _ Hrun2)
    as [[Hstuck _] | (r & sched2 & trc & Hc & Hrun3)].
  - exfalso. rewrite Hstuck in Htr2.
    destruct t2 as [| x [| y t2]]; discriminate Htr2.
  - rewrite Hc in Htr2.
    destruct (first_all_skip _ _ _ _ _ Htr2 eq_refl Hno2) as [t3 [-> [Htr3 Hno3]]].
    destruct (first_all_skip _ _ _ _ _ Htr3 eq_refl Hno3) as [t4 [-> [Htr4 Hno4]]].
    assert (Hsetup : (exists e, trc = [] /\ s = SThrow e) \/
                     exists config,
                       run (setup JSON_parse path_join dirname config fuel) sched2
                       = (trc, s)).
    { destruct r as [answers | e].
      - destruct (get answers "portal_url") as [u | e].
        + destruct answers; cbn [bind] in Hrun3; eauto.
        + cbn [bind] in Hrun3. rewrite run_throw in Hrun3.
          injection Hrun3 as <- <-. eauto.
      - cbn [bind] in Hrun3. rewrite run_throw in Hrun3.
        injection Hrun3 as <- <-. eauto. }
    destruct Hsetup as [[e [-> _]] | [config Hrun4]].
    + exfalso. destruct t4; discriminate Htr4.
    + destruct (setup_no_connections config fuel sched2 trc t4 tr2 s found
                  Hrun4 Htr4 Hno4 Hempty) as [Hs [Hmsg Hreq]].
      split; [assumption |]. split; [assumption |].
      intros q Hq. rewrite Ha, Hc in Hq. simpl in Hq. exact (Hreq q Hq).
Qed.

End Setup.

(** * Examples *)



Lemma grant_uses_backend_client_id_witness :
  exists backend client_id,
    In (EvSettle (Rp (create_request demo_config "clients" backend_payload))
                 (Resolved backend))
       (firstn 18 (fst demo_provision_run)) /\
    get backend "client_id" = Ok client_id /\
    create_request demo_config "client-grants"
      (grant_payload demo_config (VStr "B1"))
    = create_request demo_config "client-grants"
        (grant_payload demo_config client_id) /\
    method (create_request demo_config "client-grants"
              (grant_payload demo_config (VStr "B1"))) = POST /\
    exists payload,
      json (create_request demo_config "client-grants"
              (grant_payload demo_config (VStr "B1"))) = Some payload /\
      get payload "client_id" = Ok client_id /\
      get payload "audience" = Ok (VStr "https://t.example.com/api/v2/").
Proof.
  apply (grant_uses_backend_client_id demo_join "." demo_config 2
           demo_provision_schedule (fst demo_provision_run)
           (firstn 18 (fst demo_provision_run)) [] (snd demo_provision_run)).
  - apply surjective_pairing.
  - vm_compute. reflexivity.
  - reflexivity.
Defined.


(** The backend client has been created, the file of the portal's login
    page has not been read yet: the four creations are not over, and no
    grant request has been sent. *)
Example grant_waits_for_portal :
  requests (fst (run (createArtefacts demo_join "." demo_config 2)
                     [(1, Resolved demo_backend);
                      (2, Resolved (VObj [("id", VStr "api_1")]));
                      (3, Resolved (VStr "function () {}"));
                      (3, Resolved (VObj [("id", VStr "rul_1")]))]))
  = [create_request demo_config "clients" backend_payload;
     create_request demo_config "resource-servers" api_payload;
     create_request demo_config "rules" (rule_payload (VStr "function () {}"))].
Proof. vm_compute. reflexivity. Qed.

Lemma undefined_connection_stops_patching_witness :
  (exists e, snd demo_enable_run = SThrow e /\ err_name e = "TypeError") /\
  @nil event = [] /\
  (forall q, In q (requests (fst demo_enable_run)) -> method q <> PATCH).
Proof.
  apply (undefined_connection_stops_patching demo_parse demo_config 2
           demo_artefacts
           [("selected_ad_connection", VStr "con_1");
            ("selected_sms_connection", VStr "con_2")]
           [(1, Rejected demo_500); (0, Resolved (VStr demo_connection_text))]
           (fst demo_enable_run) (firstn 5 (fst demo_enable_run)) []
           (snd demo_enable_run) [demo_connection; VUndef]).
  - apply surjective_pairing.
  - vm_compute. reflexivity.
  - vm_compute. reflexivity.
  - simpl. auto.
Defined.

Lemma missing_connection_exits_before_creation_witness :
  snd demo_setup_run = SExit 0 /\
  (exists msg,
      In msg [ad_required; sms_required; email_required] /\
      skipn 12 (fst demo_setup_run) = [EvLog red_bold msg; EvExit 0]) /\
  (forall q, In q (requests (fst demo_setup_run)) -> method q <> POST).
Proof.
  apply (missing_connection_exits_before_creation demo_parse demo_join
           (fun u => u) "." 2
           [(0, Resolved demo_answers);
            (0, Resolved (VStr demo_list_text));
            (2, Resolved (VStr demo_list_text));
            (1, Resolved (VStr "[]"))]
           (fst demo_setup_run) (firstn 11 (fst demo_setup_run))
           (skipn 12 (fst demo_setup_run)) (snd demo_setup_run)
           [VArr [VObj [("name", VStr "corp-ad"); ("value", VStr "con_1")]];
            VArr [];
            VArr [VObj [("name", VStr "corp-ad"); ("value", VStr "con_1")]]]).
  - apply surjective_pairing.
  - vm_compute. reflexivity.
  - vm_compute. reflexivity.
  - simpl. auto.
Defined.

(** The discovery of the SMS connections is rate limited: [Promise.all]
    rejects with that failure, [runSetup] is over, and the three discovery
    requests are all that was sent. *)
Example discovery_rate_limited :
  let r := run (setup demo_parse demo_join "." demo_config 2)
               [(1, Rejected demo_429);
                (1, Resolved VUndef);
                (0, Resolved (VStr demo_list_text));
                (2, Resolved (VStr demo_list_text))] in
  requests (fst r) = map (connections_request demo_join demo_config) strategies /\
  waits (fst r) = [] /\
  In (EvAllRejected demo_429) (fst r) /\
  match snd r with SLost e _ => e = demo_429 | _ => False end.
Proof. vm_compute. intuition. Qed.

(** * Further properties of the script *)

(** ** Discovery: malformed responses *)

Section DiscoveryEdges.

Variable JSON_parse : value -> result value.
Variable path_join : string -> string -> string.
Variable config : Config.

Lemma mapM_nullish (f : value -> result value) (conns : list value) :
  (forall c, nullish c = true -> exists e, f c = Err e /\ err_name e = "TypeError") ->
  (forall c e, f c = Err e -> err_name e = "TypeError") ->
  Exists (fun c => nullish c = true) conns ->
  exists e, mapM f conns = Err e /\ err_name e = "TypeError".
Proof.
  intros Hnull Herr. induction 1 as [c conns Hc | c conns _ IH]; simpl.
  - destruct (Hnull c Hc) as [e [-> He]]. exists e. auto.
  - destruct (f c) as [v | e] eqn:Hf; simpl.
    + destruct IH as [e [-> He]]. exists e. auto.
    + exists e. eauto.
Qed.

(** X1: a response that parses to something else than an array, or to an
    array with a [null] element, makes [findConnections] throw a
    [TypeError] to its caller; nothing is returned. *)
Theorem findConnections_malformed :
  forall (strategy : string) (resp parsed : value) (rest : list settle),
    JSON_parse resp = Ok parsed ->
    (forall conns, parsed = VArr conns -> Exists (fun c => nullish c = true) conns) ->
    exists e,
      err_name e = "TypeError" /\
      trun (findConnections JSON_parse path_join config strategy)
           (Resolved resp :: rest) =
        ([EvCall (Rp (connections_request path_join config strategy));
          EvSettle (Rp (connections_request path_join config strategy))
                   (Resolved resp)],
         TThrow e).
Proof.
  intros strategy resp parsed rest Hparse Hbad.
  assert (Hmap : exists e,
             js_map (fun c => name <- get c "name" ;; id <- get c "id" ;;
                              Ok (VObj [("name", name); ("value", id)])) parsed
             = Err e /\ err_name e = "TypeError").
  { destruct parsed as [| | b | n | s | conns | fields];
      try (eexists; split; reflexivity).
    unfold js_map.
    destruct (mapM_nullish
                (fun c => name <- get c "name" ;; id <- get c "id" ;;
                          Ok (VObj [("name", name); ("value", id)]))
                conns) as [e [He Hname]].
    - intros c Hc. destruct c; try discriminate Hc; eexists; split; reflexivity.
    - intros c e. destruct c; simpl; intros H; try discriminate H;
        injection H as <-; reflexivity.
    - apply Hbad. reflexivity.
    - rewrite He. exists e. auto. }
  destruct Hmap as [e [Hmap He]]. exists e. split; [assumption |].
  unfold trun, findConnections, await. cbn [tstart trun_from].
  rewrite Hparse, Hmap. cbn [tstart].
  rewrite trun_from_settled by exact I. reflexivity.
Qed.

End DiscoveryEdges.

Lemma findConnections_malformed_witness :
  exists e,
    err_name e = "TypeError" /\
    trun (findConnections demo_parse demo_join demo_config "ad")
         [Resolved (VStr demo_connection_text)] =
      ([EvCall (Rp (connections_request demo_join demo_config "ad"));
        EvSettle (Rp (connections_request demo_join demo_config "ad"))
                 (Resolved (VStr demo_connection_text))],
       TThrow e).
Proof.
  apply (findConnections_malformed demo_parse demo_join demo_config "ad"
           (VStr demo_connection_text) demo_connection []).
  - reflexivity.
  - intros conns H. discriminate H.
Defined.

(** ** Patch derivation: when it fails, and what it does without a list *)

Lemma get_nullish (v : value) (name : string) :
  nullish v = true -> get v name = Err (typeError_read name v).
Proof.
  destruct v; simpl; intros H; try discriminate H; reflexivity.
Qed.

(** X2: the derivation of a patch throws exactly when the fetched
    connection, the bundle, its portal or its backend is [undefined] or
    [null]; what it throws is a [TypeError]. *)
Theorem derivePatch_fails_iff :
  forall (artefacts c : value),
    ((exists e, derivePatch artefacts c = Err e) <->
     (nullish c = true \/ nullish artefacts = true \/
      nullish (field "portal" artefacts) = true \/
      nullish (field "backend" artefacts) = true)) /\
    (forall e, derivePatch artefacts c = Err e -> err_name e = "TypeError").
Proof.
  intros artefacts c. split; [| intros e; apply derivePatch_error].
  unfold derivePatch.
  destruct (nullish c) eqn:Hc.
  { rewrite (get_nullish c "id" Hc). cbn [rbind]. split; eauto. }
  rewrite (get_field c "id" Hc), (get_field c "enabled_clients" Hc),
          (get_field c "strategy" Hc). cbn [rbind].
  destruct (nullish artefacts) eqn:Ha.
  { rewrite (get_nullish artefacts "portal" Ha). cbn [rbind]. split; eauto. }
  rewrite (get_field artefacts "portal" Ha). cbn [rbind].
  destruct (nullish (field "portal" artefacts)) eqn:Hp.
  { rewrite (get_nullish _ "client_id" Hp). cbn [rbind]. split; eauto 6. }
  rewrite (get_field _ "client_id" Hp). cbn [rbind].
  rewrite (get_field artefacts "backend" Ha). cbn [rbind].
  destruct (nullish (field "backend" artefacts)) eqn:Hb.
  { rewrite (get_nullish _ "client_id" Hb). cbn [rbind]. split; eauto 6. }
  rewrite (get_field _ "client_id" Hb). cbn [rbind].
  split.
  - intros [e He]. discriminate He.
  - intros [H | [H | [H | H]]]; discriminate H.
Qed.

(** X3: when [enabled_clients] of the fetched connection is not an array
    (absent, for one), the patch does not start from an empty list: the
    value itself becomes the first entry, before the two client ids. *)
Theorem derivePatch_without_list :
  forall (artefacts c portal backend portal_id backend_id enabled : value),
    get c "enabled_clients" = Ok enabled ->
    (forall l, enabled <> VArr l) ->
    get artefacts "portal" = Ok portal ->
    get portal "client_id" = Ok portal_id ->
    get artefacts "backend" = Ok backend ->
    get backend "client_id" = Ok backend_id ->
    exists p,
      derivePatch artefacts c = Ok p /\
      get (p_patch p) "enabled_clients"
        = Ok (VArr [enabled; portal_id; backend_id]).
Proof.
  intros artefacts c portal backend portal_id backend_id enabled
         Hec Harr Hportal Hpid Hbackend Hbid.
  assert (Hc : nullish c = false) by (destruct c; try reflexivity; discriminate).
  unfold derivePatch.
  rewrite (get_field c "id" Hc); cbn [rbind].
  rewrite Hec; cbn [rbind]. rewrite Hportal; cbn [rbind].
  rewrite Hpid; cbn [rbind]. rewrite Hbackend; cbn [rbind].
  rewrite Hbid; cbn [rbind]. rewrite (get_field c "strategy" Hc); cbn [rbind].
  eexists. split; [reflexivity |]. cbn [p_patch].
  destruct enabled; try reflexivity. exfalso. eapply Harr. reflexivity.
Qed.

Lemma derivePatch_without_list_witness :
  exists p,
    derivePatch demo_artefacts (VObj [("id", VStr "con_3"); ("strategy", VStr "sms")])
      = Ok p /\
    get (p_patch p) "enabled_clients" = Ok (VArr [VUndef; VStr "P1"; VStr "B1"]).
Proof.
  apply (derivePatch_without_list demo_artefacts
           (VObj [("id", VStr "con_3"); ("strategy", VStr "sms")])
           demo_portal demo_backend (VStr "P1") (VStr "B1") VUndef);
    try reflexivity.
  intros l H. discriminate H.
Defined.

(** ** The environment files *)

Lemma append_assoc' (a b c : string) : (a +++ b) +++ c = a +++ b +++ c.
Proof.
  induction a as [| x a IH]; simpl; [reflexivity | rewrite IH; reflexivity].
Qed.

Lemma no_newline_cons (x : ascii) (a : string) :
  no_newline (String x a) = true ->
  Ascii.eqb x (ascii_of_nat 10) = false /\ no_newline a = true.
Proof.
  unfold no_newline. simpl. rewrite negb_orb, andb_true_iff, negb_true_iff. tauto.
Qed.

Lemma no_newline_app (a b : string) :
  no_newline a = true -> no_newline b = true -> no_newline (a +++ b) = true.
Proof.
  induction a as [| x a IH]; simpl; intros Ha Hb; [assumption |].
  apply no_newline_cons in Ha. destruct Ha as [Hx Ha].
  unfold no_newline in *. simpl. rewrite Hx. simpl. auto.
Qed.

Lemma lines_from_line (a cur rest : string) :
  no_newline a = true ->
  lines_from cur (a +++ newline +++ rest) = (cur +++ a) :: lines_from "" rest.
Proof.
  revert cur. induction a as [| x a IH]; intros cur Ha.
  - simpl. replace (cur +++ "") with cur; [reflexivity |].
    clear. induction cur as [| c cur IH]; simpl; [| rewrite <- IH]; reflexivity.
  - apply no_newline_cons in Ha. destruct Ha as [Hx Ha].
    cbn [String.append lines_from]. rewrite Hx, (IH _ Ha).
    rewrite append_assoc'. reflexivity.
Qed.

Section EnvFiles.

Variable path_join : string -> string -> string.
Variable dirname : string.
Variable config : Config.

(** X4: for every bundle whose portal and backend can be read, and whose
    two ids and secret are values that [toString] prints as JavaScript
    does ([printable]: strings, safe integers, [undefined] and the like),
    the two blocks are the seven lines of the templates with the values
    put in; a missing [client_id] or [client_secret] is not an error, it
    is written as the word [undefined]. *)
Theorem env_blocks_rendered :
  forall (artefacts portal backend portal_id backend_id secret : value),
    get artefacts "portal" = Ok portal ->
    get portal "client_id" = Ok portal_id ->
    get artefacts "backend" = Ok backend ->
    get backend "client_id" = Ok backend_id ->
    get backend "client_secret" = Ok secret ->
    printable portal_id = true ->
    printable backend_id = true ->
    printable secret = true ->
    no_newline (domain config) = true ->
    no_newline (toString portal_id) = true ->
    no_newline (toString backend_id) = true ->
    no_newline (toString secret) = true ->
    exists front back,
      client_env config artefacts = Ok front /\
      server_env config artefacts = Ok back /\
      lines front = ["REACT_APP_domain=" +++ domain config;
                     "REACT_APP_clientID=" +++ toString portal_id;
                     "REACT_APP_audience=urn:self-service-portal-api"] /\
      lines back = ["NON_INTERACTIVE_CLIENT_ID=" +++ toString backend_id;
                    "NON_INTERACTIVE_CLIENT_SECRET=" +++ toString secret;
                    "DOMAIN=" +++ domain config;
                    "AUDIENCE=urn:self-service-portal-api"].
Proof.
  intros artefacts portal backend portal_id backend_id secret
         Hportal Hpid Hbackend Hbid Hsecret _ _ _ Hd Hp Hb Hs.
  unfold client_env, server_env.
  rewrite Hportal; cbn [rbind]. rewrite Hpid; cbn [rbind].
  rewrite Hbackend; cbn [rbind]. rewrite Hbid; cbn [rbind].
  rewrite Hsecret; cbn [rbind].
  eexists. eexists. split; [reflexivity |]. split; [reflexivity |].
  unfold lines. split.
  - rewrite <- (append_assoc' "REACT_APP_domain=" (domain config)).
    rewrite lines_from_line by (apply no_newline_app; [reflexivity | assumption]).
    rewrite <- (append_assoc' "REACT_APP_clientID=" (toString portal_id)).
    rewrite lines_from_line by (apply no_newline_app; [reflexivity | assumption]).
    reflexivity.
  - rewrite <- (append_assoc' "NON_INTERACTIVE_CLIENT_ID=" (toString backend_id)).
    rewrite lines_from_line by (apply no_newline_app; [reflexivity | assumption]).
    rewrite <- (append_assoc' "NON_INTERACTIVE_CLIENT_SECRET=" (toString secret)).
    rewrite lines_from_line by (apply no_newline_app; [reflexivity | assumption]).
    rewrite <- (append_assoc' "DOMAIN=" (domain config)).
    rewrite lines_from_line by (apply no_newline_app; [reflexivity | assumption]).
    reflexivity.
Qed.

(** X5: when the portal or the backend of the bundle is [undefined] or
    [null] (a creation that failed and was swallowed), [generateEnv] throws
    a [TypeError] before it writes anything: neither file is written, not
    even the one whose values are all there. *)
Theorem generateEnv_writes_nothing_without_client :
  forall (artefacts : value) (sched : schedule),
    nullish (field "portal" artefacts) = true \/
    nullish (field "backend" artefacts) = true ->
    exists e,
      err_name e = "TypeError" /\
      run (generateEnv path_join dirname config artefacts) sched = ([], SThrow e).
Proof.
  intros artefacts sched Hmissing.
  unfold generateEnv, client_env, server_env.
  destruct (nullish artefacts) eqn:Ha.
  { rewrite (get_nullish artefacts "portal" Ha). cbn [rbind].
    eexists. split; [| apply run_throw]. reflexivity. }
  rewrite !(get_field artefacts _ Ha). cbn [rbind].
  destruct (nullish (field "portal" artefacts)) eqn:Hp.
  - rewrite (get_nullish _ "client_id" Hp). cbn [rbind].
    eexists. split; [| apply run_throw]. reflexivity.
  - rewrite (get_field _ "client_id" Hp). cbn [rbind].
    destruct Hmissing as [H | Hb]; [discriminate H |].
    rewrite (get_nullish _ "client_id" Hb). cbn [rbind].
    eexists. split; [| apply run_throw]. reflexivity.
Qed.

(** X6: the files are written one after the other: when the writing of
    [client.env] fails, [generateEnv] throws that failure and
    [server.env] is never written. *)
Theorem generateEnv_stops_at_failed_write :
  forall (artefacts : value) (front back : string) (e : error) (rest : schedule),
    client_env config artefacts = Ok front ->
    server_env config artefacts = Ok back ->
    run (generateEnv path_join dirname config artefacts) ((0, Rejected e) :: rest) =
      ([EvCall (WriteFile (path_join dirname "client.env") front);
        EvSettle (WriteFile (path_join dirname "client.env") front) (Rejected e)],
       SThrow e).
Proof.
  intros artefacts front back e rest Hf Hb.
  unfold generateEnv. rewrite Hf, Hb.
  unfold run, pawait. cbn [pstart run_from deliver].
  assert (H : run_from (SThrow e) rest = ([], SThrow e)).
  { clear. induction rest as [| [j r] rest IH]; simpl; auto. }
  rewrite H. reflexivity.
Qed.

End EnvFiles.

Lemma env_blocks_rendered_witness :
  exists front back,
    client_env demo_config
      (VObj [("portal", VObj [("name", VStr "Self Service Portal")]);
             ("backend", VObj [("client_id", VNum 7)])]) = Ok front /\
    server_env demo_config
      (VObj [("portal", VObj [("name", VStr "Self Service Portal")]);
             ("backend", VObj [("client_id", VNum 7)])]) = Ok back /\
    lines front = ["REACT_APP_domain=t.example.com";
                   "REACT_APP_clientID=undefined";
                   "REACT_APP_audience=urn:self-service-portal-api"] /\
    lines back = ["NON_INTERACTIVE_CLIENT_ID=7";
                  "NON_INTERACTIVE_CLIENT_SECRET=undefined";
                  "DOMAIN=t.example.com";
                  "AUDIENCE=urn:self-service-portal-api"].
Proof.
  apply (env_blocks_rendered demo_config
           (VObj [("portal", VObj [("name", VStr "Self Service Portal")]);
                  ("backend", VObj [("client_id", VNum 7)])])
           (VObj [("name", VStr "Self Service Portal")])
           (VObj [("client_id", VNum 7)])
           VUndef (VNum 7) VUndef); reflexivity.
Defined.

Lemma generateEnv_writes_nothing_without_client_witness :
  exists e,
    err_name e = "TypeError" /\
    run (generateEnv demo_join "." demo_config
           (VObj [("portal", demo_portal); ("backend", VUndef)]))
        [(0, Resolved VUndef)] = ([], SThrow e).
Proof.
  apply (generateEnv_writes_nothing_without_client demo_join "." demo_config
           (VObj [("portal", demo_portal); ("backend", VUndef)])
           [(0, Resolved VUndef)]).
  right. reflexivity.
Defined.

Lemma generateEnv_stops_at_failed_write_witness :
  exists front,
    run (generateEnv demo_join "." demo_config demo_artefacts)
        [(0, Rejected demo_500); (0, Resolved VUndef)] =
      ([EvCall (WriteFile (demo_join "." "client.env") front);
        EvSettle (WriteFile (demo_join "." "client.env") front) (Rejected demo_500)],
       SThrow demo_500).
Proof.
  eexists.
  eapply (generateEnv_stops_at_failed_write demo_join "." demo_config
            demo_artefacts _ _ demo_500 [(0, Resolved VUndef)]); reflexivity.
Defined.

(** ** What a wrapper can throw *)

Lemma tstart_rethrows (P : io -> Prop) (H : list event) :
  forall t, rethrows P t ->
    srethrows P H (snd (tstart t)) /\ Forall member_event (fst (tstart t)).
Proof.
  induction t as [v | e | st msg k IH | op k IH | ]; simpl; intros Ht.
  - split; [exact I | constructor].
  - destruct Ht.
  - destruct (IH Ht) as [Hs Hev]. destruct (tstart k) as [ev c]. simpl in *.
    split; [assumption | constructor; [exact I | assumption]].
  - split; [assumption | repeat constructor].
  - split; [exact I | constructor].
Qed.

Lemma srethrows_app (P : io -> Prop) (H ev : list event) (c : tstate) :
  srethrows P H c -> srethrows P (H ++ ev) c.
Proof.
  destruct c; simpl; auto.
  intros [op [Hop Hin]]. exists op. split; [assumption |].
  apply in_or_app. left. assumption.
Qed.

(** One completion delivered to a suspended task. *)
Lemma resume_rethrows (P : io -> Prop) (H : list event) op k r :
  srethrows P H (TWait op k) ->
  srethrows P (H ++ EvSettle op r :: fst (tstart (k r))) (snd (tstart (k r))) /\
  Forall member_event (fst (tstart (k r))).
Proof.
  simpl. intros Hk.
  destruct (Hk r) as [Hr | (e & -> & Hop & Hthrow)].
  - destruct (tstart_rethrows P (H ++ EvSettle op r :: fst (tstart (k r))) _ Hr).
    split; assumption.
  - rewrite Hthrow. simpl. split; [| constructor].
    exists op. split; [assumption |]. apply in_or_app. right. left. reflexivity.
Qed.

Lemma trun_from_rethrows (P : io -> Prop) :
  forall script H c tr c' e,
    srethrows P H c ->
    trun_from c script = (tr, c') ->
    c' = TThrow e ->
    exists op, P op /\ In (EvSettle op (Rejected e)) (H ++ tr).
Proof.
  induction script as [| r script IH]; simpl; intros H c tr c' e Hc Hrun He.
  - injection Hrun as <- <-. subst c. rewrite app_nil_r. exact Hc.
  - destruct c as [v | e0 | op k |].
    + injection Hrun as <- <-. discriminate He.
    + injection Hrun as <- <-. injection He as ->.
      rewrite app_nil_r. exact Hc.
    + destruct (resume_rethrows P H op k r Hc) as [Hc' _].
      destruct (tstart (k r)) as [ev c0]. simpl in Hc'.
      destruct (trun_from c0 script) as [tr0 c1] eqn:Hr.
      injection Hrun as <- <-.
      destruct (IH _ _ _ _ e Hc' Hr He) as [op' [Hop Hin]].
      exists op'. split; [assumption |].
      rewrite <- app_assoc in Hin. exact Hin.
    + injection Hrun as <- <-. discriminate He.
Qed.

Lemma trun_rethrows (P : io -> Prop) (t : task) (script : list settle) (e : error) :
  rethrows P t ->
  snd (trun t script) = TThrow e ->
  exists op, P op /\ In (EvSettle op (Rejected e)) (fst (trun t script)).
Proof.
  intros Ht He. rewrite trun_split in *. cbn [fst snd] in *.
  destruct (tstart_rethrows P (fst (tstart t)) t Ht) as [Hc _].
  exact (trun_from_rethrows P script (fst (tstart t)) (snd (tstart t)) _ _ e Hc
           (surjective_pairing _) He).
Qed.

Section WrapperErrors.

Variable JSON_parse : value -> result value.
Variable config : Config.

Lemma handleError_rethrows (err : error) (again : unit -> task) :
  rethrows is_timer (again tt) -> rethrows is_timer (handleError err again).
Proof.
  intros Hagain. unfold handleError. destruct (is_429 err); simpl; [| exact I].
  intros [v | e]; [left; assumption |].
  right. exists e. split; [reflexivity |]. split; [eexists |]; reflexivity.
Qed.

Lemma createEntity_rethrows (entity : string) (payload : value) :
  forall fuel, rethrows is_timer (createEntity config fuel entity payload).
Proof.
  induction fuel as [| fuel IH]; simpl; [exact I |].
  intros [v | err]; left; [exact I | apply handleError_rethrows, IH].
Qed.

Lemma getEntity_rethrows (entity : string) (id : value) :
  forall fuel, rethrows is_timer (getEntity JSON_parse config fuel entity id).
Proof.
  induction fuel as [| fuel IH]; simpl; [exact I |].
  intros [resp | err]; left; [| apply handleError_rethrows, IH].
  destruct (JSON_parse resp); [exact I | apply handleError_rethrows, IH].
Qed.

Lemma patchEntity_rethrows (entity : string) (id payload : value) :
  forall fuel, rethrows is_timer (patchEntity config fuel entity id payload).
Proof.
  induction fuel as [| fuel IH]; simpl; [exact I |].
  intros [v | err]; left; [exact I | apply handleError_rethrows, IH].
Qed.



End WrapperErrors.

Lemma timers_fire_decide (tr : list event) :
  forallb (fun ev => match ev with
                     | EvSettle (Delay _) (Rejected _) => false
                     | _ => true
                     end) tr = true ->
  timers_fire tr.
Proof.
  intros H ms e Hin. rewrite forallb_forall in H.
  specialize (H _ Hin). discriminate H.
Qed.



(** ** The shape of the runs of a [Promise.all] *)

Lemma tstart_events (t : task) : Forall member_event (fst (tstart t)).
Proof.
  induction t as [v | e | st msg k IH | op k IH | ]; simpl;
    try (repeat constructor).
  destruct (tstart k) as [ev c]. simpl in *. constructor; [exact I | assumption].
Qed.

Lemma pool_start_events (ps : list task) :
  Forall member_event (fst (pool_start ps)).
Proof.
  induction ps as [| t ps IH]; simpl; [constructor |].
  pose proof (tstart_events t) as Ht.
  destruct (tstart t) as [ev c]. destruct (pool_start ps) as [evs cs].
  simpl in *. apply Forall_app. split; assumption.
Qed.

Lemma nth_error_update {A} (x : A) :
  forall l j y, nth_error l j = Some y ->
    forall P : A -> Prop, Forall P l -> P x -> Forall P (update j x l).
Proof.
  induction l as [| a l IH]; intros j y Hj P Hl Hx; destruct j; simpl in *;
    try discriminate.
  - inversion Hl; subst. constructor; assumption.
  - inversion Hl; subst. constructor; [assumption | eauto].
Qed.

Lemma pool_deliver_rethrows (P : io -> Prop) (H : list event) cs j r ev cs' :
  Forall (srethrows P H) cs ->
  pool_deliver cs j r = Some (ev, cs') ->
  Forall (srethrows P (H ++ ev)) cs' /\ Forall member_event ev.
Proof.
  unfold pool_deliver. intros Hcs Hd.
  destruct (nth_error cs j) as [[v | e | op k |] |] eqn:Hj; try discriminate Hd.
  assert (Hc : srethrows P H (TWait op k)).
  { rewrite Forall_forall in Hcs. apply Hcs. eapply nth_error_In. eassumption. }
  destruct (resume_rethrows P H op k r Hc) as [Hc' Hev].
  destruct (tstart (k r)) as [ev0 c0]. simpl in *.
  injection Hd as <- <-.
  split; [| constructor; [exact I | assumption]].
  eapply nth_error_update; [eassumption | | assumption].
  eapply Forall_impl; [| exact Hcs]. intros c. apply srethrows_app.
Qed.

Lemma pool_start_rethrows (P : io -> Prop) (H : list event) (ps : list task) :
  Forall (rethrows P) ps -> Forall (srethrows P H) (snd (pool_start ps)).
Proof.
  induction 1 as [| t ps Ht _ IH]; simpl; [constructor |].
  destruct (tstart_rethrows P H t Ht) as [Hc _].
  destruct (tstart t) as [ev c]. destruct (pool_start ps) as [evs cs].
  simpl in *. constructor; assumption.
Qed.

Lemma resolve_rejected (P : io -> Prop) (H : list event) (cs : list tstate) e :
  Forall (srethrows P H) cs ->
  resolve cs = AllRejected e ->
  exists op, P op /\ In (EvSettle op (Rejected e)) H.
Proof.
  induction 1 as [| c cs Hc _ IH]; simpl; intros Hr; [discriminate Hr |].
  destruct c as [v | e0 | op k |].
  - destruct (resolve cs); try discriminate Hr. injection Hr as ->. auto.
  - injection Hr as ->. exact Hc.
  - destruct (resolve cs); try discriminate Hr. injection Hr as ->. auto.
  - destruct (resolve cs); try discriminate Hr. injection Hr as ->. auto.
Qed.

Lemma pool_deliver_events cs j r ev cs' :
  pool_deliver cs j r = Some (ev, cs') -> Forall member_event ev.
Proof.
  unfold pool_deliver.
  destruct (nth_error cs j) as [[v | e | op k |] |]; try discriminate.
  pose proof (tstart_events (k r)) as Hev.
  destruct (tstart (k r)) as [ev0 c0]. simpl in Hev.
  intros Hd. injection Hd as <- <-. constructor; [exact I | assumption].
Qed.

Lemma run_from_SLost_events (e : error) :
  forall sched cs tr s,
    run_from (SLost e cs) sched = (tr, s) ->
    Forall member_event tr /\ exists cs', s = SLost e cs'.
Proof.
  induction sched as [| [j r] sched IH]; simpl; intros cs tr s Hrun.
  - injection Hrun as <- <-. split; [constructor | eauto].
  - destruct (pool_deliver cs j r) as [[ev cs'] |] eqn:Hd; [| eauto].
    pose proof (pool_deliver_events _ _ _ _ _ Hd) as Hev.
    destruct (run_from (SLost e cs') sched) as [tr' s'] eqn:Hr.
    injection Hrun as <- <-.
    destruct (IH _ _ _ Hr) as [Htr Hs].
    split; [apply Forall_app; split; assumption | assumption].
Qed.

Lemma run_from_SAll_shape (P : io -> Prop) (k : list value -> prog) :
  forall sched H cs tr s,
    Forall (srethrows P H) cs ->
    run_from (SAll cs k) sched = (tr, s) ->
    all_pending k tr s \/ all_rejected P H tr s \/ all_fulfilled k tr s.
Proof.
  induction sched as [| [j r] sched IH]; simpl; intros H cs tr s Hcs Hrun.
  - injection Hrun as <- <-. left. split; [constructor | eauto].
  - destruct (pool_deliver cs j r) as [[ev cs'] |] eqn:Hd; [| eauto].
    destruct (pool_deliver_rethrows P H _ _ _ _ _ Hcs Hd) as [Hcs' Hev].
    destruct (resolve cs') as [| vs | e] eqn:Hres.
    + destruct (run_from (SAll cs' k) sched) as [tr' s'] eqn:Hr.
      injection Hrun as <- <-.
      destruct (IH _ _ _ _ Hcs' Hr)
        as [[Htr Hs]
           | [(tr1 & e & tr2 & cs2 & -> & H1 & H2 & -> & op & Hop & Hin)
             | (tr1 & vs & sched2 & tr2 & -> & H1 & Hk)]].
      * left. split; [apply Forall_app; split; assumption | assumption].
      * right. left. exists (ev ++ tr1), e, tr2, cs2.
        split; [apply app_assoc |].
        split; [apply Forall_app; split; assumption |].
        split; [assumption |]. split; [reflexivity |].
        exists op. split; [assumption |]. rewrite app_assoc. assumption.
      * right. right. exists (ev ++ tr1), vs, sched2, tr2.
        split; [apply app_assoc |].
        split; [apply Forall_app; split; assumption | assumption].
    + destruct (pstart (k vs)) as [ev' s'] eqn:Hp.
      destruct (run_from s' sched) as [tr' s''] eqn:Hr.
      injection Hrun as <- <-.
      right. right. exists ev, vs, sched, (ev' ++ tr').
      split; [rewrite <- app_assoc; reflexivity |].
      split; [assumption |].
      unfold run. rewrite Hp, Hr. reflexivity.
    + destruct (run_from (SLost e cs') sched) as [tr' s'] eqn:Hr.
      injection Hrun as <- <-.
      destruct (run_from_SLost_events e _ _ _ _ Hr) as [Htr [cs2 ->]].
      right. left. exists ev, e, tr', cs2.
      split; [rewrite <- app_assoc; reflexivity |].
      split; [assumption |]. split; [assumption |]. split; [reflexivity |].
      eapply resolve_rejected; eassumption.
Qed.

Lemma run_PAll_shape (P : io -> Prop) ps k sched tr s :
  Forall (rethrows P) ps ->
  run (PAll ps k) sched = (tr, s) ->
  all_pending k tr s \/ all_rejected P [] tr s \/ all_fulfilled k tr s.
Proof.
  intros Hps Hrun. unfold run in Hrun. simpl in Hrun.
  pose proof (pool_start_rethrows P (fst (pool_start ps)) ps Hps) as Hcs.
  pose proof (pool_start_rethrows P [] ps Hps) as Hcs0.
  pose proof (pool_start_events ps) as Hev.
  destruct (pool_start ps) as [ev cs]. simpl in *.
  destruct (resolve cs) as [| vs | e] eqn:Hres.
  - destruct (run_from (SAll cs k) sched) as [tr' s'] eqn:Hr.
    injection Hrun as <- <-.
    destruct (run_from_SAll_shape P k _ _ _ _ _ Hcs Hr)
      as [[Htr Hs]
         | [(tr1 & e & tr2 & cs2 & -> & H1 & H2 & -> & op & Hop & Hin)
           | (tr1 & vs & sched2 & tr2 & -> & H1 & Hk)]].
    + left. split; [apply Forall_app; split; assumption | assumption].
    + right. left. exists (ev ++ tr1), e, tr2, cs2.
      split; [apply app_assoc |].
      split; [apply Forall_app; split; assumption |].
      split; [assumption |]. split; [reflexivity |].
      exists op. split; assumption.
    + right. right. exists (ev ++ tr1), vs, sched2, tr2.
      split; [apply app_assoc |].
      split; [apply Forall_app; split; assumption | assumption].
  - destruct (pstart (k vs)) as [ev' s'] eqn:Hp.
    destruct (run_from s' sched) as [tr' s''] eqn:Hr.
    injection Hrun as <- <-.
    right. right. exists ev, vs, sched, (ev' ++ tr').
    split; [rewrite <- app_assoc; reflexivity |].
    split; [assumption |].
    unfold run. rewrite Hp, Hr. reflexivity.
  - exfalso.
    destruct (resolve_rejected P [] cs e Hcs0 Hres) as [op [_ []]].
Qed.

(** ** Sequential programs and returned values *)

Lemma pstart_seq :
  forall p, pseq p -> Forall seq_event (fst (pstart p)) /\ sseq (snd (pstart p)).
Proof.
  induction p as [v | e | st msg k IH | code | op k IH | ps k IH | ];
    simpl; intros Hp; try (split; [repeat constructor | exact I]).
  - destruct (IH Hp) as [Hev Hs]. destruct (pstart k) as [ev s]. simpl in *.
    split; [constructor; [exact I | assumption] | assumption].
  - split; [repeat constructor | assumption].
  - destruct Hp.
Qed.

Lemma run_from_seq :
  forall sched s tr s', sseq s -> run_from s sched = (tr, s') -> Forall seq_event tr.
Proof.
  induction sched as [| [j r] sched IH]; simpl; intros s tr s' Hs Hrun.
  - injection Hrun as <- <-. constructor.
  - destruct s as [v | e | code | op k | cs k | e cs | ]; simpl in *;
      try contradiction; try (eapply IH; [| eassumption]; exact I).
    destruct j as [| j]; [| eapply IH; [| eassumption]; exact Hs].
    destruct (pstart_seq (k r) (Hs r)) as [Hev Hs'].
    destruct (pstart (k r)) as [ev s0]. simpl in *.
    destruct (run_from s0 sched) as [tr' s1] eqn:Hr.
    injection Hrun as <- <-.
    constructor; [exact I |]. apply Forall_app. split; [assumption | eauto].
Qed.

Lemma run_seq p sched tr s :
  pseq p -> run p sched = (tr, s) -> Forall seq_event tr.
Proof.
  intros Hp. unfold run. destruct (pstart_seq p Hp) as [Hev Hs].
  destruct (pstart p) as [ev s0]. simpl in *.
  destruct (run_from s0 sched) as [tr' s'] eqn:Hr.
  intros H. injection H as <- <-.
  apply Forall_app. split; [assumption | eapply run_from_seq; eassumption].
Qed.

Lemma pseq_lift (t : task) : pseq (lift t).
Proof.
  induction t as [v | e | st msg k IH | op k IH | ]; simpl; auto.
Qed.

Lemma pseq_bind (f : value -> prog) :
  (forall v, pseq (f v)) -> forall p, pseq p -> pseq (bind p f).
Proof.
  intros Hf. induction p as [v | e | st msg k IH | code | op k IH | ps k IH | ];
    simpl; auto.
Qed.

Lemma pstart_ret (R : value -> Prop) :
  forall p, pret R p -> sret R (snd (pstart p)).
Proof.
  induction p as [v | e | st msg k IH | code | op k IH | ps k IH | ];
    simpl; intros Hp; auto.
  - specialize (IH Hp). destruct (pstart k) as [ev s]. assumption.
  - destruct (pool_start ps) as [ev cs]. destruct (resolve cs) as [| vs | e].
    + assumption.
    + specialize (IH vs (Hp vs)). destruct (pstart (k vs)) as [ev' s]. assumption.
    + exact I.
Qed.

Lemma deliver_ret (R : value -> Prop) s j r ev s' :
  sret R s -> deliver s j r = Some (ev, s') -> sret R s'.
Proof.
  destruct s as [v | e | code | op k | cs k | e cs | ]; simpl; intros Hs Hd;
    try discriminate.
  - destruct j; [| discriminate].
    pose proof (pstart_ret R (k r) (Hs r)) as Hs'.
    destruct (pstart (k r)) as [ev0 s0]. injection Hd as <- <-. assumption.
  - destruct (pool_deliver cs j r) as [[ev0 cs'] |]; [| discriminate].
    destruct (resolve cs') as [| vs | e].
    + injection Hd as <- <-. assumption.
    + pose proof (pstart_ret R (k vs) (Hs vs)) as Hs'.
      destruct (pstart (k vs)) as [ev1 s1]. injection Hd as <- <-. assumption.
    + injection Hd as <- <-. exact I.
  - destruct (pool_deliver cs j r) as [[ev0 cs'] |]; [| discriminate].
    injection Hd as <- <-. exact I.
Qed.

Lemma run_from_ret (R : value -> Prop) :
  forall sched s tr v, sret R s -> run_from s sched = (tr, SRet v) -> R v.
Proof.
  induction sched as [| [j r] sched IH]; simpl; intros s tr v Hs Hrun.
  - injection Hrun as <- ->. exact Hs.
  - destruct (deliver s j r) as [[ev s0] |] eqn:Hd; [| eauto].
    destruct (run_from s0 sched) as [tr' s1] eqn:Hr.
    injection Hrun as <- ->.
    eapply IH; [eapply deliver_ret; eassumption | eassumption].
Qed.

(** What a program returns is what its text returns. *)
Lemma run_ret (R : value -> Prop) p sched tr v :
  pret R p -> run p sched = (tr, SRet v) -> R v.
Proof.
  intros Hp. unfold run. pose proof (pstart_ret R p Hp) as Hs.
  destruct (pstart p) as [ev s0]. simpl in *.
  destruct (run_from s0 sched) as [tr' s'] eqn:Hr.
  intros H. injection H as <- ->. eapply run_from_ret; eassumption.
Qed.

Lemma pret_bind (R : value -> Prop) (f : value -> prog) :
  (forall v, pret R (f v)) -> forall p, pret R (bind p f).
Proof.
  intros Hf. induction p as [v | e | st msg k IH | code | op k IH | ps k IH | ];
    simpl; auto.
Qed.

Lemma member_event_seq (tr : list event) :
  Forall member_event tr -> Forall seq_event tr.
Proof. apply Forall_impl. intros []; simpl; auto. Qed.

Lemma member_events_no_all (tr : list event) : Forall member_event tr -> no_all tr.
Proof.
  unfold no_all. induction 1 as [| e tr He _ IH]; simpl; [reflexivity |].
  destruct e; simpl in *; auto; contradiction.
Qed.

Lemma seq_events_no_rejection (tr : list event) (e : error) :
  Forall seq_event tr -> ~ In (EvAllRejected e) tr.
Proof.
  intros Hf Hin. rewrite Forall_forall in Hf. exact (Hf _ Hin).
Qed.

Lemma seq_events_no_all (tr : list event) : Forall seq_event tr -> no_all tr.
Proof.
  unfold no_all. induction 1 as [| e tr He _ IH]; simpl; [reflexivity |].
  destruct e; simpl in *; auto; contradiction.
Qed.

Lemma rethrows_weaken (P P' : io -> Prop) :
  (forall op, P op -> P' op) ->
  forall t, rethrows P t -> rethrows P' t.
Proof.
  intros HP. induction t as [v | e | st msg k IH | op k IH | ]; simpl; auto.
  intros Hk r. destruct (Hk r) as [Hr | (e & -> & Hop & Hthrow)].
  - left. auto.
  - right. exists e. auto.
Qed.

(** ** The artefact provisioner: what it returns and when it fails *)

Lemma in_cons_app {A} (x y : A) (l1 l2 : list A) :
  In x (l1 ++ y :: l2) -> In x l1 \/ x = y \/ In x l2.
Proof.
  intros H. apply in_app_or in H. destruct H as [H | [H | H]]; auto.
Qed.

Lemma not_member_rejection (tr : list event) (e : error) :
  Forall member_event tr -> ~ In (EvAllRejected e) tr.
Proof.
  intros Hf Hin. rewrite Forall_forall in Hf. exact (Hf _ Hin).
Qed.

Section ProvisionerEdges.

Variable path_join : string -> string -> string.
Variable dirname : string.
Variable config : Config.

Lemma stage1_rethrows (fuel : nat) :
  Forall (rethrows (fun op => is_template path_join dirname op \/ is_timer op))
         (stage1 path_join dirname config fuel).
Proof.
  assert (Hc : forall entity payload,
             rethrows (fun op => is_template path_join dirname op \/ is_timer op)
                      (createEntity config fuel entity payload)).
  { intros. eapply rethrows_weaken; [| apply createEntity_rethrows]. auto. }
  unfold stage1. simpl map.
  constructor; [| constructor; [| constructor; [| constructor; [| constructor]]]];
    try apply Hc.
  - intros [v | e]; [left; apply Hc |].
    right. exists e. split; [reflexivity |].
    split; [left; left; reflexivity | reflexivity].
  - intros [v | e]; [left; apply Hc |].
    right. exists e. split; [reflexivity |].
    split; [left; right; reflexivity | reflexivity].
Qed.

Lemma grant_seq (fuel : nat) (backend : value) (f : value -> prog) :
  (forall v, pseq (f v)) ->
  pseq (bind (lift (createMgmtApiGrant config fuel backend)) f).
Proof.
  intros Hf. apply pseq_bind; [assumption | apply pseq_lift].
Qed.

(** X9: a bundle that [createArtefacts] returns has the five entries
    [portal], [backend], [api], [rule] and [mgmt_grant], the first four
    being what [Promise.all] was fulfilled with; its backend is never
    [undefined] or [null], while the other entries may be. *)
Theorem createArtefacts_bundle :
  forall (fuel : nat) (sched : schedule) (tr : list event) (bundle : value),
    run (createArtefacts path_join dirname config fuel) sched = (tr, SRet bundle) ->
    exists portal backend api rule mgmt_grant,
      In (EvAll [portal; backend; api; rule]) tr /\
      nullish backend = false /\
      bundle = VObj [("portal", portal); ("backend", backend); ("api", api);
                     ("rule", rule); ("mgmt_grant", mgmt_grant)].
Proof.
  intros fuel sched tr bundle Hrun. unfold createArtefacts in Hrun.
  destruct (run_PAll_cases _ _ _ _ _ _ _ (stage1_wp path_join dirname config fuel) Hrun)
    as [[_ [[cs Hs] | [e [cs Hs]]]] | (tr1 & vs & sched2 & tr2 & -> & _ & Hvs & Hk)];
    try discriminate Hs.
  inversion Hvs as [| Q0 portal Qs0 vs0 _ Hvs0]; subst.
  inversion Hvs0 as [| Q1 backend Qs1 vs1 _ Hvs1]; subst.
  inversion Hvs1 as [| Q2 api Qs2 vs2 _ Hvs2]; subst.
  inversion Hvs2 as [| Q3 rule Qs3 vs3 _ Hvs3]; subst.
  inversion Hvs3; subst. cbn [nth] in Hk.
  destruct (nullish backend) eqn:Hb.
  - exfalso. unfold createMgmtApiGrant in Hk.
    rewrite (get_nullish backend "client_id" Hb) in Hk. cbn [lift bind] in Hk.
    rewrite run_throw in Hk. discriminate Hk.
  - assert (Hret : forall g,
               pret (fun v => exists g',
                         v = VObj [("portal", portal); ("backend", backend);
                                   ("api", api); ("rule", rule);
                                   ("mgmt_grant", g')])
                    (PRet (VObj [("portal", portal); ("backend", backend);
                                 ("api", api); ("rule", rule);
                                 ("mgmt_grant", g)]))).
    { intros g. simpl. eauto. }
    destruct (run_ret _ _ _ _ _ (pret_bind _ _ Hret _) Hk) as [g Hg].
    exists portal, backend, api, rule, g.
    split; [apply in_elt |]. split; [exact Hb | exact Hg].
Qed.

(** X10: when the creation of the backend client has returned
    [undefined] (its failure was swallowed), [createArtefacts] throws a
    [TypeError] as soon as the four creations are over; the grant is never
    requested and no bundle is returned, whatever the other three
    creations gave. *)
Theorem createArtefacts_without_backend :
  forall (fuel : nat) (sched : schedule) (tr tr1 tr2 : list event) (s : state)
         (portal backend api rule : value),
    run (createArtefacts path_join dirname config fuel) sched = (tr, s) ->
    tr = tr1 ++ EvAll [portal; backend; api; rule] :: tr2 ->
    no_all tr1 ->
    nullish backend = true ->
    tr2 = [] /\
    (exists e, s = SThrow e /\ err_name e = "TypeError") /\
    (forall q, In q (requests tr) -> ~ is_grant config q).
Proof.
  intros fuel sched tr tr1 tr2 s portal backend api rule Hrun Htr Hno Hb.
  unfold createArtefacts in Hrun.
  destruct (run_PAll_cases _ _ _ _ _ _ _ (stage1_wp path_join dirname config fuel) Hrun)
    as [[Hpool _] | (trA & vs & sched2 & trB & Heq & HA & _ & Hk)].
  - exfalso. apply pool_events_no_all in Hpool.
    apply (no_all_not_in tr [portal; backend; api; rule] Hpool).
    subst tr. apply in_elt.
  - rewrite Htr in Heq.
    destruct (first_all_unique _ _ _ _ _ _ Heq Hno (pool_events_no_all _ _ HA))
      as (-> & <- & ->).
    cbn [nth] in Hk. unfold createMgmtApiGrant in Hk.
    rewrite (get_nullish backend "client_id" Hb) in Hk. cbn [lift bind] in Hk.
    rewrite run_throw in Hk. injection Hk as <- <-.
    split; [reflexivity |]. split; [eexists; split; reflexivity |].
    intros q Hq. subst tr. rewrite requests_app in Hq. simpl in Hq.
    rewrite app_nil_r in Hq. apply in_requests in Hq.
    rewrite Forall_forall in HA. exact (HA _ Hq q eq_refl).
Qed.

(** X11: failed requests never make [createArtefacts] give up: when its
    [Promise.all] is rejected, in a run where the timers fire, the error
    is the failure to read one of the two template files; the function is
    over then, without a bundle and without ever requesting the grant. *)
Theorem createArtefacts_rejected_by_unreadable_file :
  forall (fuel : nat) (sched : schedule) (tr : list event) (s : state) (e : error),
    run (createArtefacts path_join dirname config fuel) sched = (tr, s) ->
    In (EvAllRejected e) tr ->
    timers_fire tr ->
    (exists file,
        is_template path_join dirname (ReadFile file) /\
        In (EvSettle (ReadFile file) (Rejected e)) tr) /\
    (exists cs, s = SLost e cs) /\
    no_all tr /\
    (forall q, In q (requests tr) -> ~ is_grant config q).
Proof.
  intros fuel sched tr s e Hrun Hin Htimers.
  assert (Hshape := Hrun). unfold createArtefacts in Hshape.
  destruct (run_PAll_shape _ _ _ _ _ _ (stage1_rethrows fuel) Hshape)
    as [[Htr _]
       | [(tr1 & e' & tr2 & cs & Heq & H1 & H2 & Hs & op & Hop & Hsrc)
         | (tr1 & vs & sched2 & tr2 & Heq & H1 & Hk)]].
  - exfalso. exact (not_member_rejection _ e Htr Hin).
  - assert (Hno : no_all tr).
    { rewrite Heq. apply no_all_app. split; [apply member_events_no_all, H1 |].
      change (EvAllRejected e' :: tr2) with ([EvAllRejected e'] ++ tr2).
      apply no_all_app. split; [reflexivity | apply member_events_no_all, H2]. }
    assert (He : e' = e).
    { rewrite Heq in Hin. apply in_cons_app in Hin.
      destruct Hin as [Hin | [Hin | Hin]].
      - exfalso. exact (not_member_rejection _ e H1 Hin).
      - congruence.
      - exfalso. exact (not_member_rejection _ e H2 Hin). }
    subst e'. simpl in Hsrc.
    assert (Hsrc' : In (EvSettle op (Rejected e)) tr).
    { rewrite Heq. apply in_or_app. left. assumption. }
    split; [| split; [eauto | split; [assumption |]]].
    + destruct Hop as [Hop | [ms ->]].
      * destruct Hop as [-> | ->]; eexists; (split; [| exact Hsrc']).
        -- left. reflexivity.
        -- right. reflexivity.
      * exfalso. exact (Htimers ms e Hsrc').
    + destruct (createArtefacts_cases path_join dirname config fuel sched tr s Hrun)
        as [[Hpool _] | (trA & p & b & a & r & trB & HeqA & _)].
      * intros q Hq. apply in_requests in Hq.
        rewrite Forall_forall in Hpool. exact (Hpool _ Hq q eq_refl).
      * exfalso. apply (no_all_not_in tr [p; b; a; r] Hno).
        rewrite HeqA. apply in_elt.
  - exfalso. rewrite Heq in Hin. apply in_cons_app in Hin.
    destruct Hin as [Hin | [Hin | Hin]].
    + exact (not_member_rejection _ e H1 Hin).
    + discriminate Hin.
    + refine (seq_events_no_rejection tr2 e _ Hin).
      eapply run_seq; [| exact Hk]. apply grant_seq. intros v. exact I.
Qed.

End ProvisionerEdges.

(** ** The connection enabler: what it patches and how it can fail *)

Lemma mapM_derivePatch_error (artefacts : value) (cons : list value) (e : error) :
  mapM (derivePatch artefacts) cons = Err e -> err_name e = "TypeError".
Proof.
  induction cons as [| c cons IH]; simpl; [discriminate |].
  destruct (derivePatch artefacts c) as [p | e0] eqn:Hc; cbn [rbind].
  - destruct (mapM (derivePatch artefacts) cons) as [ps | e1]; cbn [rbind];
      [discriminate |].
    intros H. injection H as <-. apply IH. reflexivity.
  - intros H. injection H as <-. eapply derivePatch_error. eassumption.
Qed.

Lemma Forall2_length_eq {A B} (R : A -> B -> Prop) (l : list A) (m : list B) :
  Forall2 R l m -> List.length l = List.length m.
Proof. induction 1; simpl; congruence. Qed.

Section EnablerEdges.

Variable JSON_parse : value -> result value.
Variable config : Config.

Lemma patchEntity_wp (entity : string) (id payload : value) :
  forall fuel h,
    twp (wrapper_op (patch_request config entity id payload)) any_result h
        (patchEntity config fuel entity id payload).
Proof.
  induction fuel as [| fuel IH]; intros h; simpl; [exact I |].
  split; [left; reflexivity |].
  intros [v | err]; simpl; [exact I |].
  unfold handleError. destruct (is_429 err); simpl; [| exact I].
  split; [right; reflexivity |]. intros [u | e]; [apply IH | exact I].
Qed.

Lemma mapM_in {A B} (f : A -> result B) :
  forall (l : list A) (ys : list B) (y : B),
    mapM f l = Ok ys -> In y ys -> exists x, In x l /\ f x = Ok y.
Proof.
  induction l as [| a l IH]; simpl; intros ys y Hm Hy.
  - injection Hm as <-. destruct Hy.
  - destruct (f a) as [b | e] eqn:Ha; cbn [rbind] in Hm; [| discriminate Hm].
    destruct (mapM f l) as [bs | e] eqn:Hl; cbn [rbind] in Hm; [| discriminate Hm].
    injection Hm as <-. destruct Hy as [<- | Hy].
    + exists a. auto.
    + destruct (IH bs y eq_refl Hy) as [x [Hx Hfx]]. exists x. auto.
Qed.

Lemma derivePatch_id (artefacts c : value) (p : Patch) :
  derivePatch artefacts c = Ok p -> get c "id" = Ok (p_id p).
Proof.
  unfold derivePatch.
  destruct (get c "id") as [id |]; cbn [rbind]; [| discriminate].
  destruct (get c "enabled_clients"); cbn [rbind]; [| discriminate].
  destruct (get artefacts "portal") as [portal |]; cbn [rbind]; [| discriminate].
  destruct (get portal "client_id"); cbn [rbind]; [| discriminate].
  destruct (get artefacts "backend") as [backend |]; cbn [rbind]; [| discriminate].
  destruct (get backend "client_id"); cbn [rbind]; [| discriminate].
  destruct (get c "strategy"); cbn [rbind]; [| discriminate].
  intros H. injection H as <-. reflexivity.
Qed.

Lemma patch_request_uri (entity : string) (id payload : value) :
  uri (patch_request config entity id payload)
  = "https://" +++ domain config +++ "/api/v2/" +++ entity +++ "/" +++ toString id.
Proof.
  unfold patch_request, entity_url. cbn [uri].
  rewrite !append_assoc'. reflexivity.
Qed.

(** X12: every PATCH that [enableConnections] sends comes after all the
    fetches have returned, one value per selected connection, and after
    the derivation has succeeded for every one of them: the [Promise.all]
    of the fetches is fulfilled before the request is sent.  The request
    carries, as its JSON body, the patch derived from one of the fetched
    connections, and its address ends with the [id] found in that fetched
    connection (a string or another value that [toString] prints as
    JavaScript does), not with the id that was selected. *)
Theorem patches_are_derived :
  forall (fuel : nat) (artefacts : value) (selected : list (string * value))
         (sched : schedule) (tr tr1 tr2 : list event) (s : state) (q : request),
    run (enableConnections JSON_parse config fuel artefacts selected) sched
      = (tr, s) ->
    tr = tr1 ++ EvCall (Rp q) :: tr2 ->
    method q = PATCH ->
    exists cons patches c p,
      In (EvAll cons) tr1 /\
      List.length cons = List.length selected /\
      mapM (derivePatch artefacts) cons = Ok patches /\
      In c cons /\
      derivePatch artefacts c = Ok p /\
      In p patches /\
      get c "id" = Ok (p_id p) /\
      q = patch_request config "connections" (p_id p) (p_patch p) /\
      method q = PATCH /\
      json q = Some (p_patch p) /\
      (printable (p_id p) = true ->
       uri q = "https://" +++ domain config +++ "/api/v2/connections/"
               +++ toString (p_id p)).
Proof.
  intros fuel artefacts selected sched tr tr1 tr2 s q Hrun Htr Hpatch.
  unfold enableConnections in Hrun.
  destruct (run_PAll_cases _ _ _ _ _ _ _ (fetches_wp JSON_parse config fuel selected) Hrun)
    as [[Hpool _] | (trA & cons & sched2 & trB & Heq & HA & Hcons & Hk)].
  - exfalso. rewrite Forall_forall in Hpool.
    assert (Hin : In (EvCall (Rp q)) tr) by (rewrite Htr; apply in_elt).
    exact (Hpool _ Hin q eq_refl Hpatch).
  - rewrite Htr in Heq. symmetry in Heq.
    destruct (app_cons_split _ _ _ _ _ _ Heq)
      as [(_ & Habs & _) | [[mid [-> ->]] | [mid [-> _]]]].
    + discriminate Habs.
    + destruct (mapM (derivePatch artefacts) cons) as [patches | e] eqn:Hm.
      * assert (Hsafe : calls_ok
                          (fun op => forall q', op = Rp q' ->
                             exists p, In p patches /\
                               q' = patch_request config "connections"
                                      (p_id p) (p_patch p))
                          (mid ++ EvCall (Rp q) :: tr2)).
        { eapply run_safe; [| exact Hk]. simpl. split; [| intros vs; exact I].
          apply Forall_forall. intros t Ht. apply in_map_iff in Ht.
          destruct Ht as [p [<- Hp]].
          eapply twp_tsafe. eapply twp_weaken; [| | apply patchEntity_wp with (h := [])].
          - intros op [-> | ->] q' Hq'; [| discriminate Hq'].
            injection Hq' as <-. exists p. auto.
          - intros h v H. exact H. }
        destruct (Hsafe _ (in_elt _ _ _) q eq_refl) as [p [Hp ->]].
        destruct (mapM_in _ _ _ _ Hm Hp) as [c [Hc Hcp]].
        exists cons, patches, c, p.
        split; [apply in_elt |].
        split; [apply Forall2_length_eq in Hcons; rewrite length_map in Hcons;
                auto |].
        split; [exact Hm |]. split; [assumption |]. split; [assumption |].
        split; [assumption |].
        split; [apply derivePatch_id with (artefacts := artefacts); assumption |].
        split; [reflexivity |]. split; [reflexivity |].
        split; [reflexivity |].
        intros _. rewrite patch_request_uri. reflexivity.
      * exfalso. rewrite run_throw in Hk. injection Hk as Hk _.
        destruct mid; discriminate Hk.
    + exfalso. rewrite Forall_forall in HA.
      exact (HA _ (in_elt _ _ _) q eq_refl Hpatch).
Qed.


End EnablerEdges.

(** ** The whole run: what [runSetup] touches *)

Lemma lookup_set_field_other (name other : string) (x : value)
    (fields : list (string * value)) :
  other <> name ->
  lookup other (set_field name x fields) = lookup other fields.
Proof.
  intros Hne. induction fields as [| [k v] fields IH]; simpl.
  - destruct (String.eqb_spec name other); [congruence | reflexivity].
  - destruct (String.eqb_spec k name) as [-> | Hk]; simpl.
    + destruct (String.eqb_spec name other); [congruence | reflexivity].
    + rewrite IH. reflexivity.
Qed.

Lemma in_calls (tr : list event) (op : io) :
  In op (calls tr) -> In (EvCall op) tr.
Proof.
  induction tr as [| ev tr IH]; [intros [] |].
  intros Hop. destruct ev; simpl in Hop; try (right; apply IH; assumption).
  destruct Hop as [-> | Hop]; [left; reflexivity | right; auto].
Qed.

Section WholeRun.

Variable JSON_parse : value -> result value.
Variable path_join : string -> string -> string.
Variable normalizeUrl : string -> string.
Variable dirname : string.

Lemma wrapper_setup_op (config : Config) (q : request) (op : io) :
  authorization q = "Bearer " +++ token config ->
  wrapper_op q op -> setup_op path_join dirname (token config) op.
Proof.
  intros Hq [-> | ->]; (split; [| split; [| split]]).
  - intros q' Hq'. injection Hq' as <-. assumption.
  - intros ms Hms. discriminate Hms.
  - intros f Hf. discriminate Hf.
  - intros f c Hf. discriminate Hf.
  - intros q' Hq'. discriminate Hq'.
  - intros ms Hms. injection Hms as <-. reflexivity.
  - intros f Hf. discriminate Hf.
  - intros f c Hf. discriminate Hf.
Qed.

Lemma createEntity_setup_op (config : Config) fuel entity payload :
  tsafe (setup_op path_join dirname (token config))
        (createEntity config fuel entity payload).
Proof.
  eapply twp_tsafe. eapply twp_weaken; [| | apply createEntity_wp with (h := [])].
  - intros op Hop. eapply wrapper_setup_op; [| exact Hop]. reflexivity.
  - intros h v H. exact H.
Qed.

Lemma getEntity_setup_op (config : Config) fuel entity id :
  tsafe (setup_op path_join dirname (token config))
        (getEntity JSON_parse config fuel entity id).
Proof.
  eapply twp_tsafe. eapply twp_weaken; [| | apply getEntity_wp with (h := [])].
  - intros op Hop. eapply wrapper_setup_op; [| exact Hop]. reflexivity.
  - intros h v H. exact H.
Qed.

Lemma patchEntity_setup_op (config : Config) fuel entity id payload :
  tsafe (setup_op path_join dirname (token config))
        (patchEntity config fuel entity id payload).
Proof.
  eapply twp_tsafe. eapply twp_weaken; [| | apply patchEntity_wp with (h := [])].
  - intros op Hop. eapply wrapper_setup_op; [| exact Hop]. reflexivity.
  - intros h v H. exact H.
Qed.

Lemma read_setup_op (token : string) (file : string) (k : settle -> task) :
  is_template path_join dirname (ReadFile file) ->
  (forall r, tsafe (setup_op path_join dirname token) (k r)) ->
  tsafe (setup_op path_join dirname token) (Await (ReadFile file) k).
Proof.
  intros Hfile Hk. simpl. split; [| assumption].
  split; [| split; [| split]].
  - intros q Hq. discriminate Hq.
  - intros ms Hms. discriminate Hms.
  - intros f Hf. assumption.
  - intros f c Hf. discriminate Hf.
Qed.

Lemma other_setup_op (token : string) (op : io) :
  match op with Prompt _ => True | _ => False end ->
  setup_op path_join dirname token op.
Proof.
  destruct op; intros []; (split; [| split; [| split]]);
    intros; discriminate.
Qed.

Lemma rp_setup_op (token : string) (q : request) :
  authorization q = "Bearer " +++ token ->
  setup_op path_join dirname token (Rp q).
Proof.
  intros Hq. split; [| split; [| split]].
  - intros q' Hq'. injection Hq' as <-. assumption.
  - intros ms Hms. discriminate Hms.
  - intros f Hf. discriminate Hf.
  - intros f c Hf. discriminate Hf.
Qed.

Lemma write_setup_op (token file content : string) :
  file = path_join dirname "client.env" \/ file = path_join dirname "server.env" ->
  setup_op path_join dirname token (WriteFile file content).
Proof.
  intros Hfile. split; [| split; [| split]].
  - intros q Hq. discriminate Hq.
  - intros ms Hms. discriminate Hms.
  - intros f Hf. discriminate Hf.
  - intros f c Hf. injection Hf as <- _. assumption.
Qed.

Lemma setup_safe (config : Config) (fuel : nat) :
  psafe (setup_op path_join dirname (token config))
        (setup JSON_parse path_join dirname config fuel).
Proof.
  unfold setup. cbn [psafe]. split.
  - unfold strategies. simpl map.
    assert (H : forall strategy,
               tsafe (setup_op path_join dirname (token config))
                     (findConnections JSON_parse path_join config strategy)).
    { intros strategy. unfold findConnections, await. simpl. split.
      - apply rp_setup_op. reflexivity.
      - intros [resp | e]; [| exact I].
        destruct (JSON_parse resp) as [connections |]; [| exact I].
        destruct (js_map _ connections); exact I. }
    constructor; [apply H | constructor; [apply H | constructor;
      [apply H | constructor]]].
  - intros found. apply psafe_bind.
    + intros selected. apply psafe_bind.
      * intros artefacts. apply psafe_bind.
        -- intros ignored. apply psafe_bind; [intros v; exact I |].
           unfold generateEnv.
           destruct (client_env config artefacts); [| exact I].
           destruct (server_env config artefacts); [| exact I].
           unfold pawait. simpl. split.
           ++ apply write_setup_op. left. reflexivity.
           ++ intros [v | e]; [| exact I]. simpl. split; [| intros [v' | e']; exact I].
              apply write_setup_op. right. reflexivity.
        -- unfold enableConnections. simpl. split.
           ++ apply Forall_forall. intros t Ht. apply in_map_iff in Ht.
              destruct Ht as [kv [<- _]]. apply getEntity_setup_op.
           ++ intros cons.
              destruct (mapM (derivePatch artefacts) cons) as [patches |];
                [| exact I].
              simpl. split; [| intros vs; exact I].
              apply Forall_forall. intros t Ht. apply in_map_iff in Ht.
              destruct Ht as [p [<- _]]. apply patchEntity_setup_op.
      * unfold createArtefacts. cbn [psafe]. split.
        -- unfold stage1. simpl map.
           constructor; [| constructor; [| constructor; [| constructor;
             [| constructor]]]]; try apply createEntity_setup_op.
           ++ apply read_setup_op; [left; reflexivity |].
              intros [v | e]; [apply createEntity_setup_op | exact I].
           ++ apply read_setup_op; [right; reflexivity |].
              intros [v | e]; [apply createEntity_setup_op | exact I].
        -- intros vs. apply psafe_bind; [intros v; exact I |].
           apply psafe_lift. unfold createMgmtApiGrant.
           destruct (get (nth 1 vs VUndef) "client_id"); [| exact I].
           apply createEntity_setup_op.
    + unfold validateConnections.
      destruct (Nat.ltb _ 1); [exact I |].
      destruct (Nat.ltb _ 1); [exact I |].
      destruct (Nat.ltb _ 1); [exact I |].
      unfold pawait. simpl. split; [| intros [v | e]; exact I].
      apply other_setup_op. exact I.
Qed.

(** The runs of [runSetup]: before the operator has answered the first
    prompt nothing else has been started; afterwards the run is a run of
    the rest of the function with the answers as [config]. *)
Lemma runSetup_cases (fuel : nat) (sched : schedule) tr s :
  run (runSetup JSON_parse path_join normalizeUrl dirname fuel) sched = (tr, s) ->
  (calls tr = [Prompt config_questions] /\ no_all tr) \/
  exists answers config sched2 tr',
    tr = [EvLog white_bgGreen_bold "Self Service Portal Setup"; EvLog plain EOL;
          EvCall (Prompt config_questions);
          EvSettle (Prompt config_questions) (Resolved answers)] ++ tr' /\
    token config = field_string "token" answers /\
    domain config = field_string "domain" answers /\
    run (setup JSON_parse path_join dirname config fuel) sched2 = (tr', s).
Proof.
  intros Hrun. unfold runSetup in Hrun.
  destruct (run_PLog _ _ _ _ _ _ Hrun) as [tra [-> Hrun1]].
  destruct (run_PLog _ _ _ _ _ _ Hrun1) as [trb [-> Hrun2]].
  unfold getAndValidateConfig, pawait in Hrun2. cbn [bind] in Hrun2.
  destruct (run_PAwait _ _ _ _ _ Hrun2)
    as [[-> _] | (r & sched2 & trc & -> & Hrun3)]; [left; split; reflexivity |].
  destruct r as [answers | e].
  - destruct (get answers "portal_url") as [u | e] eqn:Hu.
    + right.
      destruct answers as [| | b | n | str | l | fields]; cbn [bind] in Hrun3;
        try (eexists _, _, sched2, trc;
             split; [reflexivity | split; [| split; [| exact Hrun3]]]; reflexivity).
      exists (VObj fields), (as_config (VObj (set_field "portal_url"
                                         (VStr (normalizeUrl (toString u))) fields))),
        sched2, trc.
      split; [reflexivity |].
      split; [| split; [| exact Hrun3]];
        unfold as_config, field_string; simpl;
        rewrite lookup_set_field_other by discriminate; reflexivity.
    + left. cbn [bind] in Hrun3. rewrite run_throw in Hrun3.
      injection Hrun3 as <- <-. split; reflexivity.
  - left. cbn [bind] in Hrun3. rewrite run_throw in Hrun3.
    injection Hrun3 as <- <-. split; reflexivity.
Qed.

(** X14: every request that the script sends itself (what a prompt does
    to check an answer is the prompt's own) comes after the operator has
    answered the first prompt, and carries, as its bearer credential, the
    token entered there. *)
Theorem requests_carry_the_entered_token :
  forall (fuel : nat) (sched : schedule) (tr tr1 tr2 : list event) (s : state)
         (q : request),
    run (runSetup JSON_parse path_join normalizeUrl dirname fuel) sched = (tr, s) ->
    tr = tr1 ++ EvCall (Rp q) :: tr2 ->
    exists answers,
      In (EvSettle (Prompt config_questions) (Resolved answers)) tr1 /\
      authorization q = "Bearer " +++ field_string "token" answers.
Proof.
  intros fuel sched tr tr1 tr2 s q Hrun Htr.
  assert (Hin : In (EvCall (Rp q)) tr) by (rewrite Htr; apply in_elt).
  destruct (runSetup_cases fuel sched tr s Hrun)
    as [[Hcalls _] | (answers & config & sched2 & tr' & Heq & Htoken & _ & Hsetup)].
  - exfalso.
    assert (Hc : In (Rp q) (calls tr)).
    { clear - Hin. induction tr as [| ev tr IH]; [destruct Hin |].
      destruct Hin as [-> | Hin]; [left; reflexivity |].
      destruct ev; simpl; auto. }
    rewrite Hcalls in Hc. destruct Hc as [Hc | []]. discriminate Hc.
  - exists answers. rewrite Heq in Htr. split.
    + destruct tr1 as [| e1 tr1]; [discriminate Htr |].
      destruct tr1 as [| e2 tr1]; [discriminate Htr |].
      destruct tr1 as [| e3 tr1]; [discriminate Htr |].
      destruct tr1 as [| e4 tr1]; [discriminate Htr |].
      simpl in Htr. injection Htr as _ _ _ <- _.
      do 3 right. left. reflexivity.
    + rewrite Heq in Hin. simpl in Hin.
      destruct Hin as [Hin | [Hin | [Hin | [Hin | Hin]]]]; try discriminate Hin.
      destruct (run_safe _ _ _ _ _ (setup_safe config fuel) Hsetup _ Hin)
        as [Hauth _].
      rewrite <- Htoken. apply Hauth. reflexivity.
Qed.

(** X15: outside the prompts (the default of the token question reads
    [token.txt] inside the first one), the only files [runSetup] reads are
    the two templates beside the script, the only ones it writes are
    [client.env] and [server.env] there, and every timer it starts is one
    of five seconds. *)
Theorem runSetup_side_effects :
  forall (fuel : nat) (sched : schedule) (tr : list event) (s : state),
    run (runSetup JSON_parse path_join normalizeUrl dirname fuel) sched = (tr, s) ->
    (forall file, In (ReadFile file) (calls tr) ->
       file = path_join dirname "portal_login.html" \/
       file = path_join dirname "issue_scopes_rule.js") /\
    (forall file content, In (WriteFile file content) (calls tr) ->
       file = path_join dirname "client.env" \/
       file = path_join dirname "server.env") /\
    (forall ms, In (Delay ms) (calls tr) -> ms = 5000%Z).
Proof.
  intros fuel sched tr s Hrun.
  assert (Hops : forall op, In op (calls tr) ->
             op = Prompt config_questions \/
             exists token, setup_op path_join dirname token op).
  { destruct (runSetup_cases fuel sched tr s Hrun)
      as [[Hc _] | (answers & config & sched2 & tr' & -> & _ & _ & Hsetup)].
    - rewrite Hc. intros op [<- | []]. left. reflexivity.
    - intros op Hop. simpl in Hop. destruct Hop as [<- | Hop]; [left; reflexivity |].
      right. exists (token config).
      exact (run_safe _ _ _ _ _ (setup_safe config fuel) Hsetup _ (in_calls _ _ Hop)). }
  split; [| split].
  - intros file Hin. destruct (Hops _ Hin) as [H | [tok (_ & _ & Hown & _)]];
      [discriminate H |].
    destruct (Hown file eq_refl) as [H | H]; injection H as ->; auto.
  - intros file content Hin.
    destruct (Hops _ Hin) as [H | [tok (_ & _ & _ & Hown)]]; [discriminate H |].
    exact (Hown file content eq_refl).
  - intros ms Hin. destruct (Hops _ Hin) as [H | [tok (_ & Hwait & _)]];
      [discriminate H |].
    exact (Hwait ms eq_refl).
Qed.

End WholeRun.

(** ** The whole run: discovery, selection, then creation *)

Lemma split_after_prefix {A} (x : A) :
  forall pre rest tr1 tr2,
    pre ++ rest = tr1 ++ x :: tr2 ->
    ~ In x pre ->
    exists mid, tr1 = pre ++ mid /\ rest = mid ++ x :: tr2.
Proof.
  induction pre as [| a pre IH]; intros rest tr1 tr2 Heq Hnot.
  - exists tr1. auto.
  - destruct tr1 as [| b tr1]; simpl in Heq; injection Heq as -> Heq.
    + exfalso. apply Hnot. left. reflexivity.
    + destruct (IH rest tr1 tr2 Heq) as [mid [-> ->]].
      * intros Hin. apply Hnot. right. assumption.
      * exists mid. auto.
Qed.

Lemma js_map_array (f : value -> result value) (a v : value) :
  js_map f a = Ok v -> exists l, v = VArr l.
Proof.
  destruct a; simpl; try discriminate.
  destruct (mapM f l) as [vs |]; simpl; [| discriminate].
  intros H. injection H as <-. eauto.
Qed.

Section Selection.

Variable JSON_parse : value -> result value.
Variable path_join : string -> string -> string.
Variable normalizeUrl : string -> string.
Variable dirname : string.

Lemma discovery_arrays (config : Config) :
  Forall2 (fun Q t => twp (no_method POST) Q [] t)
          [is_array; is_array; is_array]
          (map (findConnections JSON_parse path_join config) strategies).
Proof.
  assert (H : forall strategy,
             twp (no_method POST) is_array []
                 (findConnections JSON_parse path_join config strategy)).
  { intros strategy. unfold findConnections, await. simpl. split.
    - intros q Hq. injection Hq as <-. discriminate.
    - intros [resp | e]; [| exact I].
      destruct (JSON_parse resp) as [connections |]; [| exact I].
      destruct (js_map _ connections) as [choices |] eqn:Hm; [| exact I].
      simpl. eapply js_map_array. eassumption. }
  unfold strategies. simpl map.
  constructor; [apply H | constructor; [apply H | constructor;
    [apply H | constructor]]].
Qed.

(** The runs of the function after the configuration: the discovery is
    going on, without any creation request, or it is over with three
    arrays and the run goes on with their validation. *)
Lemma setup_cases (config : Config) (fuel : nat) (sched : schedule) tr s :
  run (setup JSON_parse path_join dirname config fuel) sched = (tr, s) ->
  (no_all tr /\ forall q, In q (requests tr) -> method q <> POST) \/
  exists trA ad sms email sched2 trB,
    tr = EvLog green_bold "analysing tenant..." :: trA
         ++ EvAll [VArr ad; VArr sms; VArr email] :: trB /\
    no_all trA /\
    (forall q, In q (requests trA) -> method q <> POST) /\
    run (bind (validateConnections ad sms email)
              (after_selection JSON_parse path_join dirname config fuel))
        sched2 = (trB, s).
Proof.
  intros Hrun. unfold setup in Hrun.
  destruct (run_PLog _ _ _ _ _ _ Hrun) as [tr' [-> Hall]].
  destruct (run_PAll_cases _ _ _ _ _ _ _ (discovery_arrays config) Hall)
    as [[Hpool _] | (trA & vs & sched2 & trB & -> & HA & Hvs & Hk)].
  - left. split.
    + change (EvLog green_bold "analysing tenant..." :: tr')
        with ([EvLog green_bold "analysing tenant..."] ++ tr').
      apply no_all_app. split; [reflexivity | eapply pool_events_no_all; eassumption].
    + intros q Hq. simpl in Hq. apply in_requests in Hq.
      rewrite Forall_forall in Hpool. exact (Hpool _ Hq q eq_refl).
  - right.
    inversion Hvs as [| Q0 a Qs0 vs0 Ha Hvs0]; subst.
    inversion Hvs0 as [| Q1 b Qs1 vs1 Hb Hvs1]; subst.
    inversion Hvs1 as [| Q2 c Qs2 vs2 Hc Hvs2]; subst.
    inversion Hvs2; subst.
    destruct Ha as [h0 [_ [ad ->]]]. destruct Hb as [h1 [_ [sms ->]]].
    destruct Hc as [h2 [_ [email ->]]]. cbn [nth elements] in Hk.
    exists trA, ad, sms, email, sched2, trB.
    split; [reflexivity |]. split; [eapply pool_events_no_all; eassumption |].
    split; [| exact Hk].
    intros q Hq. apply in_requests in Hq.
    rewrite Forall_forall in HA. exact (HA _ Hq q eq_refl).
Qed.

Lemma mapM_choice_inv (conns vs : list value) :
  mapM (fun c => name <- get c "name" ;; id <- get c "id" ;;
                 Ok (VObj [("name", name); ("value", id)])) conns = Ok vs ->
  vs = map choice conns.
Proof.
  revert vs. induction conns as [| c conns IH]; simpl; intros vs H.
  - injection H as <-. reflexivity.
  - unfold choice, field.
    destruct (get c "name") as [name |]; cbn [rbind] in H; [| discriminate H].
    destruct (get c "id") as [id |]; cbn [rbind] in H; [| discriminate H].
    destruct (mapM _ conns) as [rest |]; cbn [rbind] in H; [| discriminate H].
    injection H as <-. rewrite (IH rest eq_refl). reflexivity.
Qed.

Lemma findConnections_found (config : Config) (strategy : string) :
  twp (no_method POST)
      (found_by JSON_parse (connections_request path_join config strategy)) []
      (findConnections JSON_parse path_join config strategy).
Proof.
  unfold findConnections, await. simpl. split.
  - intros q Hq. injection Hq as <-. discriminate.
  - intros [resp | e]; [| exact I].
    destruct (JSON_parse resp) as [connections |] eqn:Hparse; [| exact I].
    destruct (js_map _ connections) as [choices |] eqn:Hm; [| exact I].
    simpl. exists resp.
    destruct connections as [| | b | n | str | conns | fields];
      simpl in Hm; try discriminate Hm.
    destruct (mapM _ conns) as [vs |] eqn:Hvs; cbn [rbind] in Hm;
      [| discriminate Hm].
    injection Hm as <-. exists conns.
    split; [left; reflexivity |]. split; [exact Hparse |].
    rewrite (mapM_choice_inv _ _ Hvs). reflexivity.
Qed.

Lemma found_discovered (config : Config) (strategy : string) (tr : list event)
    (found : list value) :
  result_ok tr (found_by JSON_parse
                  (connections_request path_join config strategy)) (VArr found) ->
  discovered JSON_parse path_join (domain config) tr strategy found.
Proof.
  intros (h & Hsrc & resp & conns & Hin & Hparse & Hv).
  injection Hv as ->.
  exists (connections_request path_join config strategy), resp, conns.
  split; [apply Hsrc; assumption |].
  split; [reflexivity |]. split; [reflexivity |]. auto.
Qed.

(** The three lists the discovery is fulfilled with are, in this order,
    what the tenant answered for [ad], for [sms] and for [email]. *)
Lemma setup_discovery (config : Config) (fuel : nat) (sched : schedule)
    (tr tr1 tr2 : list event) (s : state) (ad sms email : list value) :
  run (setup JSON_parse path_join dirname config fuel) sched = (tr, s) ->
  tr = tr1 ++ EvAll [VArr ad; VArr sms; VArr email] :: tr2 ->
  no_all tr1 ->
  discovered JSON_parse path_join (domain config) tr1 "ad" ad /\
  discovered JSON_parse path_join (domain config) tr1 "sms" sms /\
  discovered JSON_parse path_join (domain config) tr1 "email" email.
Proof.
  intros Hrun Htr Hno. unfold setup in Hrun.
  destruct (run_PLog _ _ _ _ _ _ Hrun) as [tr' [Heq Hall]].
  assert (Hps : Forall2 (fun Q t => twp (no_method POST) Q [] t)
                  [found_by JSON_parse (connections_request path_join config "ad");
                   found_by JSON_parse (connections_request path_join config "sms");
                   found_by JSON_parse (connections_request path_join config "email")]
                  (map (findConnections JSON_parse path_join config) strategies)).
  { unfold strategies. simpl map.
    repeat (constructor; [apply findConnections_found |]). constructor. }
  destruct (run_PAll_cases _ _ _ _ _ _ _ Hps Hall)
    as [[Hpool _] | (trA & vs & sched2 & trB & -> & HA & Hvs & _)].
  - exfalso. apply pool_events_no_all in Hpool.
    assert (Hnone : no_all tr).
    { rewrite Heq.
      change (EvLog green_bold "analysing tenant..." :: tr')
        with ([EvLog green_bold "analysing tenant..."] ++ tr').
      apply no_all_app. split; [reflexivity | assumption]. }
    rewrite Htr in Hnone. apply no_all_app in Hnone.
    destruct Hnone as [_ Hnone]. discriminate Hnone.
  - rewrite Heq in Htr.
    assert (HnoA : no_all (EvLog green_bold "analysing tenant..." :: trA)).
    { change (EvLog green_bold "analysing tenant..." :: trA)
        with ([EvLog green_bold "analysing tenant..."] ++ trA).
      apply no_all_app. split; [reflexivity |].
      eapply pool_events_no_all; eassumption. }
    change (EvLog green_bold "analysing tenant..." :: trA ++ EvAll vs :: trB)
      with ((EvLog green_bold "analysing tenant..." :: trA) ++ EvAll vs :: trB)
      in Htr.
    symmetry in Htr.
    destruct (first_all_unique _ _ _ _ _ _ Htr Hno HnoA) as (-> & <- & _).
    inversion Hvs as [| Q0 a Qs0 vs0 Ha Hvs0]; subst.
    inversion Hvs0 as [| Q1 b Qs1 vs1 Hb Hvs1]; subst.
    inversion Hvs1 as [| Q2 c Qs2 vs2 Hc Hvs2]; subst.
    assert (Hmono : forall strategy found,
               discovered JSON_parse path_join (domain config) trA strategy found ->
               discovered JSON_parse path_join (domain config)
                 (EvLog green_bold "analysing tenant..." :: trA) strategy found).
    { intros strategy found (q & resp & conns & Hin & H).
      exists q, resp, conns. split; [right; assumption | assumption]. }
    split; [| split]; apply Hmono; apply found_discovered; assumption.
Qed.


(** X17: no creation request is sent before the discovery has found a
    connection for each of the three strategies and the operator has
    answered the prompt that offers them. *)
Theorem creation_follows_selection :
  forall (fuel : nat) (sched : schedule) (tr tr1 tr2 : list event) (s : state)
         (q : request),
    run (runSetup JSON_parse path_join normalizeUrl dirname fuel) sched = (tr, s) ->
    tr = tr1 ++ EvCall (Rp q) :: tr2 ->
    method q = POST ->
    exists ad sms email answers,
      ad <> [] /\ sms <> [] /\ email <> [] /\
      In (EvAll [VArr ad; VArr sms; VArr email]) tr1 /\
      In (EvSettle (Prompt (connection_questions ad sms email)) (Resolved answers))
         tr1.
Proof.
  intros fuel sched tr tr1 tr2 s q Hrun Htr Hpost.
  assert (Hin : In (EvCall (Rp q)) tr) by (rewrite Htr; apply in_elt).
  destruct (runSetup_cases JSON_parse path_join normalizeUrl dirname fuel sched tr s Hrun)
    as [[Hcalls _] | (answers0 & config & sched2 & tr' & Heq & _ & _ & Hsetup)].
  { exfalso. apply in_requests in Hin.
    assert (Hc : In (Rp q) (calls tr)).
    { clear - Hin. apply in_requests in Hin.
      induction tr as [| ev tr IH]; [destruct Hin |].
      destruct Hin as [-> | Hin]; [left; reflexivity |].
      destruct ev; simpl; auto. }
    rewrite Hcalls in Hc. destruct Hc as [Hc | []]. discriminate Hc. }
  destruct (setup_cases config fuel sched2 tr' s Hsetup)
    as [[_ Hnone] | (trA & ad & sms & email & sched3 & trB & Heq' & _ & HA & Hk)].
  { exfalso. rewrite Heq in Hin. simpl in Hin.
    destruct Hin as [H | [H | [H | [H | Hin]]]]; try discriminate H.
    apply in_requests in Hin. exact (Hnone q Hin Hpost). }
  assert (HnotA : ~ In (EvCall (Rp q)) trA).
  { intros H. apply in_requests in H. exact (HA q H Hpost). }
  unfold validateConnections in Hk.
  destruct ad as [| a0 ad].
  { exfalso. cbn [List.length Nat.ltb Nat.leb bind] in Hk.
    rewrite run_exit in Hk. injection Hk as <- _.
    rewrite Heq, Heq' in Hin. simpl in Hin.
    destruct Hin as [H | [H | [H | [H | [H | Hin]]]]]; try discriminate H.
    apply in_cons_app in Hin. destruct Hin as [H | [H | H]];
      [contradiction | discriminate H |].
    destruct H as [H | [H | []]]; discriminate H. }
  destruct sms as [| b0 sms].
  { exfalso. cbn [List.length Nat.ltb Nat.leb bind] in Hk.
    rewrite run_exit in Hk. injection Hk as <- _.
    rewrite Heq, Heq' in Hin. simpl in Hin.
    destruct Hin as [H | [H | [H | [H | [H | Hin]]]]]; try discriminate H.
    apply in_cons_app in Hin. destruct Hin as [H | [H | H]];
      [contradiction | discriminate H |].
    destruct H as [H | [H | []]]; discriminate H. }
  destruct email as [| c0 email].
  { exfalso. cbn [List.length Nat.ltb Nat.leb bind] in Hk.
    rewrite run_exit in Hk. injection Hk as <- _.
    rewrite Heq, Heq' in Hin. simpl in Hin.
    destruct Hin as [H | [H | [H | [H | [H | Hin]]]]]; try discriminate H.
    apply in_cons_app in Hin. destruct Hin as [H | [H | H]];
      [contradiction | discriminate H |].
    destruct H as [H | [H | []]]; discriminate H. }
  cbn [List.length Nat.ltb Nat.leb bind pawait] in Hk.
  destruct (run_PAwait _ _ _ _ _ Hk)
    as [[HB _] | (r & sched4 & trC & HB & Hrest)].
  { exfalso. rewrite Heq, Heq', HB in Hin. simpl in Hin.
    destruct Hin as [H | [H | [H | [H | [H | Hin]]]]]; try discriminate H.
    apply in_cons_app in Hin. destruct Hin as [H | [H | H]];
      [contradiction | discriminate H |].
    destruct H as [H | []]; discriminate H. }
  destruct r as [answers | e].
  - exists (a0 :: ad), (b0 :: sms), (c0 :: email), answers.
    split; [discriminate |]. split; [discriminate |]. split; [discriminate |].
    assert (Hsplit : exists mid,
               tr1 = ([EvLog white_bgGreen_bold "Self Service Portal Setup";
                       EvLog plain EOL; EvCall (Prompt config_questions);
                       EvSettle (Prompt config_questions) (Resolved answers0);
                       EvLog green_bold "analysing tenant..."] ++ trA ++
                      [EvAll [VArr (a0 :: ad); VArr (b0 :: sms); VArr (c0 :: email)];
                       EvCall (Prompt (connection_questions (a0 :: ad) (b0 :: sms)
                                         (c0 :: email)));
                       EvSettle (Prompt (connection_questions (a0 :: ad) (b0 :: sms)
                                           (c0 :: email))) (Resolved answers)])
                     ++ mid /\ trC = mid ++ EvCall (Rp q) :: tr2).
    { apply split_after_prefix.
      - rewrite <- Htr, Heq, Heq', HB. simpl. rewrite <- !app_assoc. reflexivity.
      - intros H. simpl in H.
        destruct H as [H | [H | [H | [H | [H | H]]]]]; try discriminate H.
        apply in_app_or in H. destruct H as [H | H]; [contradiction |].
        destruct H as [H | [H | [H | []]]]; discriminate H. }
    destruct Hsplit as [mid [-> _]].
    split.
    + apply in_or_app. left. simpl. do 5 right. apply in_or_app. right.
      left. reflexivity.
    + apply in_or_app. left. simpl. do 5 right. apply in_or_app. right.
      right. right. left. reflexivity.
  - exfalso. cbn [bind] in Hrest. rewrite run_throw in Hrest.
    injection Hrest as <- _.
    rewrite Heq, Heq', HB in Hin. simpl in Hin.
    destruct Hin as [H | [H | [H | [H | [H | Hin]]]]]; try discriminate H.
    apply in_cons_app in Hin. destruct Hin as [H | [H | H]];
      [contradiction | discriminate H |].
    destruct H as [H | [H | []]]; discriminate H.
Qed.

End Selection.

(** ** The validation of the token *)

Lemma difference_nil (array values : list string) :
  difference array values = [] <-> (forall x, In x array -> In x values).
Proof.
  unfold difference. induction array as [| a array IH]; simpl.
  - split; [intros _ x [] | reflexivity].
  - destruct (existsb (String.eqb a) values) eqn:Ha; simpl.
    + apply existsb_exists in Ha. destruct Ha as [y [Hy Hay]].
      apply String.eqb_eq in Hay. subst y.
      rewrite IH. split.
      * intros H x [<- | Hx]; auto.
      * intros H x Hx. apply H. right. assumption.
    + split; [discriminate |].
      intros H. exfalso.
      assert (Hin : In a values) by (apply H; left; reflexivity).
      assert (Ht : existsb (String.eqb a) values = true).
      { apply existsb_exists. exists a. split; [assumption | apply String.eqb_refl]. }
      congruence.
Qed.

Lemma in_difference (array values : list string) (x : string) :
  In x (difference array values) <-> In x array /\ ~ In x values.
Proof.
  unfold difference. rewrite filter_In, negb_true_iff. split.
  - intros [Hx Hn]. split; [assumption |]. intros Hv.
    assert (Ht : existsb (String.eqb x) values = true).
    { apply existsb_exists. exists x. split; [assumption | apply String.eqb_refl]. }
    congruence.
  - intros [Hx Hn]. split; [assumption |].
    destruct (existsb (String.eqb x) values) eqn:He; [| reflexivity].
    apply existsb_exists in He. destruct He as [y [Hy Hxy]].
    apply String.eqb_eq in Hxy. subst y. contradiction.
Qed.

Section TokenProperties.

Variable jwt_decode : value -> result value.
Variable url_parse : value -> result value.

Lemma issuer_accepted_scopes (token answers claims : value) :
  jwt_decode token = Ok claims ->
  issuer_accepted url_parse claims answers ->
  validate_token jwt_decode url_parse token answers = check_scopes claims.
Proof.
  intros Hdecode [Hclaims Hiss]. unfold validate_token.
  rewrite Hdecode, Hclaims.
  assert (Hn : nullish claims = false) by (destruct claims; try reflexivity; discriminate).
  rewrite (get_field claims "iss" Hn).
  destruct Hiss as [-> | (parts & host & domain & -> & -> & -> & ->)];
    [reflexivity |].
  destruct (truthy (field "iss" claims)); reflexivity.
Qed.

(** X18: a token whose issuer is accepted and whose [scope] claim is a
    non-empty string is accepted exactly when each of the six required
    scopes is one of the words of that string, in any order and among any
    others; otherwise the scope claim is printed and the answer is the
    message that lists the required scopes that are missing, and only
    those. *)
Theorem token_scopes_checked :
  forall (token answers claims : value) (scope : string),
    jwt_decode token = Ok claims ->
    issuer_accepted url_parse claims answers ->
    get claims "scope" = Ok (VStr scope) ->
    scope <> "" ->
    ((forall r, In r requiredScopes -> In r (split_space scope)) ->
     validate_token jwt_decode url_parse token answers = Ret (VBool true)) /\
    ((exists r, In r requiredScopes /\ ~ In r (split_space scope)) ->
     exists missing,
       validate_token jwt_decode url_parse token answers =
         Log plain scope
           (Ret (VStr ("Required scopes missing " +++ join "," missing))) /\
       forall r, In r missing <->
                 In r requiredScopes /\ ~ In r (split_space scope)).
Proof.
  intros token answers claims scope Hdecode Hiss Hscope Hne.
  rewrite (issuer_accepted_scopes token answers claims Hdecode Hiss).
  unfold check_scopes. rewrite Hscope. simpl truthy.
  assert (Ht : negb (String.eqb scope "") = true).
  { apply negb_true_iff. apply String.eqb_neq. assumption. }
  rewrite Ht. split.
  - intros Hall. apply difference_nil in Hall. rewrite Hall. reflexivity.
  - intros [r [Hr Hnot]].
    exists (difference requiredScopes (split_space scope)).
    split; [| intros x; apply in_difference].
    destruct (difference requiredScopes (split_space scope)) as [| m ms] eqn:Hd;
      [| reflexivity].
    exfalso. assert (Hin : In r (difference requiredScopes (split_space scope)))
      by (apply in_difference; auto).
    rewrite Hd in Hin. destruct Hin.
Qed.

(** X19: a token without a [scope] claim (or with an empty one) is
    accepted once its issuer is: its scopes are not checked at all. *)
Theorem token_without_scope_accepted :
  forall (token answers claims : value),
    jwt_decode token = Ok claims ->
    issuer_accepted url_parse claims answers ->
    truthy (field "scope" claims) = false ->
    validate_token jwt_decode url_parse token answers = Ret (VBool true).
Proof.
  intros token answers claims Hdecode Hiss Hscope.
  rewrite (issuer_accepted_scopes token answers claims Hdecode Hiss).
  destruct Hiss as [Hclaims _].
  assert (Hn : nullish claims = false) by (destruct claims; try reflexivity; discriminate).
  unfold check_scopes. rewrite (get_field claims "scope" Hn), Hscope. reflexivity.
Qed.

(** X20: a token whose issuer has another host than the domain entered is
    refused with the message that names both, whatever its scopes. *)
Theorem token_of_other_issuer_refused :
  forall (token answers claims parts host domain : value),
    jwt_decode token = Ok claims ->
    truthy claims = true ->
    truthy (field "iss" claims) = true ->
    url_parse (field "iss" claims) = Ok parts ->
    get parts "host" = Ok host ->
    get answers "domain" = Ok domain ->
    strict_eq host domain = false ->
    validate_token jwt_decode url_parse token answers =
      Ret (VStr ("Issuer (" +++ toString host
                 +++ ") of the token does not match the domain ("
                 +++ toString domain +++ ")")).
Proof.
  intros token answers claims parts host domain
         Hdecode Hclaims Hiss Hparse Hhost Hdomain Hneq.
  unfold validate_token. rewrite Hdecode, Hclaims.
  assert (Hn : nullish claims = false) by (destruct claims; try reflexivity; discriminate).
  rewrite (get_field claims "iss" Hn), Hiss, Hparse, Hhost, Hdomain, Hneq.
  reflexivity.
Qed.

(** X21: a [scope] claim that is not a string (an array of scopes, for
    one) is not read as a list of scopes: the validation throws a
    [TypeError]. *)
Theorem token_with_scope_list_throws :
  forall (token answers claims scope : value),
    jwt_decode token = Ok claims ->
    issuer_accepted url_parse claims answers ->
    get claims "scope" = Ok scope ->
    truthy scope = true ->
    (forall s, scope <> VStr s) ->
    exists e,
      err_name e = "TypeError" /\
      validate_token jwt_decode url_parse token answers = Throw e.
Proof.
  intros token answers claims scope Hdecode Hiss Hscope Htruthy Hnot.
  rewrite (issuer_accepted_scopes token answers claims Hdecode Hiss).
  unfold check_scopes. rewrite Hscope, Htruthy.
  destruct scope; try discriminate Htruthy;
    try (eexists; split; [| reflexivity]; reflexivity).
  exfalso. eapply Hnot. reflexivity.
Qed.

End TokenProperties.

(** ** Sequencing: the runs of [bind p f] *)

Lemma pstart_bind (f : value -> prog) :
  forall p,
    pstart (bind p f) =
    match pstart p with
    | (ev, SRet v) => let (ev', s) := pstart (f v) in (ev ++ ev', s)
    | (ev, s) => (ev, sbind s f)
    end.
Proof.
  induction p as [v | e | st msg k IH | code | op k IH | ps k IH | ]; simpl;
    try reflexivity.
  - destruct (pstart (f v)); reflexivity.
  - rewrite IH. destruct (pstart k) as [ev s]. destruct s; try reflexivity.
    destruct (pstart (f v)); reflexivity.
  - destruct (pool_start ps) as [ev cs].
    destruct (resolve cs) as [| vs | e]; try reflexivity.
    rewrite IH. destruct (pstart (k vs)) as [ev' s]. destruct s; try reflexivity.
    destruct (pstart (f v)) as [ev'' s'']. rewrite <- app_assoc. reflexivity.
Qed.

Lemma deliver_bind (f : value -> prog) (s : state) (j : nat) (r : settle) :
  returned s = false ->
  deliver (sbind s f) j r =
  match deliver s j r with
  | None => None
  | Some (ev, SRet v) => let (ev', s') := pstart (f v) in Some (ev ++ ev', s')
  | Some (ev, s') => Some (ev, sbind s' f)
  end.
Proof.
  intros Hs. destruct s as [v | e | code | op k | cs k | e cs | ]; simpl;
    try reflexivity; try discriminate Hs.
  - destruct j; [| reflexivity].
    rewrite pstart_bind. destruct (pstart (k r)) as [ev s']. destruct s';
      try reflexivity.
    destruct (pstart (f v)); reflexivity.
  - destruct (pool_deliver cs j r) as [[ev cs'] |]; [| reflexivity].
    destruct (resolve cs') as [| vs | e]; try reflexivity.
    rewrite pstart_bind. destruct (pstart (k vs)) as [ev' s']. destruct s';
      try reflexivity.
    destruct (pstart (f v)) as [ev'' s'']. rewrite <- app_assoc. reflexivity.
  - destruct (pool_deliver cs j r) as [[ev cs'] |]; reflexivity.
Qed.

Lemma run_from_bind (f : value -> prog) :
  forall sched s tr s2,
    returned s = false ->
    run_from (sbind s f) sched = (tr, s2) ->
    (exists s1, run_from s sched = (tr, s1) /\ returned s1 = false /\
                s2 = sbind s1 f) \/
    (exists sched1 sched2 tr1 v tr2,
        run_from s sched1 = (tr1, SRet v) /\
        run (f v) sched2 = (tr2, s2) /\ tr = tr1 ++ tr2).
Proof.
  induction sched as [| [j r] sched IH]; intros s tr s2 Hs Hrun.
  - simpl in Hrun. injection Hrun as <- <-. left. exists s. auto.
  - simpl in Hrun. rewrite deliver_bind in Hrun by assumption.
    destruct (deliver s j r) as [[ev s'] |] eqn:Hd.
    + destruct (returned s') eqn:Hs'.
      * destruct s'; try discriminate Hs'.
        destruct (pstart (f v)) as [ev' s''] eqn:Hf.
        destruct (run_from s'' sched) as [tr' s3] eqn:Hrest.
        injection Hrun as <- <-. right.
        exists [(j, r)], sched, ev, v, (ev' ++ tr').
        split; [simpl; rewrite Hd; rewrite app_nil_r; reflexivity |].
        split; [unfold run; rewrite Hf, Hrest; reflexivity |].
        rewrite app_assoc. reflexivity.
      * assert (Hrun' : (let (tr', s3) := run_from (sbind s' f) sched in
                         (ev ++ tr', s3)) = (tr, s2)).
        { destruct s'; try exact Hrun. discriminate Hs'. }
        clear Hrun.
        destruct (run_from (sbind s' f) sched) as [tr' s3] eqn:Hrest.
        injection Hrun' as <- <-.
        destruct (IH _ _ _ Hs' Hrest)
          as [(s1 & H1 & Hr1 & ->) | (sched1 & sched2 & tr1 & v & tr2 & H1 & H2 & ->)].
        -- left. exists s1. split; [| auto].
           simpl. rewrite Hd, H1. reflexivity.
        -- right. exists ((j, r) :: sched1), sched2, (ev ++ tr1), v, tr2.
           split; [simpl; rewrite Hd, H1; reflexivity |].
           split; [assumption | rewrite app_assoc; reflexivity].
    + destruct (IH _ _ _ Hs Hrun)
        as [(s1 & H1 & Hr1 & ->) | (sched1 & sched2 & tr1 & v & tr2 & H1 & H2 & ->)].
      * left. exists s1. split; [| auto]. simpl. rewrite Hd. assumption.
      * right. exists ((j, r) :: sched1), sched2, tr1, v, tr2.
        split; [simpl; rewrite Hd; assumption | auto].
Qed.

(** A run of [bind p f] is a run of [p] that has not returned, or a run
    of [p] that returns some [v] followed by a run of [f v]. *)
Lemma run_bind (p : prog) (f : value -> prog) (sched : schedule) tr s2 :
  run (bind p f) sched = (tr, s2) ->
  (exists s1, run p sched = (tr, s1) /\ returned s1 = false /\ s2 = sbind s1 f) \/
  (exists sched1 sched2 tr1 v tr2,
      run p sched1 = (tr1, SRet v) /\
      run (f v) sched2 = (tr2, s2) /\ tr = tr1 ++ tr2).
Proof.
  unfold run at 1. rewrite pstart_bind.
  destruct (pstart p) as [ev s] eqn:Hp.
  destruct (returned s) eqn:Hs.
  - destruct s; try discriminate Hs.
    destruct (pstart (f v)) as [ev' s'] eqn:Hf.
    destruct (run_from s' sched) as [tr' s3] eqn:Hrest.
    intros [= <- <-]. right. exists [], sched, ev, v, (ev' ++ tr').
    split; [unfold run; rewrite Hp; simpl; rewrite app_nil_r; reflexivity |].
    split; [unfold run; rewrite Hf, Hrest; reflexivity |].
    rewrite app_assoc. reflexivity.
  - intros Hrun.
    assert (Hrun' : (let (tr', s3) := run_from (sbind s f) sched in
                     (ev ++ tr', s3)) = (tr, s2)).
    { destruct s; try exact Hrun. discriminate Hs. }
    clear Hrun.
    destruct (run_from (sbind s f) sched) as [tr' s3] eqn:Hrest.
    injection Hrun' as <- <-.
    destruct (run_from_bind f _ _ _ _ Hs Hrest)
      as [(s1 & H1 & Hr1 & ->) | (sched1 & sched2 & tr1 & v & tr2 & H1 & H2 & ->)].
    + left. exists s1. split; [| auto]. unfold run. rewrite Hp, H1. reflexivity.
    + right. exists sched1, sched2, (ev ++ tr1), v, tr2.
      split; [unfold run; rewrite Hp, H1; reflexivity |].
      split; [assumption | rewrite app_assoc; reflexivity].
Qed.

Lemma sbind_returned (s : state) (f : value -> prog) :
  returned s = false -> returned (sbind s f) = false.
Proof. destruct s; simpl; auto. Qed.

(** One phase that writes no file, then the rest. *)
Lemma phase_step (p : prog) (f : value -> prog) (sched : schedule) tr s :
  psafe no_write p ->
  run (bind p f) sched = (tr, s) ->
  (calls_ok no_write tr /\ returned s = false) \/
  (exists tr1 v sched2 tr2,
      tr = tr1 ++ tr2 /\ calls_ok no_write tr1 /\ run (f v) sched2 = (tr2, s)).
Proof.
  intros Hp Hrun.
  destruct (run_bind _ _ _ _ _ Hrun)
    as [(s1 & H1 & Hr1 & ->) | (sched1 & sched2 & tr1 & v & tr2 & H1 & H2 & ->)].
  - left. split; [eapply run_safe; eassumption | apply sbind_returned; assumption].
  - right. exists tr1, v, sched2, tr2.
    split; [reflexivity |]. split; [eapply run_safe; eassumption | assumption].
Qed.

Lemma no_all_app_r (a b : list event) : no_all (a ++ b) -> no_all b.
Proof.
  unfold no_all. rewrite existsb_app. intros H.
  apply Bool.orb_false_iff in H. apply H.
Qed.

Section Phases.

Variable JSON_parse : value -> result value.
Variable path_join : string -> string -> string.
Variable normalizeUrl : string -> string.
Variable dirname : string.

Lemma wrapper_no_write (q : request) (op : io) : wrapper_op q op -> no_write op.
Proof. intros [-> | ->] file content H; discriminate H. Qed.

Lemma createEntity_no_write (config : Config) fuel entity payload :
  tsafe no_write (createEntity config fuel entity payload).
Proof.
  eapply twp_tsafe. eapply twp_weaken; [| | apply createEntity_wp with (h := [])].
  - apply wrapper_no_write.
  - intros h v H. exact H.
Qed.

Lemma getEntity_no_write (config : Config) fuel entity id :
  tsafe no_write (getEntity JSON_parse config fuel entity id).
Proof.
  eapply twp_tsafe. eapply twp_weaken; [| | apply getEntity_wp with (h := [])].
  - apply wrapper_no_write.
  - intros h v H. exact H.
Qed.

Lemma patchEntity_no_write (config : Config) fuel entity id payload :
  tsafe no_write (patchEntity config fuel entity id payload).
Proof.
  eapply twp_tsafe. eapply twp_weaken; [| | apply patchEntity_wp with (h := [])].
  - apply wrapper_no_write.
  - intros h v H. exact H.
Qed.

Lemma findConnections_no_write (config : Config) (strategy : string) :
  tsafe no_write (findConnections JSON_parse path_join config strategy).
Proof.
  unfold findConnections, await. simpl. split.
  - intros file content H. discriminate H.
  - intros [resp | e]; [| exact I].
    destruct (JSON_parse resp) as [connections |]; [| exact I].
    destruct (js_map _ connections); exact I.
Qed.

Lemma validateConnections_no_write (ad sms email : list value) :
  psafe no_write (validateConnections ad sms email).
Proof.
  unfold validateConnections.
  destruct (Nat.ltb _ 1); [exact I |].
  destruct (Nat.ltb _ 1); [exact I |].
  destruct (Nat.ltb _ 1); [exact I |].
  unfold pawait. simpl. split; [| intros [v | e]; exact I].
  intros file content H. discriminate H.
Qed.

Lemma createArtefacts_no_write (config : Config) (fuel : nat) :
  psafe no_write (createArtefacts path_join dirname config fuel).
Proof.
  unfold createArtefacts. cbn [psafe]. split.
  - unfold stage1. simpl map.
    constructor; [| constructor; [| constructor; [| constructor;
      [| constructor]]]]; try apply createEntity_no_write.
    + simpl. split; [intros file content H; discriminate H |].
      intros [v | e]; [apply createEntity_no_write | exact I].
    + simpl. split; [intros file content H; discriminate H |].
      intros [v | e]; [apply createEntity_no_write | exact I].
  - intros vs. apply psafe_bind; [intros v; exact I |].
    apply psafe_lift. unfold createMgmtApiGrant.
    destruct (get (nth 1 vs VUndef) "client_id"); [| exact I].
    apply createEntity_no_write.
Qed.

Lemma enableConnections_no_write (config : Config) (fuel : nat)
    (artefacts : value) (selected : list (string * value)) :
  psafe no_write (enableConnections JSON_parse config fuel artefacts selected).
Proof.
  unfold enableConnections. simpl. split.
  - apply Forall_forall. intros t Ht. apply in_map_iff in Ht.
    destruct Ht as [kv [<- _]]. apply getEntity_no_write.
  - intros cons.
    destruct (mapM (derivePatch artefacts) cons) as [patches |]; [| exact I].
    simpl. split; [| intros vs; exact I].
    apply Forall_forall. intros t Ht. apply in_map_iff in Ht.
    destruct Ht as [p [<- _]]. apply patchEntity_no_write.
Qed.

(** The end of a run: only writes are started, no [Promise.all] settles,
    and a run that returns has written both files and printed the last
    line. *)
Lemma conclusion_runs (config : Config) (artefacts : value) (sched : schedule)
    tr s :
  run (conclusion path_join dirname config artefacts) sched = (tr, s) ->
  calls_ok is_write tr /\ no_all tr /\
  (returned s = true ->
   s = SRet VUndef /\
   exists front back r1 r2,
     client_env config artefacts = Ok front /\
     server_env config artefacts = Ok back /\
     tr = files_then_done path_join dirname front back r1 r2).
Proof.
  unfold conclusion, generateEnv. intros Hrun.
  destruct (client_env config artefacts) as [front | e].
  2: { cbn [bind] in Hrun. rewrite run_throw in Hrun. injection Hrun as <- <-.
       split; [intros op [] | split; [reflexivity | discriminate]]. }
  destruct (server_env config artefacts) as [back | e].
  2: { cbn [bind] in Hrun. rewrite run_throw in Hrun. injection Hrun as <- <-.
       split; [intros op [] | split; [reflexivity | discriminate]]. }
  unfold pawait in Hrun. cbn [bind] in Hrun.
  assert (Hw : forall file content, is_write (WriteFile file content))
    by (intros file content; exists file, content; reflexivity).
  destruct (run_PAwait _ _ _ _ _ Hrun)
    as [[-> ->] | (r1 & sched2 & tr2 & -> & Hrun2)].
  { split; [apply calls_ok_call; [apply Hw | apply calls_ok_nil] |].
    split; [reflexivity | discriminate]. }
  destruct r1 as [r1 | e]; cbn [bind] in Hrun2.
  2: { rewrite run_throw in Hrun2. injection Hrun2 as <- <-.
       split; [apply calls_ok_call; [apply Hw |];
               apply calls_ok_skip; [exact I | apply calls_ok_nil] |].
       split; [reflexivity | discriminate]. }
  destruct (run_PAwait _ _ _ _ _ Hrun2)
    as [[-> ->] | (r2 & sched3 & tr3 & -> & Hrun3)].
  { split; [apply calls_ok_call; [apply Hw |];
            apply calls_ok_skip; [exact I |];
            apply calls_ok_call; [apply Hw | apply calls_ok_nil] |].
    split; [reflexivity | discriminate]. }
  destruct r2 as [r2 | e]; cbn [bind] in Hrun3.
  2: { rewrite run_throw in Hrun3. injection Hrun3 as <- <-.
       split; [apply calls_ok_call; [apply Hw |];
               apply calls_ok_skip; [exact I |];
               apply calls_ok_call; [apply Hw |];
               apply calls_ok_skip; [exact I | apply calls_ok_nil] |].
       split; [reflexivity | discriminate]. }
  destruct (run_PLog _ _ _ _ _ _ Hrun3) as [tr4 [-> Hrun4]].
  rewrite run_terminal in Hrun4 by exact I. injection Hrun4 as <- <-.
  split; [apply calls_ok_call; [apply Hw |];
          apply calls_ok_skip; [exact I |];
          apply calls_ok_call; [apply Hw |];
          apply calls_ok_skip; [exact I |];
          apply calls_ok_skip; [exact I | apply calls_ok_nil] |].
  split; [reflexivity |].
  intros _. split; [reflexivity |].
  exists front, back, r1, r2. auto.
Qed.

(** The phases of [runSetup] before the files: none of them writes a
    file, and the end is reached only when each of them has returned. *)
Lemma setup_phases (config : Config) (fuel : nat) (sched : schedule) tr s :
  run (setup JSON_parse path_join dirname config fuel) sched = (tr, s) ->
  (calls_ok no_write tr /\ returned s = false) \/
  (exists tr1 artefacts sched2 tr2,
      tr = tr1 ++ tr2 /\ calls_ok no_write tr1 /\
      run (conclusion path_join dirname config artefacts) sched2 = (tr2, s)).
Proof.
  intros Hrun. unfold setup in Hrun.
  destruct (run_PLog _ _ _ _ _ _ Hrun) as [tr' [-> Hrun1]]. clear Hrun.
  assert (Hps : Forall2 (fun Q t => twp no_write Q [] t)
                  [any_result; any_result; any_result]
                  (map (findConnections JSON_parse path_join config) strategies)).
  { unfold strategies. simpl map.
    repeat (constructor; [apply tsafe_twp; apply findConnections_no_write |]).
    constructor. }
  destruct (run_PAll_cases _ _ _ _ _ _ _ Hps Hrun1)
    as [[Hev Hin] | (trA & vs & sched2 & trB & -> & HA & _ & HrunB)].
  { left. split.
    - apply calls_ok_skip; [exact I | apply pool_events_calls_ok; assumption].
    - destruct Hin as [[cs ->] | (e & cs & ->)]; reflexivity. }
  clear Hrun1.
  assert (Hpre : calls_ok no_write
                   (EvLog green_bold "analysing tenant..." :: trA ++ [EvAll vs])).
  { apply calls_ok_skip; [exact I |]. apply calls_ok_app.
    - apply pool_events_calls_ok; assumption.
    - apply calls_ok_skip; [exact I | apply calls_ok_nil]. }
  cbv zeta in HrunB.
  destruct (phase_step _ _ _ _ _ (validateConnections_no_write _ _ _) HrunB)
    as [[Hq Hr] | (trV & selected & sched3 & trC & -> & HV & HrunC)].
  { left. split; [| assumption].
    intros op Hop. apply (calls_ok_app _ _ _ Hpre Hq op).
    simpl. rewrite <- app_assoc. exact Hop. }
  clear HrunB.
  destruct (phase_step _ _ _ _ _ (createArtefacts_no_write config fuel) HrunC)
    as [[Hq Hr] | (trC' & artefacts & sched4 & trE & -> & HC & HrunE)].
  { left. split; [| assumption].
    intros op Hop.
    apply (calls_ok_app _ _ _ Hpre (calls_ok_app _ _ _ HV Hq) op).
    simpl. rewrite <- app_assoc. exact Hop. }
  clear HrunC.
  destruct (phase_step _ _ _ _ _
              (enableConnections_no_write config fuel artefacts _) HrunE)
    as [[Hq Hr] | (trE' & ignored & sched5 & trG & -> & HE & HrunG)].
  { left. split; [| assumption].
    intros op Hop.
    apply (calls_ok_app _ _ _ Hpre
             (calls_ok_app _ _ _ HV (calls_ok_app _ _ _ HC Hq)) op).
    simpl. rewrite <- app_assoc. exact Hop. }
  right.
  exists ((EvLog green_bold "analysing tenant..." :: trA ++ [EvAll vs])
          ++ trV ++ trC' ++ trE'), artefacts, sched5, trG.
  split; [| split; [| exact HrunG]].
  - simpl. rewrite <- !app_assoc. reflexivity.
  - repeat apply calls_ok_app; assumption.
Qed.

Lemma runSetup_phases (fuel : nat) (sched : schedule) tr s :
  run (runSetup JSON_parse path_join normalizeUrl dirname fuel) sched = (tr, s) ->
  (calls_ok no_write tr /\ returned s = false) \/
  (exists tr1 config artefacts sched2 tr2,
      tr = tr1 ++ tr2 /\ calls_ok no_write tr1 /\
      run (conclusion path_join dirname config artefacts) sched2 = (tr2, s)).
Proof.
  intros Hrun. unfold runSetup in Hrun.
  destruct (run_PLog _ _ _ _ _ _ Hrun) as [tra [-> Hrun1]].
  destruct (run_PLog _ _ _ _ _ _ Hrun1) as [trb [-> Hrun2]].
  clear Hrun Hrun1.
  assert (Hcfg : psafe no_write (getAndValidateConfig normalizeUrl)).
  { unfold getAndValidateConfig, pawait. simpl. split.
    - intros file content H. discriminate H.
    - intros [answers | e]; [| exact I].
      destruct (get answers "portal_url"); [| exact I].
      destruct answers; exact I. }
  destruct (phase_step _ _ _ _ _ Hcfg Hrun2)
    as [[Hq Hr] | (trP & answers & sched2 & trS & -> & HP & HrunS)].
  { left. split; [| assumption].
    apply calls_ok_skip; [exact I |]. apply calls_ok_skip; [exact I |]. assumption. }
  destruct (setup_phases _ _ _ _ _ HrunS)
    as [[Hq Hr] | (tr1 & artefacts & sched3 & tr2 & -> & H1 & Hrun3)].
  { left. split; [| assumption].
    apply calls_ok_skip; [exact I |]. apply calls_ok_skip; [exact I |].
    apply calls_ok_app; assumption. }
  right.
  exists (EvLog white_bgGreen_bold "Self Service Portal Setup" :: EvLog plain EOL
          :: trP ++ tr1), (as_config answers), artefacts, sched3, tr2.
  split; [| split; [| exact Hrun3]].
  - simpl. rewrite <- app_assoc. reflexivity.
  - apply calls_ok_skip; [exact I |]. apply calls_ok_skip; [exact I |].
    apply calls_ok_app; assumption.
Qed.

(** X22: when [runSetup] returns, it returns [undefined], and the run
    ends with the writing of [client.env], then of [server.env], both
    completed, then the last line; no file was written before. *)
Theorem runSetup_returns_after_both_files :
  forall (fuel : nat) (sched : schedule) (tr : list event) (v : value),
    run (runSetup JSON_parse path_join normalizeUrl dirname fuel) sched
      = (tr, SRet v) ->
    v = VUndef /\
    exists tr0 front back r1 r2,
      tr = tr0 ++ files_then_done path_join dirname front back r1 r2 /\
      (forall file content, ~ In (WriteFile file content) (calls tr0)).
Proof.
  intros fuel sched tr v Hrun.
  destruct (runSetup_phases _ _ _ _ Hrun)
    as [[_ Hr] | (tr1 & config & artefacts & sched2 & tr2 & -> & H1 & Hrun2)];
    [discriminate Hr |].
  destruct (conclusion_runs _ _ _ _ _ Hrun2) as (_ & _ & Hret).
  destruct (Hret eq_refl) as (Hs & front & back & r1 & r2 & _ & _ & ->).
  injection Hs as ->. split; [reflexivity |].
  exists tr1, front, back, r1, r2. split; [reflexivity |].
  intros file content Hin. apply in_calls in Hin.
  exact (H1 _ Hin file content eq_refl).
Qed.

(** X23: once the writing of a file has been started, [runSetup] starts
    nothing but the writing of a file: no request is sent any more, no
    timer is started, and no [Promise.all] settles. *)
Theorem requests_precede_the_files :
  forall (fuel : nat) (sched : schedule) (tr tr1 tr2 : list event) (s : state)
         (file content : string),
    run (runSetup JSON_parse path_join normalizeUrl dirname fuel) sched = (tr, s) ->
    tr = tr1 ++ EvCall (WriteFile file content) :: tr2 ->
    (forall op, In op (calls tr2) -> is_write op) /\
    requests tr2 = [] /\
    no_all tr2.
Proof.
  intros fuel sched tr tr1 tr2 s file content Hrun Htr.
  assert (Hsuffix : exists mid, calls_ok is_write (mid ++ tr2) /\ no_all (mid ++ tr2)).
  { destruct (runSetup_phases _ _ _ _ Hrun)
      as [[Hq _] | (trP & config & artefacts & sched2 & trT & Heq & HP & HrunT)].
    - exfalso. apply (Hq (WriteFile file content)) with (file := file) (content := content);
        [| reflexivity].
      rewrite Htr. apply in_or_app. right. left. reflexivity.
    - destruct (conclusion_runs _ _ _ _ _ HrunT) as (Hw & Hno & _).
      rewrite Heq in Htr. apply app_eq_app in Htr.
      destruct Htr as [l [[HtrP Hrest] | [Htr1 HtrT]]].
      + destruct l as [| x l].
        * simpl in Hrest. subst trT. exists [EvCall (WriteFile file content)].
          split; assumption.
        * simpl in Hrest. injection Hrest as <- Hrest. exfalso.
          apply (HP (WriteFile file content)) with (file := file) (content := content);
            [| reflexivity].
          rewrite HtrP. apply in_or_app. right. left. reflexivity.
      + subst trT. exists (l ++ [EvCall (WriteFile file content)]).
        rewrite <- app_assoc. split; assumption. }
  destruct Hsuffix as (mid & Hw & Hno).
  assert (Hcalls : forall op, In op (calls tr2) -> is_write op).
  { intros op Hop. apply Hw. apply in_or_app. right. apply in_calls. assumption. }
  split; [assumption |]. split; [| eapply no_all_app_r; eassumption].
  destruct (requests tr2) as [| q qs] eqn:Hq; [reflexivity |]. exfalso.
  assert (Hin : In q (requests tr2)) by (rewrite Hq; left; reflexivity).
  apply in_requests in Hin.
  assert (Hc : In (Rp q) (calls tr2)).
  { clear - Hin. induction tr2 as [| ev tr IH]; [destruct Hin |].
    destruct Hin as [-> | Hin]; [left; reflexivity |].
    destruct ev; simpl; auto. }
  destruct (Hcalls _ Hc) as (f & c & Hop). discriminate Hop.
Qed.

End Phases.

(** ** The further properties on the runs of the examples *)

Lemma createArtefacts_bundle_witness :
  exists portal backend api rule mgmt_grant,
    In (EvAll [portal; backend; api; rule]) (fst demo_bundle_run) /\
    nullish backend = false /\
    VObj [("portal", demo_portal); ("backend", demo_backend);
          ("api", VObj [("id", VStr "api_1")]);
          ("rule", VObj [("id", VStr "rul_1")]); ("mgmt_grant", demo_grant)]
    = VObj [("portal", portal); ("backend", backend); ("api", api);
            ("rule", rule); ("mgmt_grant", mgmt_grant)].
Proof.
  apply (createArtefacts_bundle demo_join "." demo_config 2
           (demo_provision_schedule ++ [(0, Resolved demo_grant)])
           (fst demo_bundle_run)).
  vm_compute. reflexivity.
Defined.

Lemma createArtefacts_without_backend_witness :
  @nil event = [] /\
  (exists e, snd demo_no_backend_run = SThrow e /\ err_name e = "TypeError") /\
  (forall q, In q (requests (fst demo_no_backend_run)) -> ~ is_grant demo_config q).
Proof.
  apply (createArtefacts_without_backend demo_join "." demo_config 2
           [(1, Rejected demo_500);
            (0, Resolved (VStr "<html></html>"));
            (3, Resolved (VStr "function (user, context, callback) {}"));
            (2, Resolved (VObj [("id", VStr "api_1")]));
            (0, Resolved demo_portal);
            (3, Resolved (VObj [("id", VStr "rul_1")]))]
           (fst demo_no_backend_run) (firstn 17 (fst demo_no_backend_run)) []
           (snd demo_no_backend_run)
           demo_portal VUndef (VObj [("id", VStr "api_1")])
           (VObj [("id", VStr "rul_1")])).
  - apply surjective_pairing.
  - vm_compute. reflexivity.
  - vm_compute. reflexivity.
  - reflexivity.
Defined.

Lemma createArtefacts_rejected_by_unreadable_file_witness :
  (exists file,
      is_template demo_join "." (ReadFile file) /\
      In (EvSettle (ReadFile file) (Rejected demo_enoent)) (fst demo_unreadable_run)) /\
  (exists cs, snd demo_unreadable_run = SLost demo_enoent cs) /\
  no_all (fst demo_unreadable_run) /\
  (forall q, In q (requests (fst demo_unreadable_run)) -> ~ is_grant demo_config q).
Proof.
  apply (createArtefacts_rejected_by_unreadable_file demo_join "." demo_config 2
           [(0, Rejected demo_enoent); (1, Resolved demo_backend)]
           (fst demo_unreadable_run) (snd demo_unreadable_run) demo_enoent).
  - apply surjective_pairing.
  - vm_compute. do 7 right. left. reflexivity.
  - apply timers_fire_decide. vm_compute. reflexivity.
Defined.

Lemma patches_are_derived_witness :
  exists cons patches c p,
    In (EvAll cons) (firstn 3 (fst demo_patch_run)) /\
    List.length cons = 1 /\
    mapM (derivePatch demo_artefacts) cons = Ok patches /\
    In c cons /\
    derivePatch demo_artefacts c = Ok p /\
    In p patches /\
    get c "id" = Ok (p_id p) /\
    patch_request demo_config "connections" (VStr "con_1")
      (VObj [("enabled_clients", VArr [VStr "x"; VStr "P1"; VStr "B1"]);
             ("metadata", VObj [("username_field_name", VStr "sAMAccountName")])])
    = patch_request demo_config "connections" (p_id p) (p_patch p) /\
    PATCH = PATCH /\
    Some (VObj [("enabled_clients", VArr [VStr "x"; VStr "P1"; VStr "B1"]);
                ("metadata", VObj [("username_field_name", VStr "sAMAccountName")])])
    = Some (p_patch p) /\
    (printable (p_id p) = true ->
     "https://t.example.com/api/v2/connections/con_1"
     = "https://" +++ domain demo_config +++ "/api/v2/connections/"
       +++ toString (p_id p)).
Proof.
  apply (patches_are_derived demo_parse demo_config 2 demo_artefacts
           [("selected_ad_connection", VStr "con_1")]
           [(0, Resolved (VStr demo_connection_text)); (0, Resolved demo_connection)]
           (fst demo_patch_run) (firstn 3 (fst demo_patch_run))
           (skipn 4 (fst demo_patch_run)) (snd demo_patch_run)).
  - apply surjective_pairing.
  - vm_compute. reflexivity.
  - reflexivity.
Defined.


Lemma requests_carry_the_entered_token_witness :
  exists answers,
    In (EvSettle (Prompt config_questions) (Resolved answers))
       (firstn 5 (fst demo_whole_run)) /\
    authorization (connections_request demo_join demo_config "ad")
    = "Bearer " +++ field_string "token" answers.
Proof.
  apply (requests_carry_the_entered_token demo_parse demo_join (fun u => u) "." 2
           demo_whole_schedule (fst demo_whole_run)
           (firstn 5 (fst demo_whole_run)) (skipn 6 (fst demo_whole_run))
           (snd demo_whole_run)).
  - apply surjective_pairing.
  - vm_compute. reflexivity.
Defined.

Lemma runSetup_side_effects_witness :
  (forall file, In (ReadFile file) (calls (fst demo_whole_run)) ->
     file = demo_join "." "portal_login.html" \/
     file = demo_join "." "issue_scopes_rule.js") /\
  (forall file content, In (WriteFile file content) (calls (fst demo_whole_run)) ->
     file = demo_join "." "client.env" \/ file = demo_join "." "server.env") /\
  (forall ms, In (Delay ms) (calls (fst demo_whole_run)) -> ms = 5000%Z).
Proof.
  apply (runSetup_side_effects demo_parse demo_join (fun u => u) "." 2
           demo_whole_schedule (fst demo_whole_run) (snd demo_whole_run)).
  apply surjective_pairing.
Defined.


Lemma creation_follows_selection_witness :
  exists ad sms email answers,
    ad <> [] /\ sms <> [] /\ email <> [] /\
    In (EvAll [VArr ad; VArr sms; VArr email]) (firstn 16 (fst demo_whole_run)) /\
    In (EvSettle (Prompt (connection_questions ad sms email)) (Resolved answers))
       (firstn 16 (fst demo_whole_run)).
Proof.
  apply (creation_follows_selection demo_parse demo_join (fun u => u) "." 2
           demo_whole_schedule (fst demo_whole_run)
           (firstn 16 (fst demo_whole_run)) (skipn 17 (fst demo_whole_run))
           (snd demo_whole_run)
           (create_request demo_config "clients" backend_payload)).
  - apply surjective_pairing.
  - vm_compute. reflexivity.
  - reflexivity.
Defined.

(** The claims of a token of the examples: its issuer, and its scopes. *)
Lemma demo_issuer_accepted (scope : value) :
  issuer_accepted demo_url_parse
    (VObj [("iss", VStr "https://t.example.com"); ("scope", scope)]) demo_answers.
Proof.
  split; [reflexivity |]. right.
  exists (VObj [("host", VStr "t.example.com")]), (VStr "t.example.com"),
    (VStr "t.example.com").
  repeat split.
Defined.

Lemma token_scopes_checked_witness :
  validate_token demo_decode demo_url_parse
    (VObj [("iss", VStr "https://t.example.com");
           ("scope", VStr "read:connections create:clients create:rules read:users create:resource_servers create:client_grants update:connections")])
    demo_answers = Ret (VBool true) /\
  exists missing,
    validate_token demo_decode demo_url_parse
      (VObj [("iss", VStr "https://t.example.com");
             ("scope", VStr "create:clients read:connections")])
      demo_answers =
      Log plain "create:clients read:connections"
        (Ret (VStr ("Required scopes missing " +++ join "," missing))) /\
    forall r, In r missing <->
              In r requiredScopes /\
              ~ In r (split_space "create:clients read:connections").
Proof.
  split.
  - apply (token_scopes_checked demo_decode demo_url_parse
             (VObj [("iss", VStr "https://t.example.com");
                    ("scope", VStr "read:connections create:clients create:rules read:users create:resource_servers create:client_grants update:connections")])
             demo_answers _ _ eq_refl (demo_issuer_accepted _) eq_refl).
    + discriminate.
    + intros r Hr. vm_compute in Hr. vm_compute.
      repeat (destruct Hr as [<- | Hr]; [tauto |]). destruct Hr.
  - apply (token_scopes_checked demo_decode demo_url_parse
             (VObj [("iss", VStr "https://t.example.com");
                    ("scope", VStr "create:clients read:connections")])
             demo_answers _ _ eq_refl (demo_issuer_accepted _) eq_refl).
    + discriminate.
    + exists "create:rules". split; [right; left; reflexivity |].
      vm_compute. intros [H | [H | []]]; discriminate H.
Defined.

Lemma token_without_scope_accepted_witness :
  validate_token demo_decode demo_url_parse
    (VObj [("iss", VStr "https://t.example.com"); ("scope", VUndef)])
    demo_answers = Ret (VBool true).
Proof.
  apply (token_without_scope_accepted demo_decode demo_url_parse
           (VObj [("iss", VStr "https://t.example.com"); ("scope", VUndef)])
           demo_answers _ eq_refl (demo_issuer_accepted VUndef)).
  reflexivity.
Defined.

Lemma token_of_other_issuer_refused_witness :
  validate_token demo_decode demo_url_parse
    (VObj [("iss", VStr "https://other.example.com")]) demo_answers =
    Ret (VStr "Issuer (other.example.com) of the token does not match the domain (t.example.com)").
Proof.
  apply (token_of_other_issuer_refused demo_decode demo_url_parse
           (VObj [("iss", VStr "https://other.example.com")]) demo_answers
           (VObj [("iss", VStr "https://other.example.com")])
           (VObj [("host", VStr "other.example.com")])
           (VStr "other.example.com") (VStr "t.example.com"));
    reflexivity.
Defined.

Lemma token_with_scope_list_throws_witness :
  exists e,
    err_name e = "TypeError" /\
    validate_token demo_decode demo_url_parse
      (VObj [("iss", VStr "https://t.example.com");
             ("scope", VArr [VStr "create:clients"])])
      demo_answers = Throw e.
Proof.
  apply (token_with_scope_list_throws demo_decode demo_url_parse
           (VObj [("iss", VStr "https://t.example.com");
                  ("scope", VArr [VStr "create:clients"])])
           demo_answers _
           (VArr [VStr "create:clients"]) eq_refl (demo_issuer_accepted _) eq_refl).
  - reflexivity.
  - intros s H. discriminate H.
Defined.

Lemma runSetup_returns_after_both_files_witness :
  VUndef = VUndef /\
  exists tr0 front back r1 r2,
    fst demo_whole_run = tr0 ++ files_then_done demo_join "." front back r1 r2 /\
    (forall file content, ~ In (WriteFile file content) (calls tr0)).
Proof.
  apply (runSetup_returns_after_both_files demo_parse demo_join (fun u => u) "." 2
           demo_whole_schedule (fst demo_whole_run) VUndef).
  vm_compute. reflexivity.
Defined.

Lemma requests_precede_the_files_witness :
  (forall op, In op (calls (skipn 41 (fst demo_whole_run))) -> is_write op) /\
  requests (skipn 41 (fst demo_whole_run)) = [] /\
  no_all (skipn 41 (fst demo_whole_run)).
Proof.
  apply (requests_precede_the_files demo_parse demo_join (fun u => u) "." 2
           demo_whole_schedule (fst demo_whole_run)
           (firstn 40 (fst demo_whole_run)) (skipn 41 (fst demo_whole_run))
           (snd demo_whole_run) "./client.env" demo_front).
  - apply surjective_pairing.
  - vm_compute. reflexivity.
Defined.
